(** * A shallow embedding of [exampleapicalls.py]

    The program is a chat front-end around a hosted model API with three
    tools: a DuckDuckGo search, a webpage reader and a sandboxed Python
    runner.  This file embeds the tool functions and the orchestration loop
    and proves properties of them.

    Conventions of the embedding.
    - A Python [str] is a [string]; one [ascii] stands for one character,
      the code points below 256.  Indices, lengths and counters are [Z],
      like Python integers, so that [find] can answer [-1] and slices can
      take negative bounds.
    - A [dict] with string keys is a [gmap string _].
    - Everything outside the file (the model API, HTTP, the HTML parser,
      child processes, the file system) is an oracle of an environment
      [Env]; the oracle threads a state of its own, the [World].
    - Effectful code lives in a state-and-exception monad [M].  Every call
      to the outside is recorded in a trace so that calls can be counted.
    - The pictographs of the display texts stand as the bytes of their
      UTF-8 form; no function looks into these texts. *)

From Stdlib Require Import ZArith Lia List Ascii String Bool.
From Stdlib Require Import DecimalString.
From stdpp Require Import base option gmap strings list.

Open Scope Z_scope.

(** ** Python strings *)

Module PyStr.

Definition len (s : string) : Z := Z.of_nat (String.length s).

Fixpoint take (n : nat) (s : string) : string :=
  match n, s with
  | S n', String c s' => String c (take n' s')
  | _, _ => EmptyString
  end.

Fixpoint drop (n : nat) (s : string) : string :=
  match n, s with
  | S n', String _ s' => drop n' s'
  | _, _ => s
  end.

(** How Python resolves one bound of a slice over a sequence of length [n]. *)
Definition clamp_index (n i : Z) : Z :=
  if i <? 0 then Z.max 0 (i + n) else Z.min i n.

(** [s[start:stop]]; [None] is an omitted bound. *)
Definition slice (s : string) (start stop : option Z) : string :=
  let n := len s in
  let lo := match start with None => 0 | Some i => clamp_index n i end in
  let hi := match stop with None => n | Some j => clamp_index n j end in
  take (Z.to_nat (hi - lo)) (drop (Z.to_nat lo) s).

(** [sub in s] *)
Fixpoint contains (sub s : string) : bool :=
  match s with
  | EmptyString => String.prefix sub EmptyString
  | String _ s' => String.prefix sub s || contains sub s'
  end.

(** The scan of [str.find]: [i] is the index of the first character of [s]. *)
Fixpoint find_go (sub s : string) (i : Z) : Z :=
  match s with
  | EmptyString => if String.prefix sub EmptyString then i else -1
  | String _ s' => if String.prefix sub s then i else find_go sub s' (i + 1)
  end.

(** [s.find(sub, start)] *)
Definition find (s sub : string) (start : Z) : Z :=
  let n := len s in
  if n <? start then -1
  else let lo := clamp_index n start in
       find_go sub (drop (Z.to_nat lo) s) lo.

(** [sep.join(parts)] *)
Definition join (sep : string) (parts : list string) : string :=
  String.concat sep parts.

(** [s.split(sep)] for a non-empty [sep]: the occurrences of [sep] are taken
    from the left and do not overlap.  [skip] counts the characters of a
    matched separator that are still to be passed over. *)
Fixpoint split_go (sep : string) (skip : nat) (cur s : string) : list string :=
  match s with
  | EmptyString => [cur]
  | String c s' =>
      match skip with
      | S k => split_go sep k cur s'
      | O =>
          if String.prefix sep s
          then cur :: split_go sep (String.length sep - 1) EmptyString s'
          else split_go sep O (cur +:+ String c EmptyString) s'
      end
  end.

Definition split (s sep : string) : list string := split_go sep O EmptyString s.

Definition code (c : ascii) : Z := Z.of_N (N_of_ascii c).

Definition chr (n : Z) : ascii := ascii_of_N (Z.to_N n).

(** [c.isspace()] on the code points below 256. *)
Definition is_space (c : ascii) : bool :=
  let n := code c in
  ((9 <=? n) && (n <=? 13)) || ((28 <=? n) && (n <=? 32))
  || (n =? 133) || (n =? 160).

(** The line boundaries of [str.splitlines] below 256: LF, VT, FF, CR, FS,
    GS, RS and NEL. *)
Definition is_linebreak (c : ascii) : bool :=
  let n := code c in
  ((10 <=? n) && (n <=? 13)) || ((28 <=? n) && (n <=? 30)) || (n =? 133).

Definition CR : ascii := chr 13.
Definition LF : ascii := chr 10.

(** [s.splitlines()]: a CR LF pair is one boundary ([after_cr] remembers a
    CR just seen) and no empty last line is produced. *)
Fixpoint splitlines_go (after_cr : bool) (cur s : string) : list string :=
  match s with
  | EmptyString => if String.eqb cur EmptyString then [] else [cur]
  | String c s' =>
      if after_cr && Ascii.eqb c LF then splitlines_go false cur s'
      else if is_linebreak c
           then cur :: splitlines_go (Ascii.eqb c CR) EmptyString s'
           else splitlines_go false (cur +:+ String c EmptyString) s'
  end.

Definition splitlines (s : string) : list string :=
  splitlines_go false EmptyString s.

Fixpoint lstrip (s : string) : string :=
  match s with
  | String c s' => if is_space c then lstrip s' else s
  | EmptyString => EmptyString
  end.

Fixpoint rstrip (s : string) : string :=
  match s with
  | String c s' =>
      match rstrip s' with
      | EmptyString => if is_space c then EmptyString else String c EmptyString
      | r => String c r
      end
  | EmptyString => EmptyString
  end.

(** [s.strip()] *)
Definition strip (s : string) : string := rstrip (lstrip s).

(** [c.lower()] below 256: A-Z and the accented capitals, the
    multiplication sign apart. *)
Definition lower_char (c : ascii) : ascii :=
  let n := code c in
  if ((65 <=? n) && (n <=? 90))
     || ((192 <=? n) && (n <=? 222) && negb (n =? 215))
  then chr (n + 32) else c.

Fixpoint lower (s : string) : string :=
  match s with
  | EmptyString => EmptyString
  | String c s' => String (lower_char c) (lower s')
  end.

(** [c in s] for a character. *)
Fixpoint mem_char (c : ascii) (s : string) : bool :=
  match s with
  | EmptyString => false
  | String d s' => Ascii.eqb c d || mem_char c s'
  end.

(** [s.isascii()] *)
Fixpoint is_ascii (s : string) : bool :=
  match s with
  | EmptyString => true
  | String c s' => (code c <? 128) && is_ascii s'
  end.

(** [bool(s)] *)
Definition truthy (s : string) : bool := negb (String.eqb s EmptyString).

(** [str(n)] for an integer. *)
Definition str_of_Z (n : Z) : string := NilEmpty.string_of_int (Z.to_int n).

End PyStr.

(** ** Percent-encoding ([urllib.parse]) *)

Module Urllib.
Import PyStr.

Definition hex_digit (n : Z) : ascii :=
  if n <? 10 then chr (48 + n) else chr (55 + n).

(** The value of a hexadecimal digit, in either case. *)
Definition hex_value (c : ascii) : option Z :=
  let n := code c in
  if (48 <=? n) && (n <=? 57) then Some (n - 48)
  else if (65 <=? n) && (n <=? 70) then Some (n - 55)
  else if (97 <=? n) && (n <=? 102) then Some (n - 87)
  else None.

Definition percent (b : Z) : string :=
  String "%" (String (hex_digit (b / 16)) (String (hex_digit (b mod 16)) EmptyString)).

(** Letters, digits and [_.-~] are never quoted. *)
Definition always_safe (c : ascii) : bool :=
  let n := code c in
  ((65 <=? n) && (n <=? 90)) || ((97 <=? n) && (n <=? 122))
  || ((48 <=? n) && (n <=? 57))
  || (n =? 95) || (n =? 46) || (n =? 45) || (n =? 126).

(** [quote(s, safe)]: a character that is neither always safe nor in
    [safe] is replaced by the escapes of its UTF-8 bytes, two bytes for a
    code point from 128 to 255.  The default of [safe] is ["/"]. *)
Fixpoint quote (s safe : string) : string :=
  match s with
  | EmptyString => EmptyString
  | String c s' =>
      let n := code c in
      (if always_safe c || mem_char c safe then String c EmptyString
       else if n <? 128 then percent n
       else percent (192 + n / 64) +:+ percent (128 + n mod 64))
      +:+ quote s' safe
  end.

(** The byte of an escape [%XX], with two hexadecimal digits in either
    case, at the head of [s]. *)
Definition escaped_byte (s : string) : option Z :=
  match s with
  | String "%" (String h (String l _)) =>
      match hex_value h, hex_value l with
      | Some x, Some y => Some (16 * x + y)
      | _, _ => None
      end
  | _ => None
  end.

(** [unquote(s)]: the escapes are bytes, decoded as UTF-8, and everything
    else is kept.  A byte below 128 is its character, and [%C2] or [%C3]
    followed by an escape from [%80] to [%BF] is the two-byte form of a
    character from 128 to 255.  This is what Python computes whenever its
    answer is a string of code points below 256.  Any other escape from
    [%80] on Python decodes to a code point from 256 on or to the
    replacement character U+FFFD, which the strings of this embedding do
    not have; there the byte is taken as its character. *)
Fixpoint unquote_go (skip : nat) (s : string) : string :=
  match s with
  | EmptyString => EmptyString
  | String c s' =>
      match skip with
      | S k => unquote_go k s'
      | O =>
          match escaped_byte s with
          | Some b =>
              match escaped_byte (drop 3 s) with
              | Some b' =>
                  if (194 <=? b) && (b <=? 195) && (128 <=? b') && (b' <=? 191)
                  then String (chr (64 * (b - 192) + (b' - 128))) (unquote_go 5 s')
                  else String (chr b) (unquote_go 2 s')
              | None => String (chr b) (unquote_go 2 s')
              end
          | None => String c (unquote_go 0 s')
          end
      end
  end.

Definition unquote (s : string) : string := unquote_go 0 s.

End Urllib.

(** ** The document tree of the HTML parser ([bs4]) *)

Module Bs4.
Import PyStr.

(** A parsed document: text, comments and elements with their attribute
    dictionary.  A [BeautifulSoup] object is the list of its top nodes. *)
#[warnings="-register-all"]
Inductive node : Type :=
  | NavigableString (s : string)
  | Comment (s : string)
  | Tag (name : string) (attrs : gmap string string) (contents : list node).

Definition soup : Type := list node.

(** [tag.get_text()], also [tag.text]: the text nodes below, in document
    order; comments are not text. *)
Fixpoint get_text (n : node) : string :=
  match n with
  | NavigableString s => s
  | Comment _ => EmptyString
  | Tag _ _ contents =>
      (fix go (l : list node) : string :=
         match l with
         | [] => EmptyString
         | c :: l' => get_text c +:+ go l'
         end) contents
  end.

Fixpoint get_text_all (l : list node) : string :=
  match l with
  | [] => EmptyString
  | c :: l' => get_text c +:+ get_text_all l'
  end.

(** [find_all]: the elements below (and including) [n] that satisfy [p], in
    document order. *)
Fixpoint find_all (p : string -> gmap string string -> bool) (n : node)
  : list node :=
  match n with
  | Tag name attrs contents =>
      (if p name attrs then [n] else [])
      ++ (fix go (l : list node) : list node :=
            match l with
            | [] => []
            | c :: l' => find_all p c ++ go l'
            end) contents
  | _ => []
  end.

Fixpoint find_all_in (p : string -> gmap string string -> bool) (l : soup)
  : list node :=
  match l with
  | [] => []
  | c :: l' => find_all p c ++ find_all_in p l'
  end.

(** [tag.find_all(...)] looks below [tag], not at [tag] itself. *)
Definition find_below (p : string -> gmap string string -> bool) (n : node)
  : list node :=
  match n with
  | Tag _ _ contents => find_all_in p contents
  | _ => []
  end.

(** The whitespace-separated values of a [class] attribute. *)
Fixpoint words_go (cur s : string) : list string :=
  match s with
  | EmptyString => if truthy cur then [cur] else []
  | String c s' =>
      if is_space c
      then (if truthy cur then [cur] else []) ++ words_go EmptyString s'
      else words_go (cur +:+ String c EmptyString) s'
  end.

Definition has_class (cls : string) (attrs : gmap string string) : bool :=
  match attrs !! "class" with
  | Some v => bool_decide (cls ∈ words_go EmptyString v)
  | None => false
  end.

(** The filter of [find_all(name, class_=cls)]. *)
Definition named_with_class (nm cls : string) : string -> gmap string string -> bool :=
  fun name attrs => String.eqb name nm && has_class cls attrs.

(** The tree after [for element in soup(names): element.decompose()]:
    every element with one of the names is gone, with all below it. *)
Fixpoint decompose (names : list string) (n : node) : list node :=
  match n with
  | Tag name attrs contents =>
      if bool_decide (name ∈ names) then []
      else [Tag name attrs
              ((fix go (l : list node) : list node :=
                  match l with
                  | [] => []
                  | c :: l' => decompose names c ++ go l'
                  end) contents)]
  | _ => [n]
  end.

Fixpoint decompose_all (names : list string) (l : soup) : soup :=
  match l with
  | [] => []
  | c :: l' => decompose names c ++ decompose_all names l'
  end.

End Bs4.

(** ** The pure parts of the tools *)

Import PyStr Urllib Bs4.

(** The removal of the DuckDuckGo redirect in [search_duckduckgo]: the body
    of [if title and link] up to [canonical_url].  The guard puts [uddg=]
    in [link], so the split has a second part. *)
Definition canonical_url (link : string) : string :=
  if contains "duckduckgo.com/l/?uddg=" link then
    let canonical_url := unquote (default EmptyString (split link "uddg=" !! 1%nat)) in
    if contains "&rut=" canonical_url
    then default EmptyString (split canonical_url "&rut=" !! 0%nat)
    else canonical_url
  else link.

(** A search result: the dictionary with the keys [title], [url] and
    [description]; the description may be [None]. *)
Record search_result : Type := SearchResult {
  title : string;
  url : string;
  description : option string
}.

(** The body of the loop over the result blocks: a block without a title or
    without a link gives no result. *)
Definition parse_result (result : node) : list search_result :=
  let title_elem := head (find_below (named_with_class "a" "result__a") result) in
  let link :=
    match title_elem with
    | Some (Tag _ attrs _) => attrs !! "href"
    | _ => None
    end in
  let title := get_text <$> title_elem in
  let snippet := head (find_below (named_with_class "a" "result__snippet") result) in
  let description := get_text <$> snippet in
  match title, link with
  | Some title, Some link =>
      if truthy title && truthy link
      then [SearchResult title (canonical_url link) description]
      else []
  | _, _ => []
  end.

(** [l[:n]] on a list. *)
Definition list_upto {A : Type} (l : list A) (n : Z) : list A :=
  firstn (Z.to_nat (clamp_index (Z.of_nat (length l)) n)) l.

Definition parse_results (page : soup) (num_results : Z) : list search_result :=
  flat_map parse_result
    (list_upto (find_all_in (named_with_class "div" "result") page) num_results).

Definition unwanted : list string := ["script"; "style"; "nav"; "header"; "footer"].

(** The inline form of a link, [f"[ {text} ]( {href} )"]. *)
Definition inline_link (text href : string) : string :=
  "[ " +:+ text +:+ " ]( " +:+ href +:+ " )".

(** The tree after the loop over [soup.find_all('a')].  The list of anchors
    is taken before the loop and is in document order, so an anchor with a
    non-empty [href] is replaced by a string built from its text as parsed,
    and the anchors below it leave the tree with it; an anchor without
    [href] stays and the anchors below it are treated in turn. *)
Fixpoint replace_anchors (n : node) : node :=
  match n with
  | Tag name attrs contents =>
      let href := attrs !! "href" in
      if String.eqb name "a" && truthy (default EmptyString href)
      then NavigableString (inline_link (get_text n) (default EmptyString href))
      else Tag name attrs
             ((fix go (l : list node) : list node :=
                 match l with
                 | [] => []
                 | c :: l' => replace_anchors c :: go l'
                 end) contents)
  | _ => n
  end.

(** The whitespace collapsing of [read_webpage]: strip the lines, split them
    on two spaces, strip the phrases, join the non-empty ones. *)
Definition collapse (text : string) : string :=
  let lines := strip <$> splitlines text in
  let chunks := flat_map (fun line => strip <$> split line "  ") lines in
  join " " (filter (fun chunk => truthy chunk = true) chunks).

(** [read_webpage] from the parsed page to the returned text. *)
Definition page_text (page : soup) : string :=
  let page := decompose_all unwanted page in
  let page := replace_anchors <$> page in
  let text := get_text_all page in
  let text := collapse text in
  slice text None (Some 300000).

(** [extract_missing_module]; on a string neither [find] nor the slice
    raises, so the handler of the source is never entered. *)
Definition extract_missing_module (error_message : string) : option string :=
  if contains "No module named" error_message then
    let start := find error_message "'" 0 + 1 in
    let end_ := find error_message "'" start in
    Some (slice error_message (Some start) (Some end_))
  else None.

(** ** Values, messages and the outside world *)

(** The values of a tool input, as the input schemas declare them: strings,
    and an integer for [num_results]. *)
Inductive value : Type :=
  | VStr (s : string)
  | VInt (n : Z).

#[global] Instance value_eq_dec : EqDecision value.
Proof. solve_decision. Defined.

(** [bool(v)] *)
Definition value_truthy (v : value) : bool :=
  match v with
  | VStr s => truthy s
  | VInt n => negb (n =? 0)
  end.

(** [str(v)], as an f-string renders the result of [dict.get]. *)
Definition str_of_value (v : option value) : string :=
  match v with
  | None => "None"
  | Some (VStr s) => s
  | Some (VInt n) => str_of_Z n
  end.

Definition str_of_option (v : option string) : string :=
  match v with
  | None => "None"
  | Some s => s
  end.

Record message : Type := Message {
  role : string;
  content : string
}.

(** An item of [response.content]: of type [text], of type [tool_use], or
    of another type, which the loop passes over. *)
Inductive content_item : Type :=
  | TextBlock (text : string)
  | ToolUse (name : string) (input : gmap string value)
  | OtherBlock (type : string).

Definition is_tool_use (item : content_item) : bool :=
  match item with
  | ToolUse _ _ => true
  | _ => false
  end.

(** Exceptions: [subprocess.CalledProcessError], which carries the captured
    [stderr], and every other [Exception]; [msg] is [str(e)]. *)
Inductive exn : Type :=
  | CalledProcessError (msg stderr : string)
  | Exception (msg : string).

Definition str_of_exn (e : exn) : string :=
  match e with
  | CalledProcessError msg _ => msg
  | Exception msg => msg
  end.

(** The calls of [execute_code] to the operating system, in the order of
    the source: the temporary directory, [python -m venv], the script file,
    the interpreter of the environment on the script, [pip install], and
    the removal of the directory when the [with] block is left. *)
Inductive os_call : Type :=
  | TemporaryDirectory
  | Venv
  | WriteScript (code : string)
  | Python
  | Pip (module : string)
  | Cleanup.

(** What is recorded of a run. *)
Inductive event : Type :=
  | ModelCall (msgs : list message) (tools : bool)
  | HttpGet (url : string)
  | OsCall (c : os_call) (r : exn + string)
  | Markdown (text : string)
  | StError (text : string).

(** The collaborators.  [messages_create msgs tools] is
    [client.messages.create] on [msgs], with the tool schema as [tools]
    when the switch is on and the empty list when it is off,
    [requests_get url] is [requests.get(url, headers).text], [html_parser]
    is [BeautifulSoup(_, 'html.parser')] and [os_run] answers an [os_call]
    with the captured standard output. *)
Class Env : Type := {
  World : Type;
  messages_create : list message -> bool -> World -> (exn + list content_item) * World;
  requests_get : string -> World -> (exn + string) * World;
  html_parser : string -> soup;
  os_run : os_call -> World -> (exn + string) * World
}.

(** [st.session_state] *)
Record session_state : Type := SessionState {
  messages : list message;
  display_messages : list message;
  last_executed_code : option value;
  api_key : option string
}.

Definition max_iterations : Z := 5.

Section Program.
Context {env : Env}.

(** The machine state: the world, the trace, the session and [logs], the
    list that [execute_code] appends to, which a handler reads as the
    failed block left it. *)
Record state : Type := State {
  world : World;
  trace : list event;
  session : session_state;
  logs : list string
}.

Inductive result (A : Type) : Type :=
  | Ok (a : A)
  | Raise (e : exn).
#[global] Arguments Ok {A} a.
#[global] Arguments Raise {A} e.

Definition M (A : Type) : Type := state -> result A * state.

Definition ret {A : Type} (a : A) : M A := fun s => (Ok a, s).

Definition bind {A B : Type} (m : M A) (k : A -> M B) : M B :=
  fun s =>
    match m s with
    | (Ok a, s') => k a s'
    | (Raise e, s') => (Raise e, s')
    end.

Definition raise {A : Type} (e : exn) : M A := fun s => (Raise e, s).

(** [try: m  except Exception as e: h e] *)
Definition try_except {A : Type} (m : M A) (h : exn -> M A) : M A :=
  fun s =>
    match m s with
    | (Ok a, s') => (Ok a, s')
    | (Raise e, s') => h e s'
    end.

(** [try: m  except subprocess.CalledProcessError as e: h e.stderr] *)
Definition try_except_called_process_error {A : Type}
  (m : M A) (h : string -> M A) : M A :=
  fun s =>
    match m s with
    | (Raise (CalledProcessError _ stderr), s') => h stderr s'
    | r => r
    end.

(** [with ... : body]: the exit runs on every way out and its own failure
    replaces the outcome of the body. *)
Definition finally {A : Type} (body : M A) (exit : M unit) : M A :=
  fun s =>
    match body s with
    | (r, s') =>
        match exit s' with
        | (Ok _, s'') => (r, s'')
        | (Raise e, s'') => (Raise e, s'')
        end
    end.

End Program.

Declare Scope py_scope.
Delimit Scope py_scope with py.
Notation "x <- m ;; k" := (bind m (fun x => k))
  (at level 20, m at level 99, k at level 200, only parsing) : py_scope.
Notation "m ;; k" := (bind m (fun _ => k))
  (at level 100, k at level 200, right associativity, only parsing) : py_scope.
Open Scope py_scope.

(** ** The tools and the orchestrator *)

Definition nl : string := String LF EmptyString.

Definition user (text : string) : message := Message "user" text.
Definition assistant (text : string) : message := Message "assistant" text.

Section Tools.
Context {env : Env}.

(** *** Primitive steps *)

Definition record (ev : event) : M unit :=
  fun s => (Ok tt, State (world s) (trace s ++ [ev]) (session s) (logs s)).

Definition outcome {A : Type} (r : exn + A) : result A :=
  match r with
  | inl e => Raise e
  | inr a => Ok a
  end.

Definition client_messages_create (msgs : list message) (tools : bool)
  : M (list content_item) :=
  fun s =>
    let (r, w) := messages_create msgs tools (world s) in
    (outcome r, State w (trace s ++ [ModelCall msgs tools]) (session s) (logs s)).

Definition http_get (url : string) : M string :=
  fun s =>
    let (r, w) := requests_get url (world s) in
    (outcome r, State w (trace s ++ [HttpGet url]) (session s) (logs s)).

Definition os (c : os_call) : M string :=
  fun s =>
    let (r, w) := os_run c (world s) in
    (outcome r, State w (trace s ++ [OsCall c r]) (session s) (logs s)).

Definition st_markdown (text : string) : M unit := record (Markdown text).
Definition st_error (text : string) : M unit := record (StError text).

Definition get_session : M session_state := fun s => (Ok (session s), s).

Definition set_session (ss : session_state) : M unit :=
  fun s => (Ok tt, State (world s) (trace s) ss (logs s)).

Definition messages_extend (more : list message) : M unit :=
  ss <- get_session ;;
  set_session (SessionState (messages ss ++ more) (display_messages ss)
                 (last_executed_code ss) (api_key ss)).

Definition display_messages_append (m : message) : M unit :=
  ss <- get_session ;;
  set_session (SessionState (messages ss) (display_messages ss ++ [m])
                 (last_executed_code ss) (api_key ss)).

Definition set_last_executed_code (code : value) : M unit :=
  ss <- get_session ;;
  set_session (SessionState (messages ss) (display_messages ss)
                 (Some code) (api_key ss)).

Definition set_api_key (k : option string) : M unit :=
  ss <- get_session ;;
  set_session (SessionState (messages ss) (display_messages ss)
                 (last_executed_code ss) k).

Definition logs_clear : M unit :=
  fun s => (Ok tt, State (world s) (trace s) (session s) []).

Definition logs_append (line : string) : M unit :=
  fun s => (Ok tt, State (world s) (trace s) (session s) (logs s ++ [line])).

Definition get_logs : M (list string) := fun s => (Ok (logs s), s).

(** *** [search_duckduckgo] *)

Definition search_duckduckgo (query : option value) (num_results : value)
  : M (list search_result) :=
  match query with
  | Some (VStr query) =>
      let encoded_query := quote query "/" in
      let url := "https://html.duckduckgo.com/html/?q=" +:+ encoded_query in
      response <- http_get url ;;
      let soup := html_parser response in
      match num_results with
      | VInt n => ret (parse_results soup n)
      | VStr _ =>
          raise (Exception
                   "slice indices must be integers or None or have an __index__ method")
      end
  | _ => raise (Exception "quote_from_bytes() expected bytes")
  end.

(** *** [read_webpage] *)

Definition read_webpage (url : option value) : M string :=
  try_except
    (response <- http_get (str_of_value url) ;;
     ret (page_text (html_parser response)))
    (fun e => ret ("Error reading webpage: " +:+ str_of_exn e)).

(** *** [execute_code] *)

(** [with open(code_file, "w") as f: f.write(code)]; writing something that
    is not a string leaves the file empty and raises. *)
Definition write_script (code : value) : M unit :=
  match code with
  | VStr code => os (WriteScript code) ;; ret tt
  | VInt _ =>
      os (WriteScript EmptyString) ;;
      raise (Exception "write() argument must be str, not int")
  end.

(** The interpreter on the script, and the two lines logged after it. *)
Definition run_script : M unit :=
  stdout <- os Python ;;
  logs_append "Python code executed successfully." ;;
  logs_append ("Execution output:" +:+ nl +:+ nl +:+ stdout).

Definition install_and_retry (missing_module : string) : M unit :=
  try_except_called_process_error
    (logs_append ("Installing missing module: " +:+ missing_module +:+ "...") ;;
     os (Pip missing_module) ;;
     logs_append ("Module " +:+ missing_module +:+ " installed successfully.") ;;
     run_script)
    (fun _ => logs_append ("Error installing package: " +:+ missing_module)).

Definition on_called_process_error (error_message : string) : M unit :=
  if contains "ModuleNotFoundError" error_message then
    match extract_missing_module error_message with
    | Some missing_module =>
        if truthy missing_module then install_and_retry missing_module
        else logs_append ("Error: Unable to extract module name from error: "
                          +:+ error_message)
    | None =>
        logs_append ("Error: Unable to extract module name from error: "
                     +:+ error_message)
    end
  else logs_append ("Error executing code: " +:+ error_message).

Definition execute_code (code : value) : M string :=
  try_except
    (os TemporaryDirectory ;;
     finally
       (logs_clear ;;
        os Venv ;;
        logs_append "Virtual environment set up." ;;
        write_script code ;;
        try_except_called_process_error run_script on_called_process_error ;;
        logs <- get_logs ;;
        ret (join nl logs))
       (os Cleanup ;; ret tt))
    (fun e => ret ("Unexpected error: " +:+ str_of_exn e)).

(** *** The dispatch of one content item

    [msgs] is the local list [messages] of the turn; every step returns it
    with what it appended. *)

Definition search_lines (idx : nat) (result : search_result) : list string :=
  [ str_of_Z (Z.of_nat idx + 1) +:+ ". **" +:+ title result +:+ "**";
    "   URL: " +:+ url result;
    "   " +:+ str_of_option (description result) ].

Definition dispatch_web_search (input : gmap string value) (msgs : list message)
  : M (list message) :=
  results <- search_duckduckgo (input !! "query")
               (default (VInt 5) (input !! "num_results")) ;;
  let search_block :=
    [ "🔍 **Search Results**"; "Query: " +:+ str_of_value (input !! "query") ]
    ++ concat (imap search_lines results) in
  let search_results_text := join nl search_block in
  st_markdown search_results_text ;;
  let msgs := msgs ++ [user search_results_text] in
  display_messages_append (assistant search_results_text) ;;
  ret msgs.

Definition dispatch_read_webpage (input : gmap string value) (msgs : list message)
  : M (list message) :=
  let url := input !! "url" in
  content <- read_webpage url ;;
  let webpage_block :=
    [ "📄 **Webpage Content**";
      "Reading: " +:+ str_of_value url;
      "Extracted content:";
      slice content None (Some 500) +:+ "..." ] in
  let webpage_text := join nl webpage_block in
  st_markdown webpage_text ;;
  let msgs := msgs ++ [user ("Content from " +:+ str_of_value url +:+ ": " +:+ content)] in
  display_messages_append (assistant webpage_text) ;;
  ret msgs.

Definition run_code (code : value) (msgs : list message) : M (list message) :=
  let code_display := "```python" +:+ nl +:+ str_of_value (Some code) +:+ nl +:+ "```" in
  st_markdown ("💻 **Code to be Executed:**" +:+ nl +:+ code_display) ;;
  display_messages_append
    (assistant ("💻 **Code to be Executed:**" +:+ nl +:+ code_display)) ;;
  execution_result <- execute_code code ;;
  let code_execution_block :=
    [ "💻 **Code Execution Result**";
      "```" +:+ nl +:+ execution_result +:+ nl +:+ "```" ] in
  let code_execution_text := join nl code_execution_block in
  st_markdown code_execution_text ;;
  let msgs := msgs ++ [user code_execution_text] in
  display_messages_append (assistant code_execution_text) ;;
  set_last_executed_code code ;;
  ret msgs.

Definition dispatch_execute_code (input : gmap string value) (msgs : list message)
  : M (list message) :=
  match input !! "code" with
  | Some code =>
      if value_truthy code then
        ss <- get_session ;;
        if decide (last_executed_code ss = Some code)
        then ret (msgs ++ [user "The specified code has already been executed."])
        else run_code code msgs
      else ret msgs
  | None => ret msgs
  end.

Definition handle_content_item (item : content_item) (msgs : list message)
  : M (list message) :=
  match item with
  | TextBlock text =>
      st_markdown text ;;
      let msgs := msgs ++ [assistant text] in
      display_messages_append (assistant text) ;;
      ret msgs
  | ToolUse name input =>
      if String.eqb name "web_search" then dispatch_web_search input msgs
      else if String.eqb name "read_webpage" then dispatch_read_webpage input msgs
      else if String.eqb name "execute_code" then dispatch_execute_code input msgs
      else ret msgs
  | OtherBlock _ => ret msgs
  end.

Fixpoint handle_content (items : list content_item) (msgs : list message)
  : M (list message) :=
  match items with
  | [] => ret msgs
  | item :: rest =>
      msgs <- handle_content_item item msgs ;;
      handle_content rest msgs
  end.

(** *** The loop

    [while iteration_count < max_iterations]; [fuel] bounds the number of
    times the condition is tested and the answer is [None] only if it runs
    out. *)
Fixpoint conversation_loop (fuel : nat) (iteration_count : Z) (msgs : list message)
  : M (option (list message)) :=
  match fuel with
  | O => ret None
  | S fuel =>
      if iteration_count <? max_iterations then
        let iteration_count := iteration_count + 1 in
        response <- client_messages_create msgs
                      (iteration_count <? max_iterations - 1) ;;
        msgs <- handle_content response msgs ;;
        if negb (existsb is_tool_use response) then ret (Some msgs)
        else conversation_loop fuel iteration_count msgs
      else ret (Some msgs)
  end.

(** The [try] block of the response section. *)
Definition turn_body : M bool :=
  ss <- get_session ;;
  let msgs := messages ss in
  r <- conversation_loop (S (Z.to_nat max_iterations)) 0 msgs ;;
  match r with
  | Some msgs =>
      ss <- get_session ;;
      messages_extend (skipn (length (messages ss)) msgs) ;;
      ret true
  | None => ret false
  end.

Definition on_exception (e : exn) : M bool :=
  st_error ("An error occurred: " +:+ str_of_exn e) ;;
  (if contains "invalid_api_key" (lower (str_of_exn e))
   then set_api_key None else ret tt) ;;
  ret true.

(** The response section, [if prompt:].  The answer is [false] only if the
    loop ran out of fuel. *)
Definition respond (prompt : string) : M bool :=
  if truthy prompt then
    messages_extend [user prompt] ;;
    display_messages_append (user prompt) ;;
    st_markdown prompt ;;
    try_except turn_body on_exception
  else ret true.

End Tools.

(** ** A scripted environment

    The world is the list of the answers still to be given by the model,
    by HTTP and by the operating system; an exhausted list raises. *)

Record script : Type := Script {
  model_script : list (exn + list content_item);
  http_script : list (exn + string);
  os_script : list (exn + string)
}.

Definition next_reply {A : Type} (l : list (exn + A)) : (exn + A) * list (exn + A) :=
  match l with
  | [] => (inl (Exception "no reply left"), [])
  | r :: l' => (r, l')
  end.

Definition scripted (parser : string -> soup) : Env := {|
  World := script;
  messages_create := fun _ _ w =>
    let (r, l) := next_reply (model_script w) in
    (r, Script l (http_script w) (os_script w));
  requests_get := fun _ w =>
    let (r, l) := next_reply (http_script w) in
    (r, Script (model_script w) l (os_script w));
  html_parser := parser;
  os_run := fun _ w =>
    let (r, l) := next_reply (os_script w) in
    (r, Script (model_script w) (http_script w) l)
|}.

Definition empty_session : session_state := SessionState [] [] None None.

Definition start (parser : string -> soup) (w : script) : @state (scripted parser) :=
  @State (scripted parser) w [] empty_session [].

(** ** Vocabulary of the statements *)

(** *** What a trace shows *)

(** The tool switches of the model calls of a trace, in order. *)
Definition model_calls (tr : list event) : list bool :=
  omap (fun ev => match ev with ModelCall _ tools => Some tools | _ => None end) tr.

(** The calls to the operating system of a trace, with their outcomes. *)
Definition os_calls (tr : list event) : list (os_call * (exn + string)) :=
  omap (fun ev => match ev with OsCall c r => Some (c, r) | _ => None end) tr.

Definition is_pip (c : os_call * (exn + string)) : bool :=
  match c with
  | (Pip _, _) => true
  | _ => false
  end.

Definition is_python (c : os_call * (exn + string)) : bool :=
  match c with
  | (Python, _) => true
  | _ => false
  end.

Definition succeeded {A : Type} (r : exn + A) : bool :=
  match r with
  | inr _ => true
  | inl _ => false
  end.

(** The tool switches of a turn that goes through all its iterations. *)
Definition tools_schedule : list bool := [true; true; true; false; false].

(** The link that the result page of DuckDuckGo carries for a destination:
    the redirect with the destination percent-encoded in the parameter
    [uddg], followed by the tracking parameter [rut]. *)
Definition redirect (destination rut : string) : string :=
  "//duckduckgo.com/l/?uddg=" +:+ quote destination "" +:+ "&rut=" +:+ rut.

(** The module name as the specification words it: between the first two
    single quotes that follow the marker. *)
Definition module_after_marker (error_message : string) : option string :=
  let at_marker := find error_message "No module named" 0 in
  if at_marker <? 0 then None
  else
    let start := find error_message "'" at_marker + 1 in
    let end_ := find error_message "'" start in
    if (start <=? 0) || (end_ <? 0) then None
    else Some (slice error_message (Some start) (Some end_)).

(** *** Text that the whitespace collapsing leaves as it is *)

Definition space : ascii := " "%char.

Definition starts_with_space (s : string) (otherwise : bool) : bool :=
  match s with
  | EmptyString => otherwise
  | String c _ => Ascii.eqb c space
  end.

(** No space of [s] is followed by a space; [next] tells whether a space
    follows [s]. *)
Fixpoint spaced (s : string) (next : bool) : bool :=
  match s with
  | EmptyString => true
  | String c s' =>
      negb (Ascii.eqb c space && starts_with_space s' next) && spaced s' next
  end.

Fixpoint no_linebreak (s : string) : bool :=
  match s with
  | EmptyString => true
  | String c s' => negb (is_linebreak c) && no_linebreak s'
  end.

(** Text that the whitespace collapsing keeps as it is when it stands
    between single spaces: not empty, no line boundary, no space at either
    end and no two spaces in a row. *)
Definition tidy (s : string) : bool :=
  negb (starts_with_space s true) && spaced s true && no_linebreak s.

(** An element that neither loop of [read_webpage] takes out of the tree
    with what is below it. *)
Definition kept (name : string) (attrs : gmap string string) : bool :=
  negb (bool_decide (name ∈ unwanted))
  && negb (String.eqb name "a" && truthy (default EmptyString (attrs !! "href"))).

(** [reaches a page]: the node [a] occurs in [page] below kept elements
    only. *)
Inductive reaches (a : node) : soup -> Prop :=
  | reaches_here (before after : list node) :
      reaches a (before ++ a :: after)
  | reaches_below (before after : list node) name attrs contents :
      kept name attrs = true ->
      reaches a contents ->
      reaches a (before ++ Tag name attrs contents :: after).

(** *** Sample data *)

(** A string of [n] copies of a character. *)
Fixpoint repeat_char (c : ascii) (n : nat) : string :=
  match n with
  | O => EmptyString
  | S n' => String c (repeat_char c n')
  end.

(** What [requests] raises for a URL without a scheme. *)
Definition missing_schema (url : string) : exn :=
  Exception ("Invalid URL '" +:+ url +:+ "': No scheme supplied. Perhaps you meant https://"
             +:+ url +:+ "?").

(** The parser of a run that parses nothing. *)
Definition no_page : string -> soup := fun _ => [].

Definition long_url : string := repeat_char "a" (Z.to_nat 300000).

Definition dquote : string := String (chr 34) EmptyString.

(** The standard error of the script [print('hi'); import foo] when the
    module [foo] is not installed. *)
Definition stderr_print_then_import : string :=
  "Traceback (most recent call last):" +:+ nl
  +:+ "  File " +:+ dquote +:+ "/tmp/tmpk3w1/script.py" +:+ dquote
  +:+ ", line 1, in <module>" +:+ nl
  +:+ "    print('hi'); import foo" +:+ nl
  +:+ "ModuleNotFoundError: No module named 'foo'" +:+ nl.

(** A destination with a parameter named [rut], and the link that wraps it. *)
Definition destination_with_rut : string := "https://example.com/?a=1&rut=2".

Definition wrapped_link_with_rut : string :=
  "//duckduckgo.com/l/?uddg=https%3A%2F%2Fexample.com%2F%3Fa%3D1%26rut%3D2&rut=abc123".

(** A page with one link whose text has two spaces in a row, and a page
    with a tidy link in a paragraph. *)
Definition page_two_spaces : soup :=
  [Tag "a" {[ "href" := "u" ]} [NavigableString "a  b"]].

(** Pages with a link that is not rendered: an empty target, a link in a
    removed element, a link inside a link. *)
Definition page_empty_href : soup :=
  [Tag "a" {[ "href" := EmptyString ]} [NavigableString "x"]].

Definition page_nav_link : soup :=
  [Tag "nav" ∅ [Tag "a" {[ "href" := "u" ]} [NavigableString "x"]]].

Definition page_nested_link : soup :=
  [Tag "a" {[ "href" := "u" ]}
     [NavigableString "x "; Tag "a" {[ "href" := "v" ]} [NavigableString "y"]]].

Definition page_docs : soup :=
  [Tag "p" ∅
     [NavigableString "see ";
      Tag "a" {[ "href" := "https://example.com/" ]} [NavigableString "the docs"];
      NavigableString " now"]].


(** The lines of the log of [execute_code] on the path of a missing module. *)
Definition line_venv : string := "Virtual environment set up.".
Definition line_installing (module : string) : string :=
  "Installing missing module: " +:+ module +:+ "...".
Definition line_installed (module : string) : string :=
  "Module " +:+ module +:+ " installed successfully.".
Definition line_success : string := "Python code executed successfully.".
Definition line_output (stdout : string) : string :=
  "Execution output:" +:+ nl +:+ nl +:+ stdout.
Definition line_install_error (module : string) : string :=
  "Error installing package: " +:+ module.

(** The message of a failed child process. *)
Definition exit_status_1 : string := "Command returned non-zero exit status 1.".

Definition stderr_no_module_foo : string :=
  "ModuleNotFoundError: No module named 'foo'".

(** *** Frames of the steps of a turn *)

(** The calls of [execute_code] up to a first run that fails. *)
Definition first_calls (code o1 o2 o3 msg stderr : string) : list event :=
  [ OsCall TemporaryDirectory (inr o1); OsCall Venv (inr o2);
    OsCall (WriteScript code) (inr o3);
    OsCall Python (inl (CalledProcessError msg stderr)) ].

(** The tool switches of the iterations after the [k]-th, up to the cap. *)
Definition schedule_from (k : Z) : list bool :=
  (fun i => i <? max_iterations - 1) <$> seqZ (k + 1) (max_iterations - k).

Section Frames.
Context {env : Env}.

(** The marker of the last executed code, when set, is a code that passed
    the test [if code:]. *)
Definition marker_truthy (s : state) : Prop :=
  forall code, last_executed_code (session s) = Some code -> value_truthy code = true.

(** What every step of a turn other than the model call and the final
    copy leaves alone: the persistent context, the credential and the model
    calls of the trace stay as they are, and the transcript and the trace
    only grow. *)
Record frame (s s' : state) : Prop := Frame {
  frame_messages : messages (session s') = messages (session s);
  frame_display :
    display_messages (session s) `prefix_of` display_messages (session s');
  frame_model_calls : model_calls (trace s') = model_calls (trace s);
  frame_api_key : api_key (session s') = api_key (session s);
  frame_marker : marker_truthy s -> marker_truthy s';
  frame_trace : trace s `prefix_of` trace s'
}.

(** What the loop does to the state, from iteration count [k] on: as a
    frame, but for the model calls, which follow the schedule. *)
Record loop_frame (k : Z) (s s' : state) : Prop := LoopFrame {
  loop_messages : messages (session s') = messages (session s);
  loop_display :
    display_messages (session s) `prefix_of` display_messages (session s');
  loop_api_key : api_key (session s') = api_key (session s);
  loop_marker : marker_truthy s -> marker_truthy s';
  loop_calls : exists flags,
    model_calls (trace s') = model_calls (trace s) ++ flags
    /\ flags `prefix_of` schedule_from k
}.

Definition framed {A : Type} (m : M A) : Prop :=
  forall s, frame s (m s).2.

(** The state in which the [try] block of [respond] starts. *)
Definition prompted (prompt : string) (s : state) : state :=
  State (world s) (trace s ++ [Markdown prompt])
    (SessionState (messages (session s) ++ [user prompt])
       (display_messages (session s) ++ [user prompt])
       (last_executed_code (session s)) (api_key (session s)))
    (logs s).

End Frames.

(** *** Scripts of sample runs *)

Definition import_foo : content_item :=
  ToolUse "execute_code" {[ "code" := VStr "import foo" ]}.

(** A model that asks for a tool in every answer. *)
Definition always_tools : script :=
  Script (replicate 7 (inr [import_foo])) []
    [ inr EmptyString; inr EmptyString; inr EmptyString;
      inl (CalledProcessError exit_status_1 stderr_no_module_foo);
      inr EmptyString; inr "done"; inr EmptyString ].

(** A model that answers with a text and a search, and a search that
    fails. *)
Definition failing_search : script :=
  Script [inr [TextBlock "Let me look."; ToolUse "web_search" {[ "query" := VStr "rocq" ]}]]
    [inl (Exception "Connection refused")] [].

(** The operating system on a first run without the module [foo]: the
    install and the second run succeed, or the install fails. *)
Definition install_succeeds : script :=
  Script [] []
    [ inr EmptyString; inr EmptyString; inr EmptyString;
      inl (CalledProcessError exit_status_1 stderr_no_module_foo);
      inr EmptyString; inr "done"; inr EmptyString ].

Definition install_fails : script :=
  Script [] []
    [ inr EmptyString; inr EmptyString; inr EmptyString;
      inl (CalledProcessError exit_status_1 stderr_no_module_foo);
      inl (CalledProcessError exit_status_1 EmptyString); inr EmptyString ].

(** ** Further vocabulary and sample runs *)

(** *** Runs of the sandbox

    The operating system on a script that prints, on one with a syntax
    error, on one whose missing module is not named in the error text, and
    on a machine where the virtual environment cannot be set up. *)

Definition plain_run : script :=
  Script [] []
    [ inr EmptyString; inr EmptyString; inr EmptyString; inr "42"; inr EmptyString ].

(** The operating system on a script that prints, on a machine where the
    temporary directory cannot be removed. *)
Definition plain_run_no_cleanup : script :=
  Script [] []
    [ inr EmptyString; inr EmptyString; inr EmptyString; inr "42";
      inl (Exception "Directory not empty") ].

Definition stderr_syntax : string := "SyntaxError: invalid syntax".

Definition syntax_error : script :=
  Script [] []
    [ inr EmptyString; inr EmptyString; inr EmptyString;
      inl (CalledProcessError exit_status_1 stderr_syntax); inr EmptyString ].

Definition stderr_unnamed : string := "ModuleNotFoundError: import of foo halted".

Definition unnamed_module : script :=
  Script [] []
    [ inr EmptyString; inr EmptyString; inr EmptyString;
      inl (CalledProcessError exit_status_1 stderr_unnamed); inr EmptyString ].

Definition no_venv : script :=
  Script [] []
    [ inr EmptyString; inl (CalledProcessError exit_status_1 EmptyString);
      inr EmptyString ].

(** *** The form of the text that the whitespace collapsing gives *)

(** No whitespace at either end, no line boundary and no two spaces in a
    row. *)
Definition collapsed (s : string) : Prop :=
  strip s = s /\ no_linebreak s = true /\ contains "  " s = false.

(** A chunk between the single spaces of the collapsed text: it starts with
    a character that is not whitespace and does not end with whitespace. *)
Definition chunk (x : string) : Prop :=
  (exists c x', x = String c x' /\ is_space c = false)
  /\ rstrip x = x /\ no_linebreak x = true /\ spaced x false = true.

(** A page with text on several lines and runs of spaces. *)
Definition page_ragged : soup :=
  [Tag "p" ∅ [NavigableString ("  one   two" +:+ nl +:+ nl +:+ " three  ")]].

(** A page with a link at its start and 300,000 characters after it. *)
Definition page_long_after_link : soup :=
  [Tag "a" {[ "href" := "u" ]} [NavigableString "x"]; NavigableString long_url].

Definition ragged_answer : script := Script [] [inr "<p>...</p>"] [].

(** *** The tree that [read_webpage] takes the text of *)

(** The elements that the first loop of [read_webpage] removes, and the
    links that the second loop replaces, as filters of [find_all]. *)
Definition is_unwanted (names : list string) : string -> gmap string string -> bool :=
  fun name _ => bool_decide (name ∈ names).

Definition is_link : string -> gmap string string -> bool :=
  fun name attrs => String.eqb name "a" && truthy (default EmptyString (attrs !! "href")).

(** The parsed page after both loops. *)
Definition cleaned (page : soup) : soup :=
  replace_anchors <$> decompose_all unwanted page.

(** *** The request of [search_duckduckgo] *)

Fixpoint all_chars (p : ascii -> bool) (s : string) : bool :=
  match s with
  | EmptyString => true
  | String c s' => p c && all_chars p s'
  end.

(** The characters of an encoded query: letters, digits, [_.-~], the slash
    and the percent sign. *)
Definition query_char (c : ascii) : bool :=
  always_safe c || Ascii.eqb c "/" || Ascii.eqb c "%".

Definition search_url (query : string) : string :=
  "https://html.duckduckgo.com/html/?q=" +:+ quote query "/".

(** A block of a result page, and a page with three blocks, the second
    without a title link. *)
Definition result_block (href text : string) : node :=
  Tag "div" {[ "class" := "result results_links" ]}
    [Tag "a" {[ "class" := "result__a"; "href" := href ]} [NavigableString text]].

Definition page_results : soup :=
  [ result_block "https://rocq-prover.org/" "Rocq";
    Tag "div" {[ "class" := "result" ]} [NavigableString "no link"];
    result_block "https://example.com/" "Example" ].

(** A page without links and without elements to remove. *)
Definition page_docs_plain : soup :=
  [Tag "p" ∅ [NavigableString "see "; Tag "b" ∅ [NavigableString "the docs"];
              NavigableString (nl +:+ "  now")]].

Definition results_answer : script := Script [] [inr "<html>...</html>"] [].

(** *** What a turn shows and what it keeps *)

(** The texts rendered with [st.markdown], the errors shown with
    [st.error] and the contexts sent to the model, in the order of the
    trace. *)
Definition markdowns (tr : list event) : list string :=
  omap (fun ev => match ev with Markdown text => Some text | _ => None end) tr.

Definition errors (tr : list event) : list string :=
  omap (fun ev => match ev with StError text => Some text | _ => None end) tr.

Definition model_contexts (tr : list event) : list (list message) :=
  omap (fun ev => match ev with ModelCall msgs _ => Some msgs | _ => None end) tr.

(** The texts of the items of type [text] of a response. *)
Definition texts (response : list content_item) : list string :=
  omap (fun item => match item with TextBlock text => Some text | _ => None end)
    response.

Section Steps.
Context {env : Env}.

(** A computation keeps a relation between the state before and after. *)
Definition keeps (R : state -> state -> Prop) {A : Type} (m : M A) : Prop :=
  forall s, R s (m s).2.

(** A computation returns only values with a property. *)
Definition returns {A : Type} (m : M A) (P : A -> Prop) : Prop :=
  forall s a, (m s).1 = Ok a -> P a.

(** What the handling of a response does to the transcript and the
    screen: the transcript grows by entries of the assistant, each rendered
    with [st.markdown] as it is appended, and nothing else is rendered; no
    model call and no error display happen. *)
Definition rendered (s s' : state) : Prop :=
  exists more new,
    display_messages (session s') = display_messages (session s) ++ more
    /\ trace s' = trace s ++ new
    /\ Forall (fun m => role m = "assistant") more
    /\ content <$> more = markdowns new
    /\ model_contexts new = []
    /\ errors new = [].

(** What the loop does, from a local context [msgs] on: as [rendered], but
    for the model calls, whose contexts extend [msgs], the first being
    [msgs]; when the loop ends with the local context [msgs'], that extends
    every context that was sent. *)
Definition loop_rendered (msgs : list message)
    (r : result (option (list message))) (s s' : state) : Prop :=
  exists more new,
    display_messages (session s') = display_messages (session s) ++ more
    /\ trace s' = trace s ++ new
    /\ Forall (fun m => role m = "assistant") more
    /\ content <$> more = markdowns new
    /\ errors new = []
    /\ Forall (fun c => msgs `prefix_of` c) (model_contexts new)
    /\ (forall c, head (model_contexts new) = Some c -> c = msgs)
    /\ (forall msgs', r = Ok (Some msgs') ->
        msgs `prefix_of` msgs'
        /\ Forall (fun c => c `prefix_of` msgs') (model_contexts new)).

End Steps.

(** *** More sample runs *)

(** A model that answers with two texts and no tool. *)
Definition plain_answer : script :=
  Script [inr [TextBlock "Hello."; TextBlock "How can I help?"]] [] [].

(** A model that refuses the key, and a session that holds one. *)
Definition bad_key : script :=
  Script [inl (Exception "Error code: 401 - Invalid_API_Key")] [] [].

Definition keyed_session : session_state :=
  SessionState [] [] None (Some "key-000").

(** A model that reads a page, then answers. *)
Definition reads_then_answers : script :=
  Script [ inr [TextBlock "Let me read."; ToolUse "read_webpage" {[ "url" := VStr "u" ]}];
           inr [TextBlock "Done."] ]
    [inl (Exception "Connection refused")] [].

(** A destination with a space and a query of its own. *)
Definition destination_with_space : string := "https://example.com/a b?x=1&y=2".

(** The text that the dispatch of [web_search] builds from the results. *)
Definition search_results_text (query : string) (results : list search_result) : string :=
  join nl ([ "🔍 **Search Results**"; "Query: " +:+ query ]
           ++ concat (imap search_lines results)).

(** * Properties *)

(** ** Strings *)

Lemma append_cons (c : ascii) (a b : string) :
  String c a +:+ b = String c (a +:+ b).
Proof. reflexivity. Qed.

Lemma append_nil_l (s : string) : EmptyString +:+ s = s.
Proof. reflexivity. Qed.

Lemma append_nil_r (s : string) : s +:+ EmptyString = s.
Proof.
  induction s as [|c s IH]; [reflexivity|].
  rewrite append_cons. f_equal. exact IH.
Qed.

Lemma append_assoc (a b c : string) : (a +:+ b) +:+ c = a +:+ (b +:+ c).
Proof.
  induction a as [|x a IH]; [reflexivity|].
  rewrite !append_cons. f_equal. exact IH.
Qed.

Lemma len_cons (c : ascii) (s : string) : len (String c s) = 1 + len s.
Proof. unfold len. simpl String.length. lia. Qed.

Lemma len_append (a b : string) : len (a +:+ b) = len a + len b.
Proof.
  induction a as [|x a IH]; [reflexivity|].
  rewrite append_cons, !len_cons, IH. lia.
Qed.

Lemma len_nonneg (s : string) : 0 <= len s.
Proof. unfold len. lia. Qed.

Lemma len_repeat_char (c : ascii) (n : nat) : len (repeat_char c n) = Z.of_nat n.
Proof.
  unfold len. induction n as [|n IH]; simpl String.length; [reflexivity|].
  rewrite !Nat2Z.inj_succ. lia.
Qed.

Lemma length_take (n : nat) (s : string) :
  String.length (take n s) = Nat.min n (String.length s).
Proof.
  revert s. induction n as [|n IH]; intros [|c s]; simpl; try reflexivity.
  now rewrite IH.
Qed.

Lemma take_all (n : nat) (s : string) :
  (String.length s <= n)%nat -> take n s = s.
Proof.
  revert s. induction n as [|n IH]; intros [|c s] H; simpl in *; try reflexivity.
  - lia.
  - rewrite IH; [reflexivity | lia].
Qed.

(** [s[:n]] is no longer than [n]. *)
Lemma len_slice_upto (s : string) (n : Z) :
  0 <= n -> len (slice s None (Some n)) <= n.
Proof.
  intros Hn. unfold slice, clamp_index.
  replace (n <? 0) with false by (symmetry; apply Z.ltb_ge; lia).
  simpl drop. unfold len. rewrite length_take. lia.
Qed.

Lemma slice_upto_short (s : string) (n : Z) :
  len s <= n -> slice s None (Some n) = s.
Proof.
  intros Hn. pose proof (len_nonneg s) as H0. unfold slice, clamp_index.
  replace (n <? 0) with false by (symmetry; apply Z.ltb_ge; lia).
  simpl drop. apply take_all. unfold len in *. lia.
Qed.

Lemma slice_upto_long (s : string) (n : Z) :
  0 <= n -> n < len s -> len (slice s None (Some n)) = n.
Proof.
  intros H0 Hn. unfold slice, clamp_index.
  replace (n <? 0) with false by (symmetry; apply Z.ltb_ge; lia).
  simpl drop. unfold len in *. rewrite length_take. lia.
Qed.

(** ** [read_webpage]: the length of the answer *)

Section ReadWebpage.
Context {env : Env}.

Lemma read_webpage_fetched (url : option value) (s : state) body w :
  requests_get (str_of_value url) (world s) = (inr body, w) ->
  read_webpage url s
  = (Ok (page_text (html_parser body)),
     State w (trace s ++ [HttpGet (str_of_value url)]) (session s) (logs s)).
Proof.
  intros H. unfold read_webpage, try_except, bind, http_get.
  rewrite H. reflexivity.
Qed.

Lemma read_webpage_failed (url : option value) (s : state) e w :
  requests_get (str_of_value url) (world s) = (inl e, w) ->
  read_webpage url s
  = (Ok ("Error reading webpage: " +:+ str_of_exn e),
     State w (trace s ++ [HttpGet (str_of_value url)]) (session s) (logs s)).
Proof.
  intros H. unfold read_webpage, try_except, bind, http_get.
  rewrite H. reflexivity.
Qed.

(** [read_webpage] never raises. *)
Lemma read_webpage_returns (url : option value) (s : state) :
  exists text, (read_webpage url s).1 = Ok text.
Proof.
  destruct (requests_get (str_of_value url) (world s)) as [[e|body] w] eqn:H.
  - rewrite (read_webpage_failed _ _ _ _ H). eauto.
  - rewrite (read_webpage_fetched _ _ _ _ H). eauto.
Qed.

Lemma len_page_text (page : soup) : len (page_text page) <= 300000.
Proof. unfold page_text. apply len_slice_upto. lia. Qed.

(** When the page is fetched, the text is cut at 300,000 characters. *)
Lemma read_webpage_fetched_bounded (url : option value) (s : state) body w text :
  requests_get (str_of_value url) (world s) = (inr body, w) ->
  (read_webpage url s).1 = Ok text ->
  len text <= 300000.
Proof.
  intros H. rewrite (read_webpage_fetched _ _ _ _ H). simpl.
  intros [= <-]. apply len_page_text.
Qed.

(** When the request raises, the answer is the message of the exception
    behind a prefix of 23 characters, whatever its length. *)
Lemma read_webpage_failed_length (url : option value) (s : state) e w text :
  requests_get (str_of_value url) (world s) = (inl e, w) ->
  (read_webpage url s).1 = Ok text ->
  len text = 23 + len (str_of_exn e).
Proof.
  intros H. rewrite (read_webpage_failed _ _ _ _ H). simpl.
  intros [= <-]. rewrite len_append. reflexivity.
Qed.

End ReadWebpage.

Lemma len_long_url : len long_url = 300000.
Proof. unfold long_url. rewrite len_repeat_char. apply Z2Nat.id. lia. Qed.

(** C6, at an input where the code leaves the bound: a URL of 300,000
    characters without a scheme.  The request raises, the handler returns
    the message with the URL in it, and the returned text is longer than
    300,000 characters. *)
Theorem read_webpage_error_exceeds_limit :
  exists text,
    (read_webpage (env := scripted no_page) (Some (VStr long_url))
       (start no_page (Script [] [inl (missing_schema long_url)] []))).1
    = Ok text
    /\ 300000 < len text.
Proof.
  eexists. split.
  - erewrite read_webpage_failed by reflexivity. reflexivity.
  - unfold missing_schema, str_of_exn.
    rewrite !len_append, len_long_url.
    pose proof (len_nonneg "?"). pose proof (len_nonneg "Error reading webpage: ").
    pose proof (len_nonneg "Invalid URL '").
    pose proof (len_nonneg "': No scheme supplied. Perhaps you meant https://").
    lia.
Qed.

(** ** The whitespace collapsing *)

Lemma string_prefix_nil (s : string) : String.prefix EmptyString s = true.
Proof. destruct s; reflexivity. Qed.

Lemma string_prefix_cons (a b : ascii) (s1 s2 : string) :
  String.prefix (String a s1) (String b s2) = Ascii.eqb a b && String.prefix s1 s2.
Proof.
  change (String.prefix (String a s1) (String b s2))
    with (if ascii_dec a b then String.prefix s1 s2 else false).
  destruct (ascii_dec a b) as [->|H].
  - now rewrite Ascii.eqb_refl.
  - apply Ascii.eqb_neq in H. now rewrite H.
Qed.

Lemma string_prefix_two_spaces (c : ascii) (s : string) :
  String.prefix "  " (String c s) = Ascii.eqb c space && starts_with_space s false.
Proof.
  rewrite string_prefix_cons. rewrite (Ascii.eqb_sym " " c). fold space. f_equal.
  destruct s as [|d s]; [reflexivity|].
  rewrite string_prefix_cons, string_prefix_nil, andb_true_r. apply Ascii.eqb_sym.
Qed.

Lemma starts_with_space_append (a b : string) (d : bool) :
  starts_with_space (a +:+ b) d = starts_with_space a (starts_with_space b d).
Proof. destruct a; reflexivity. Qed.

Lemma spaced_append (a b : string) (d : bool) :
  spaced (a +:+ b) d = spaced a (starts_with_space b d) && spaced b d.
Proof.
  induction a as [|c a IH]; [reflexivity|].
  rewrite append_cons. simpl spaced.
  rewrite starts_with_space_append, IH. now rewrite andb_assoc.
Qed.

Lemma spaced_weaken (m : string) (d : bool) :
  spaced m true = true -> spaced m d = true.
Proof.
  induction m as [|c m IH]; [reflexivity|]. simpl.
  intros [H1 H2]%andb_true_iff. rewrite (IH H2), andb_true_r.
  destruct m as [|e m]; simpl in *; [|exact H1].
  rewrite andb_true_r in H1. destruct (Ascii.eqb c space); [discriminate|reflexivity].
Qed.

Lemma no_linebreak_append (a b : string) :
  no_linebreak (a +:+ b) = no_linebreak a && no_linebreak b.
Proof.
  induction a as [|c a IH]; [reflexivity|].
  rewrite append_cons. simpl. now rewrite IH, andb_assoc.
Qed.

Lemma split_go_cons (sep : string) (skip : nat) (cur : string) c s :
  split_go sep skip cur (String c s)
  = match skip with
    | S k => split_go sep k cur s
    | O =>
        if String.prefix sep (String c s)
        then cur :: split_go sep (String.length sep - 1) EmptyString s
        else split_go sep O (cur +:+ String c EmptyString) s
    end.
Proof. reflexivity. Qed.

(** [split] walks through a stretch without two spaces in a row. *)
Lemma split_go_through (m cur rest : string) :
  spaced m (starts_with_space rest false) = true ->
  split_go "  " 0 cur (m +:+ rest) = split_go "  " 0 (cur +:+ m) rest.
Proof.
  revert cur. induction m as [|c m IH]; intros cur H.
  - now rewrite append_nil_l, append_nil_r.
  - simpl in H. apply andb_true_iff in H as [H1 H2].
    rewrite append_cons, split_go_cons.
    rewrite string_prefix_two_spaces, starts_with_space_append.
    apply negb_true_iff in H1. rewrite H1.
    rewrite (IH _ H2), append_assoc. reflexivity.
Qed.

(** The first piece that [split] gives starts with what was accumulated. *)
Lemma split_go_head (sep : string) (rest : string) :
  forall skip cur, exists b tail,
    split_go sep skip cur rest = (cur +:+ b) :: tail.
Proof.
  induction rest as [|c rest IH]; intros skip cur.
  - exists EmptyString, []. now rewrite append_nil_r.
  - rewrite split_go_cons. destruct skip as [|k].
    + destruct (String.prefix sep (String c rest)).
      * exists EmptyString. eexists. now rewrite append_nil_r.
      * destruct (IH 0%nat (cur +:+ String c EmptyString)) as (b & tail & E).
        exists (String c b), tail. now rewrite E, append_assoc.
    + apply IH.
Qed.

(** A stretch [m] that starts with a character other than the space and
    has no two spaces in a row, nor one at its end, lies within one piece
    of the split. *)
Lemma split_go_keeps (f : ascii) (m' rest : string) (before : string) :
  Ascii.eqb f space = false ->
  spaced (String f m') true = true ->
  forall skip cur,
    (skip = 0%nat \/ (skip = 1%nat /\ starts_with_space before false = true)) ->
    exists a b,
      (a +:+ String f m' +:+ b)
      ∈ split_go "  " skip cur (before +:+ String f m' +:+ rest).
Proof.
  intros Hf Hm. induction before as [|c before IH]; intros skip cur Hskip.
  - destruct Hskip as [->|[_ H]]; [|discriminate].
    rewrite append_nil_l, split_go_through by (now apply spaced_weaken).
    destruct (split_go_head "  " rest 0 (cur +:+ String f m')) as (b & tail & E).
    rewrite E. exists cur, b. rewrite append_assoc. apply list_elem_of_here.
  - rewrite append_cons, split_go_cons. destruct Hskip as [->|[-> H]].
    + rewrite string_prefix_two_spaces.
      destruct (Ascii.eqb c space && _) eqn:E.
      * apply andb_true_iff in E as [_ E].
        destruct (IH 1%nat EmptyString) as (a & b & Hin).
        { right. split; [reflexivity|].
          destruct before; [|exact E].
          rewrite append_nil_l in E. simpl in E. congruence. }
        exists a, b. apply list_elem_of_further. exact Hin.
      * apply IH. now left.
    + apply IH. now left.
Qed.

Lemma splitlines_go_cons (after_cr : bool) (cur : string) c s :
  splitlines_go after_cr cur (String c s)
  = if after_cr && Ascii.eqb c LF then splitlines_go false cur s
    else if is_linebreak c
         then cur :: splitlines_go (Ascii.eqb c CR) EmptyString s
         else splitlines_go false (cur +:+ String c EmptyString) s.
Proof. reflexivity. Qed.

Lemma linebreak_LF (c : ascii) : is_linebreak c = false -> Ascii.eqb c LF = false.
Proof.
  intros H. destruct (Ascii.eqb c LF) eqn:E; [|reflexivity].
  apply Ascii.eqb_eq in E. subst c. discriminate.
Qed.

(** [splitlines] walks through a stretch without line boundary. *)
Lemma splitlines_go_through (c : ascii) (m : string) :
  forall after_cr cur rest,
    no_linebreak (String c m) = true ->
    splitlines_go after_cr cur (String c m +:+ rest)
    = splitlines_go false (cur +:+ String c m) rest.
Proof.
  revert c. induction m as [|d m IH]; intros c after_cr cur rest H;
    simpl in H; apply andb_true_iff in H as [Hc Hm]; apply negb_true_iff in Hc;
    rewrite append_cons, splitlines_go_cons, (linebreak_LF _ Hc), andb_false_r, Hc.
  - reflexivity.
  - rewrite (IH d false _ rest Hm), append_assoc. reflexivity.
Qed.

Lemma append_cons_not_nil (a : string) c (b : string) :
  String.eqb (a +:+ String c b) EmptyString = false.
Proof. destruct a; reflexivity. Qed.

Lemma splitlines_go_head (rest : string) :
  forall cur, String.eqb cur EmptyString = false ->
    exists b tail, splitlines_go false cur rest = (cur +:+ b) :: tail.
Proof.
  induction rest as [|c rest IH]; intros cur Hcur.
  - simpl. rewrite Hcur. exists EmptyString, []. now rewrite append_nil_r.
  - rewrite splitlines_go_cons, andb_false_l. destruct (is_linebreak c).
    + exists EmptyString. eexists. now rewrite append_nil_r.
    + destruct (IH (cur +:+ String c EmptyString)) as (b & tail & E).
      { apply append_cons_not_nil. }
      exists (String c b), tail. now rewrite E, append_assoc.
Qed.

(** A stretch without line boundary lies within one line. *)
Lemma splitlines_go_keeps (c : ascii) (m rest : string) :
  no_linebreak (String c m) = true ->
  forall before after_cr cur,
    exists a b,
      (a +:+ String c m +:+ b)
      ∈ splitlines_go after_cr cur (before +:+ String c m +:+ rest).
Proof.
  intros Hm. induction before as [|d before IH]; intros after_cr cur.
  - rewrite append_nil_l, splitlines_go_through by exact Hm.
    destruct (splitlines_go_head rest (cur +:+ String c m)) as (b & tail & E).
    { apply append_cons_not_nil. }
    rewrite E. exists cur, b. rewrite append_assoc. apply list_elem_of_here.
  - rewrite append_cons, splitlines_go_cons.
    destruct (after_cr && Ascii.eqb d LF); [apply IH|].
    destruct (is_linebreak d); [|apply IH].
    destruct (IH (Ascii.eqb d CR) EmptyString) as (a & b & Hin).
    exists a, b. apply list_elem_of_further. exact Hin.
Qed.

(** *** [strip] *)

Lemma lstrip_keeps (f : ascii) (m : string) :
  is_space f = false ->
  forall before, exists a, lstrip (before +:+ String f m) = a +:+ String f m.
Proof.
  intros Hf. induction before as [|c before IH].
  - exists EmptyString. rewrite !append_nil_l. simpl. now rewrite Hf.
  - rewrite append_cons. simpl. destruct (is_space c); [apply IH|].
    exists (String c before). reflexivity.
Qed.

Lemma rstrip_cons_nonspace (l : ascii) (s : string) :
  is_space l = false -> rstrip (String l s) = String l (rstrip s).
Proof. intros H. simpl. rewrite H. destruct (rstrip s); reflexivity. Qed.

Lemma rstrip_append (a b : string) :
  String.eqb (rstrip b) EmptyString = false -> rstrip (a +:+ b) = a +:+ rstrip b.
Proof.
  intros Hb. induction a as [|c a IH]; [reflexivity|].
  rewrite !append_cons. simpl. rewrite IH.
  destruct (a +:+ rstrip b) eqn:E; [|reflexivity].
  destruct a; [|discriminate]. rewrite append_nil_l in E. now rewrite E in Hb.
Qed.

Lemma rstrip_keeps (l : ascii) (m after : string) :
  is_space l = false ->
  rstrip (m +:+ String l after) = m +:+ String l (rstrip after).
Proof.
  intros Hl. rewrite rstrip_append; rewrite rstrip_cons_nonspace by exact Hl;
    reflexivity.
Qed.

(** A stretch between two characters that are not whitespace stays whole
    when the text around it is stripped. *)
Lemma strip_keeps (f l : ascii) (mid : string) :
  is_space f = false -> is_space l = false ->
  forall before after, exists a b,
    strip (before +:+ String f (mid +:+ String l EmptyString) +:+ after)
    = a +:+ String f (mid +:+ String l EmptyString) +:+ b.
Proof.
  intros Hf Hl before after. unfold strip.
  rewrite append_cons, append_assoc, append_cons, append_nil_l.
  destruct (lstrip_keeps f (mid +:+ String l after) Hf before) as (a & ->).
  exists a, (rstrip after).
  rewrite append_cons, append_assoc, append_cons, append_nil_l.
  rewrite <- !append_cons, <- append_assoc.
  rewrite rstrip_keeps by exact Hl. rewrite append_assoc. reflexivity.
Qed.

(** *** [join], [in] and the whole of [collapse] *)

Lemma join_keeps (sep x : string) (l : list string) :
  x ∈ l -> exists a b, join sep l = a +:+ x +:+ b.
Proof.
  unfold join. induction l as [|y l IH]; intros Hin.
  - now apply elem_of_nil in Hin.
  - apply elem_of_cons in Hin as [->|Hin].
    + exists EmptyString. destruct l as [|z l].
      * exists EmptyString. simpl. now rewrite append_nil_r.
      * eexists. simpl String.concat. rewrite append_nil_l. reflexivity.
    + destruct (IH Hin) as (a & b & E). destruct l as [|z l].
      * now apply elem_of_nil in Hin.
      * exists (y +:+ sep +:+ a), b.
        change (String.concat sep (y :: z :: l))
          with (y +:+ sep +:+ String.concat sep (z :: l)).
        rewrite E, !append_assoc. reflexivity.
Qed.

Lemma string_prefix_append (m b : string) : String.prefix m (m +:+ b) = true.
Proof.
  induction m as [|c m IH]; [apply string_prefix_nil|].
  rewrite append_cons, string_prefix_cons, Ascii.eqb_refl. exact IH.
Qed.

Lemma contains_cons (sub : string) c s :
  contains sub (String c s) = String.prefix sub (String c s) || contains sub s.
Proof. reflexivity. Qed.

Lemma contains_middle (a m b : string) : contains m (a +:+ m +:+ b) = true.
Proof.
  induction a as [|c a IH].
  - rewrite append_nil_l. destruct m as [|d m]; [destruct b; reflexivity|].
    rewrite append_cons, contains_cons, <- append_cons, string_prefix_append.
    reflexivity.
  - rewrite append_cons, contains_cons, IH. apply orb_true_r.
Qed.

Lemma space_is_space (c : ascii) : is_space c = false -> Ascii.eqb c space = false.
Proof.
  intros H. destruct (Ascii.eqb c space) eqn:E; [|reflexivity].
  apply Ascii.eqb_eq in E. subst c. discriminate.
Qed.

(** A stretch that stands between two characters that are not whitespace,
    with no line boundary and no two spaces in a row, is in the collapsed
    text as it was in the text. *)
Lemma collapse_keeps (f l : ascii) (mid before after : string) :
  is_space f = false -> is_space l = false ->
  no_linebreak (String f (mid +:+ String l EmptyString)) = true ->
  spaced (String f (mid +:+ String l EmptyString)) true = true ->
  exists a b,
    collapse (before +:+ String f (mid +:+ String l EmptyString) +:+ after)
    = a +:+ String f (mid +:+ String l EmptyString) +:+ b.
Proof.
  intros Hf Hl Hnl Hsp. unfold collapse, splitlines.
  set (m := String f (mid +:+ String l EmptyString)) in *.
  destruct (splitlines_go_keeps f _ after Hnl before false EmptyString)
    as (a1 & b1 & H1). fold m in H1.
  destruct (strip_keeps f l mid Hf Hl a1 b1) as (a2 & b2 & E2). fold m in E2.
  destruct (split_go_keeps f _ b2 a2 (space_is_space _ Hf) Hsp 0%nat EmptyString)
    as (a3 & b3 & H3); [now left|]. fold m in H3.
  destruct (strip_keeps f l mid Hf Hl a3 b3) as (a4 & b4 & E4). fold m in E4.
  match goal with
  | |- exists a b, join ?sep ?chunks = _ =>
      destruct (join_keeps sep (a4 +:+ m +:+ b4) chunks) as (a & b & E)
  end.
  - apply list_elem_of_filter. split.
    + unfold truthy, m. now rewrite append_cons, append_cons_not_nil.
    + apply list_elem_of_In, in_flat_map.
      exists (strip (a1 +:+ m +:+ b1)). split.
      * apply list_elem_of_In, list_elem_of_fmap_2. exact H1.
      * apply list_elem_of_In. rewrite <- E4. apply list_elem_of_fmap_2.
        rewrite E2. exact H3.
  - exists (a +:+ a4), (b4 +:+ b). rewrite E, !append_assoc. reflexivity.
Qed.

(** ** [read_webpage]: links *)

Lemma get_text_tag name attrs contents :
  get_text (Tag name attrs contents) = get_text_all contents.
Proof. simpl. induction contents as [|c l IH]; simpl; [reflexivity | now rewrite IH]. Qed.

Lemma get_text_all_app (l1 l2 : list node) :
  get_text_all (l1 ++ l2) = get_text_all l1 +:+ get_text_all l2.
Proof.
  induction l1 as [|c l1 IH]; [reflexivity|].
  simpl. now rewrite IH, append_assoc.
Qed.

Lemma decompose_tag names name attrs contents :
  decompose names (Tag name attrs contents)
  = if bool_decide (name ∈ names) then []
    else [Tag name attrs (decompose_all names contents)].
Proof.
  simpl. destruct (bool_decide (name ∈ names)); [reflexivity|].
  do 2 f_equal. induction contents as [|c l IH]; simpl; [reflexivity | now rewrite IH].
Qed.

Lemma decompose_all_app names (l1 l2 : list node) :
  decompose_all names (l1 ++ l2) = decompose_all names l1 ++ decompose_all names l2.
Proof.
  induction l1 as [|c l1 IH]; [reflexivity|].
  simpl. now rewrite IH, app_assoc.
Qed.

Lemma replace_anchors_tag name attrs contents :
  replace_anchors (Tag name attrs contents)
  = if String.eqb name "a" && truthy (default EmptyString (attrs !! "href"))
    then NavigableString
           (inline_link (get_text_all contents) (default EmptyString (attrs !! "href")))
    else Tag name attrs (replace_anchors <$> contents).
Proof.
  unfold inline_link. rewrite <- (get_text_tag name attrs contents).
  simpl replace_anchors.
  destruct (String.eqb name "a" && _); reflexivity.
Qed.

Lemma anchor_wanted : bool_decide ("a" ∈ unwanted) = false.
Proof. vm_compute. reflexivity. Qed.

Lemma flattened_around (l1 l2 : list node) (n n' : node) :
  decompose unwanted n = [n'] ->
  get_text_all (replace_anchors <$> decompose_all unwanted (l1 ++ n :: l2))
  = get_text_all (replace_anchors <$> decompose_all unwanted l1)
    +:+ get_text (replace_anchors n')
    +:+ get_text_all (replace_anchors <$> decompose_all unwanted l2).
Proof.
  intros H. rewrite decompose_all_app.
  change (decompose_all unwanted (n :: l2))
    with (decompose unwanted n ++ decompose_all unwanted l2).
  rewrite H, fmap_app, get_text_all_app. reflexivity.
Qed.

(** The flattened text of the page has the inline form of every link that
    is reached. *)
Lemma flattened_has_link (page : soup) attrs contents href :
  reaches (Tag "a" attrs contents) page ->
  attrs !! "href" = Some href -> truthy href = true ->
  exists before after,
    get_text_all (replace_anchors <$> decompose_all unwanted page)
    = before +:+ inline_link (get_text_all (decompose_all unwanted contents)) href
      +:+ after.
Proof.
  intros Hreach Hhref Htruthy.
  induction Hreach as [l1 l2 | l1 l2 name attrs' contents' Hkept _ IH].
  - rewrite (flattened_around l1 l2 (Tag "a" attrs contents)
               (Tag "a" attrs (decompose_all unwanted contents)))
      by (rewrite decompose_tag, anchor_wanted; reflexivity).
    rewrite replace_anchors_tag, Hhref.
    change (default EmptyString (Some href)) with href.
    rewrite String.eqb_refl, Htruthy.
    exists (get_text_all (replace_anchors <$> decompose_all unwanted l1)).
    exists (get_text_all (replace_anchors <$> decompose_all unwanted l2)).
    reflexivity.
  - destruct IH as (before & after & E).
    apply andb_true_iff in Hkept as [Hwanted Hplain].
    apply negb_true_iff in Hwanted, Hplain.
    rewrite (flattened_around l1 l2 (Tag name attrs' contents')
               (Tag name attrs' (decompose_all unwanted contents')))
      by (rewrite decompose_tag, Hwanted; reflexivity).
    rewrite replace_anchors_tag, Hplain, get_text_tag, E.
    exists (get_text_all (replace_anchors <$> decompose_all unwanted l1) +:+ before).
    exists (after +:+ get_text_all (replace_anchors <$> decompose_all unwanted l2)).
    rewrite !append_assoc. reflexivity.
Qed.

Lemma inline_link_shape (text href : string) :
  inline_link text href
  = String "[" ((" " +:+ text +:+ " ]( " +:+ href +:+ " ") +:+ String ")" EmptyString).
Proof. unfold inline_link. rewrite !append_assoc. reflexivity. Qed.

Lemma tidy_parts (s : string) :
  tidy s = true ->
  (forall d, starts_with_space s d = false)
  /\ spaced s true = true /\ no_linebreak s = true /\ truthy s = true.
Proof.
  unfold tidy. intros [[H1 H2]%andb_true_iff H3]%andb_true_iff.
  apply negb_true_iff in H1. repeat split; try assumption.
  - intros d. destruct s; [discriminate | exact H1].
  - destruct s; [discriminate | reflexivity].
Qed.

Lemma inline_link_no_linebreak (text href : string) :
  tidy text = true -> tidy href = true ->
  no_linebreak (inline_link text href) = true.
Proof.
  intros (_ & _ & Ht & _)%tidy_parts (_ & _ & Hh & _)%tidy_parts.
  unfold inline_link. rewrite !no_linebreak_append, Ht, Hh. reflexivity.
Qed.

Lemma inline_link_spaced (text href : string) :
  tidy text = true -> tidy href = true ->
  spaced (inline_link text href) true = true.
Proof.
  intros (Ht1 & Ht2 & _)%tidy_parts (Hh1 & Hh2 & _)%tidy_parts.
  unfold inline_link.
  rewrite spaced_append, starts_with_space_append, Ht1.
  rewrite spaced_append, starts_with_space_append.
  change (starts_with_space " ]( " ?d) with true. rewrite Ht2.
  rewrite spaced_append, starts_with_space_append, Hh1.
  rewrite spaced_append.
  change (starts_with_space " )" true) with true. rewrite Hh2.
  reflexivity.
Qed.

(** What is cut from a text at [n] characters keeps everything that ends
    within them. *)
Lemma take_append_le (x y : string) :
  forall k, (String.length x <= k)%nat -> exists y', take k (x +:+ y) = x +:+ y'.
Proof.
  induction x as [|c x IH]; intros k H.
  - exists (take k y). now rewrite !append_nil_l.
  - destruct k as [|k]; [simpl in H; lia|].
    destruct (IH k) as [y' E]; [simpl in H; lia|].
    exists y'. rewrite !append_cons. simpl take. now rewrite E.
Qed.

Lemma slice_upto_keeps (a m b : string) (n : Z) :
  len a + len m <= n ->
  contains m (slice (a +:+ m +:+ b) None (Some n)) = true.
Proof.
  intros H. pose proof (len_nonneg a). pose proof (len_nonneg m).
  pose proof (len_nonneg b). unfold slice, clamp_index.
  replace (n <? 0) with false by (symmetry; apply Z.ltb_ge; lia).
  simpl drop. rewrite <- append_assoc.
  match goal with
  | |- context [take ?k _] => destruct (take_append_le (a +:+ m) b k) as [y' ->]
  end.
  - rewrite !len_append. pose proof (len_append a m) as E.
    unfold len in *. lia.
  - rewrite append_assoc. apply contains_middle.
Qed.

(** The collapsed text of the page, before the cut, has the inline form of
    every reached link whose text and target are tidy. *)
Lemma collapsed_has_link (page : soup) attrs contents href :
  reaches (Tag "a" attrs contents) page ->
  attrs !! "href" = Some href ->
  tidy href = true ->
  tidy (get_text_all (decompose_all unwanted contents)) = true ->
  exists before after,
    collapse (get_text_all (replace_anchors <$> decompose_all unwanted page))
    = before +:+ inline_link (get_text_all (decompose_all unwanted contents)) href
      +:+ after.
Proof.
  intros Hreach Hhref Hh Ht.
  set (text := get_text_all (decompose_all unwanted contents)) in *.
  destruct (flattened_has_link page attrs contents href Hreach Hhref)
    as (before & after & E).
  { now apply tidy_parts in Hh. }
  fold text in E. rewrite E.
  pose proof (inline_link_no_linebreak text href Ht Hh) as Hnl.
  pose proof (inline_link_spaced text href Ht Hh) as Hsp.
  rewrite inline_link_shape in Hnl, Hsp |- *.
  exact (collapse_keeps "[" ")" _ before after eq_refl eq_refl Hnl Hsp).
Qed.

(** C7, for tidy links.  When the page is fetched and its tree has an anchor
    with a non-empty [href] outside the removed elements and outside
    every other anchor with an [href], and the target and the text of the
    anchor are tidy (not empty, no line boundary, no two spaces in a row,
    no space at either end), then the collapsed text of the page contains
    [[ text ]( href )] and the returned text is its first 300,000
    characters: the returned text contains the link whenever the link ends
    within them, so whenever nothing was cut and also when the cut falls
    behind the link. *)
Theorem read_webpage_keeps_tidy_link `{env : Env}
  (url : option value) (s : state) body w attrs contents href text :
  requests_get (str_of_value url) (world s) = (inr body, w) ->
  reaches (Tag "a" attrs contents) (html_parser body) ->
  attrs !! "href" = Some href ->
  tidy href = true ->
  tidy (get_text_all (decompose_all unwanted contents)) = true ->
  (read_webpage url s).1 = Ok text ->
  exists before after,
    collapse (get_text_all
                (replace_anchors <$> decompose_all unwanted (html_parser body)))
    = before +:+ inline_link (get_text_all (decompose_all unwanted contents)) href
      +:+ after
    /\ text
       = slice (before
                +:+ inline_link (get_text_all (decompose_all unwanted contents)) href
                +:+ after) None (Some 300000)
    /\ (len before
        + len (inline_link (get_text_all (decompose_all unwanted contents)) href)
        <= 300000 ->
        contains (inline_link (get_text_all (decompose_all unwanted contents)) href)
          text = true).
Proof.
  intros Hget Hreach Hhref Hh Ht. rewrite (read_webpage_fetched _ _ _ _ Hget).
  simpl. intros [= <-].
  destruct (collapsed_has_link _ attrs contents href Hreach Hhref Hh Ht)
    as (before & after & E).
  exists before, after. split; [exact E|]. unfold page_text. rewrite E.
  split; [reflexivity|]. intros Hfit. now apply slice_upto_keeps.
Qed.

Lemma read_webpage_keeps_tidy_link_witness :
  (read_webpage (env := scripted (fun _ => page_docs))
     (Some (VStr "https://example.com/start"))
     (start (fun _ => page_docs) (Script [] [inr "<p>see <a href=..."] []))).1
  = Ok "see [ the docs ]( https://example.com/ ) now"
  /\ contains (inline_link "the docs" "https://example.com/")
       "see [ the docs ]( https://example.com/ ) now" = true.
Proof.
  split; [vm_compute; reflexivity|].
  destruct (read_webpage_keeps_tidy_link (env := scripted (fun _ => page_docs))
              (Some (VStr "https://example.com/start"))
              (start (fun _ => page_docs) (Script [] [inr "<p>see <a href=..."] []))
              "<p>see <a href=..." (Script [] [] [])
              {[ "href" := "https://example.com/" ]} [NavigableString "the docs"]
              "https://example.com/" "see [ the docs ]( https://example.com/ ) now")
    as (before & after & E & _ & H).
  - reflexivity.
  - apply (reaches_below _ [] [] "p" ∅); [reflexivity|].
    apply (reaches_here _ [NavigableString "see "] [NavigableString " now"]).
  - vm_compute. reflexivity.
  - vm_compute. reflexivity.
  - vm_compute. reflexivity.
  - vm_compute. reflexivity.
  - apply H. apply (f_equal len) in E. rewrite !len_append in E.
    pose proof (len_nonneg after) as Ha.
    match type of E with
    | ?lhs = _ => assert (L : lhs = 44) by (vm_compute; reflexivity)
    end.
    rewrite L in E. lia.
Defined.

(** C7 does not hold for every link: the page is the one anchor
    [<a href=u>a  b</a>], with two spaces in its text; the collapsing makes
    one space of them and the returned text does not contain
    [[ a  b ]( u )]. *)
Lemma read_webpage_loses_two_spaces :
  reaches (Tag "a" {[ "href" := "u" ]} [NavigableString "a  b"]) page_two_spaces
  /\ (read_webpage (env := scripted (fun _ => page_two_spaces))
        (Some (VStr "https://example.com/"))
        (start (fun _ => page_two_spaces) (Script [] [inr "<a href=u>a  b</a>"] []))).1
     = Ok "[ a b ]( u )"
  /\ contains (inline_link "a  b" "u") "[ a b ]( u )" = false.
Proof.
  split; [apply (reaches_here _ [] [])|].
  split; vm_compute; reflexivity.
Qed.

(** The other links that are not rendered: with an empty target the anchor
    stays an element and only its text is left; inside [nav] it is removed;
    inside another link it goes with the text of that link. *)
Lemma page_text_other_losses :
  page_text page_empty_href = "x"
  /\ page_text page_nav_link = EmptyString
  /\ page_text page_nested_link = "[ x y ]( u )".
Proof. repeat split; vm_compute; reflexivity. Qed.

(** ** [extract_missing_module] *)

Lemma drop_append (a b : string) : drop (String.length a) (a +:+ b) = b.
Proof. induction a as [|c a IH]; [now destruct b | exact IH]. Qed.

Lemma take_append (a b : string) : take (String.length a) (a +:+ b) = a.
Proof.
  induction a as [|c a IH]; [now destruct b|].
  rewrite append_cons. simpl. now rewrite IH.
Qed.

Lemma string_prefix_char (c d : ascii) (s : string) :
  String.prefix (String c EmptyString) (String d s) = Ascii.eqb c d.
Proof. now rewrite string_prefix_cons, string_prefix_nil, andb_true_r. Qed.

(** The scan for a character passes a stretch that does not have it. *)
Lemma find_go_char (q : ascii) (a b : string) (i : Z) :
  mem_char q a = false ->
  find_go (String q EmptyString) (a +:+ String q b) i = i + len a.
Proof.
  revert i. induction a as [|c a IH]; intros i Ha.
  - rewrite append_nil_l. unfold find_go.
    rewrite string_prefix_char, Ascii.eqb_refl. unfold len. simpl. lia.
  - simpl in Ha. apply orb_false_iff in Ha as [Hc Ha].
    rewrite append_cons. unfold find_go; fold find_go.
    rewrite string_prefix_char, Hc, (IH _ Ha), len_cons. lia.
Qed.

Lemma len_append_cons (a : string) c (b : string) :
  len (a +:+ String c b) = len a + 1 + len b.
Proof. rewrite len_append, len_cons. lia. Qed.

Lemma clamp_index_inside (n i : Z) : 0 <= i <= n -> clamp_index n i = i.
Proof.
  intros H. unfold clamp_index.
  destruct (Z.ltb_spec i 0); [lia | apply Z.min_l; lia].
Qed.

Lemma find_inside (s sub : string) (start : Z) :
  0 <= start <= len s ->
  find s sub start = find_go sub (drop (Z.to_nat start) s) start.
Proof.
  intros H. unfold find. destruct (Z.ltb_spec (len s) start); [lia|].
  cbv zeta. now rewrite clamp_index_inside.
Qed.

Lemma slice_inside (s : string) (a b : Z) :
  0 <= a <= b -> b <= len s ->
  slice s (Some a) (Some b) = take (Z.to_nat (b - a)) (drop (Z.to_nat a) s).
Proof.
  intros H1 H2. unfold slice. cbv zeta.
  now rewrite !clamp_index_inside by lia.
Qed.

(** X7.  When the first single quote of the error text opens the name of the
    module, [extract_missing_module] answers that name. *)
Lemma extract_missing_module_first_quotes (before name after : string) :
  mem_char "'" before = false ->
  mem_char "'" name = false ->
  contains "No module named" (before +:+ String "'" (name +:+ String "'" after)) = true ->
  extract_missing_module (before +:+ String "'" (name +:+ String "'" after))
  = Some name.
Proof.
  intros Hb Hn Hm. unfold extract_missing_module. rewrite Hm.
  set (s := before +:+ String "'" (name +:+ String "'" after)).
  assert (Hs : s = (before +:+ "'") +:+ (name +:+ String "'" after)).
  { unfold s. now rewrite append_assoc. }
  assert (Hlen : len s = len before + 1 + (len name + 1 + len after)).
  { unfold s. now rewrite !len_append_cons. }
  assert (Hq : Z.to_nat (len before + 1) = String.length (before +:+ "'")).
  { pose proof (len_append before "'") as E. unfold len in *. simpl in E. lia. }
  pose proof (len_nonneg before). pose proof (len_nonneg name).
  pose proof (len_nonneg after).
  assert (F1 : find s "'" 0 = len before).
  { rewrite find_inside by lia. simpl drop. unfold s.
    rewrite find_go_char by exact Hb. lia. }
  rewrite F1.
  assert (F2 : find s "'" (len before + 1) = len before + 1 + len name).
  { rewrite find_inside by lia. rewrite Hq, Hs, drop_append.
    now rewrite find_go_char by exact Hn. }
  rewrite F2, slice_inside by lia. f_equal.
  replace (Z.to_nat (len before + 1 + len name - (len before + 1)))
    with (String.length name) by (unfold len; lia).
  now rewrite Hq, Hs, drop_append, take_append.
Qed.

(** C4, at an input where the code leaves the claim: the script
    [print('hi'); import foo].  The traceback quotes the source line, so the
    first two single quotes of the error text stand before the marker; the
    code answers [hi], and the name between the first two quotes after the
    marker is [foo]. *)
Theorem extract_missing_module_quotes_before_marker :
  extract_missing_module stderr_print_then_import = Some "hi"
  /\ module_after_marker stderr_print_then_import = Some "foo".
Proof. split; vm_compute; reflexivity. Qed.

(** On the plain message the two readings agree. *)
Lemma extract_missing_module_plain_message :
  extract_missing_module "ModuleNotFoundError: No module named 'somepackage'"
  = Some "somepackage"
  /\ module_after_marker "ModuleNotFoundError: No module named 'somepackage'"
     = Some "somepackage".
Proof. split; vm_compute; reflexivity. Qed.

(** ** The redirect of DuckDuckGo *)

Lemma code_range (c : ascii) : 0 <= code c < 256.
Proof.
  unfold code. pose proof (N_ascii_bounded c). lia.
Qed.

Lemma chr_code (c : ascii) : chr (code c) = c.
Proof. unfold chr, code. rewrite N2Z.id. apply ascii_N_embedding. Qed.

Lemma hex_value_hex_digit (n : Z) : 0 <= n < 16 -> hex_value (hex_digit n) = Some n.
Proof.
  intros H.
  assert (Hall : Forall (fun k => hex_value (hex_digit k) = Some k) (seqZ 0 16)).
  { apply (bool_decide_unpack _). vm_compute. reflexivity. }
  rewrite Forall_forall in Hall. apply Hall, elem_of_seqZ. lia.
Qed.

Lemma hex_digit_not (q : ascii) (n : Z) :
  hex_value q = None -> 0 <= n < 16 -> Ascii.eqb q (hex_digit n) = false.
Proof.
  intros Hq H. destruct (Ascii.eqb q (hex_digit n)) eqn:E; [|reflexivity].
  apply Ascii.eqb_eq in E. subst q. rewrite hex_value_hex_digit in Hq by exact H.
  discriminate.
Qed.

Lemma unquote_go_cons (c : ascii) (s : string) :
  unquote_go 0 (String c s)
  = match escaped_byte (String c s) with
    | Some b =>
        match escaped_byte (drop 3 (String c s)) with
        | Some b' =>
            if (194 <=? b) && (b <=? 195) && (128 <=? b') && (b' <=? 191)
            then String (chr (64 * (b - 192) + (b' - 128))) (unquote_go 5 s)
            else String (chr b) (unquote_go 2 s)
        | None => String (chr b) (unquote_go 2 s)
        end
    | None => String c (unquote_go 0 s)
    end.
Proof. reflexivity. Qed.

Lemma escaped_byte_escape (h l : ascii) (x y : Z) (rest : string) :
  hex_value h = Some x -> hex_value l = Some y ->
  escaped_byte (String "%" (String h (String l rest))) = Some (16 * x + y).
Proof. intros Hh Hl. cbn [escaped_byte]. now rewrite Hh, Hl. Qed.

Lemma unquote_go_escape (h l : ascii) (x y : Z) (rest : string) :
  hex_value h = Some x -> hex_value l = Some y -> 16 * x + y < 194 ->
  unquote_go 0 (String "%" (String h (String l rest)))
  = String (chr (16 * x + y)) (unquote_go 0 rest).
Proof.
  intros Hh Hl Hlow.
  rewrite unquote_go_cons, (escaped_byte_escape _ _ _ _ _ Hh Hl).
  replace (194 <=? 16 * x + y) with false by (symmetry; apply Z.leb_gt; lia).
  cbn [andb]. now destruct (escaped_byte _).
Qed.

Lemma unquote_go_plain (c : ascii) (rest : string) :
  Ascii.eqb c "%" = false ->
  unquote_go 0 (String c rest) = String c (unquote_go 0 rest).
Proof.
  intros H. destruct c as [[] [] [] [] [] [] [] []]; try reflexivity; discriminate.
Qed.

Lemma quote_cons (c : ascii) (s safe : string) :
  quote (String c s) safe
  = (if always_safe c || mem_char c safe then String c EmptyString
     else if code c <? 128 then percent (code c)
     else percent (192 + code c / 64) +:+ percent (128 + code c mod 64))
    +:+ quote s safe.
Proof. reflexivity. Qed.

Lemma always_safe_not (q c : ascii) :
  always_safe q = false -> always_safe c = true -> Ascii.eqb q c = false.
Proof.
  intros Hq Hc. destruct (Ascii.eqb q c) eqn:E; [|reflexivity].
  apply Ascii.eqb_eq in E. subst. congruence.
Qed.

(** Decoding undoes the encoding of a character below 128. *)
Lemma unquote_go_quote (d : string) (rest : string) :
  is_ascii d = true ->
  unquote_go 0 (quote d EmptyString +:+ rest) = d +:+ unquote_go 0 rest.
Proof.
  induction d as [|c d IH]; intros Hd; [reflexivity|].
  simpl in Hd. apply andb_true_iff in Hd as [Hc Hd].
  rewrite quote_cons, append_assoc, append_cons. simpl mem_char.
  rewrite orb_false_r, Hc. pose proof (code_range c) as Hr.
  destruct (always_safe c) eqn:Hs.
  - rewrite append_cons, append_nil_l, unquote_go_plain, (IH Hd);
      [reflexivity|].
    rewrite Ascii.eqb_sym. now apply always_safe_not.
  - unfold percent. rewrite !append_cons, append_nil_l.
    rewrite (unquote_go_escape _ _ (code c / 16) (code c mod 16)).
    + rewrite (IH Hd). f_equal.
      rewrite <- (chr_code c) at 3. f_equal.
      pose proof (Z.div_mod (code c) 16). lia.
    + apply hex_value_hex_digit. split; [apply Z.div_pos; lia|].
      apply Z.div_lt_upper_bound; lia.
    + apply hex_value_hex_digit. apply Z.mod_pos_bound. lia.
    + apply Z.ltb_lt in Hc. pose proof (Z.div_mod (code c) 16). lia.
Qed.

Lemma unquote_go_no_escape (r : string) :
  mem_char "%" r = false -> unquote_go 0 r = r.
Proof.
  induction r as [|c r IH]; intros H; [reflexivity|].
  simpl in H. apply orb_false_iff in H as [Hc Hr].
  rewrite unquote_go_plain, (IH Hr); [reflexivity|].
  now rewrite Ascii.eqb_sym.
Qed.

Lemma mem_char_append (q : ascii) (a b : string) :
  mem_char q (a +:+ b) = mem_char q a || mem_char q b.
Proof.
  induction a as [|c a IH]; [reflexivity|].
  rewrite append_cons. simpl. now rewrite IH, orb_assoc.
Qed.

(** The encoding has only safe characters, the percent sign and
    hexadecimal digits. *)
Lemma mem_char_quote (q : ascii) (d : string) :
  always_safe q = false -> hex_value q = None -> Ascii.eqb q "%" = false ->
  mem_char q (quote d EmptyString) = false.
Proof.
  intros Hs Hh Hp. induction d as [|c d IH]; [reflexivity|].
  rewrite quote_cons, mem_char_append, IH, orb_false_r. simpl mem_char.
  rewrite orb_false_r. pose proof (code_range c) as Hr.
  assert (Hdigit : forall n, 0 <= n < 256 ->
            mem_char q (percent n) = false).
  { intros n Hn. unfold percent. simpl. rewrite Hp. simpl.
    rewrite !hex_digit_not; try reflexivity; try assumption.
    - apply Z.mod_pos_bound. lia.
    - split; [apply Z.div_pos; lia | apply Z.div_lt_upper_bound; lia]. }
  destruct (always_safe c) eqn:Hc.
  - simpl. now rewrite (always_safe_not q c Hs Hc).
  - destruct (code c <? 128) eqn:Hlow; [apply Hdigit; lia|].
    apply Z.ltb_ge in Hlow. rewrite mem_char_append, !Hdigit; [reflexivity| |].
    + pose proof (Z.mod_pos_bound (code c) 64). lia.
    + assert (code c / 64 < 4) by (apply Z.div_lt_upper_bound; lia).
      assert (0 <= code c / 64) by (apply Z.div_pos; lia). lia.
Qed.

Lemma string_prefix_eq (p s : string) :
  String.prefix p s = true -> exists rest, s = p +:+ rest.
Proof.
  revert s. induction p as [|c p IH]; intros s H.
  - exists s. reflexivity.
  - destruct s as [|d s]; [discriminate|].
    rewrite string_prefix_cons in H. apply andb_true_iff in H as [Hc Hp].
    apply Ascii.eqb_eq in Hc. subst d. destruct (IH s Hp) as (rest & ->).
    exists rest. reflexivity.
Qed.

(** Where the separator does not occur there is nothing to split. *)
Lemma split_go_no_sep (sep s : string) :
  contains sep s = false ->
  forall cur, split_go sep 0 cur s = [cur +:+ s].
Proof.
  induction s as [|c s IH]; intros H cur.
  - now rewrite append_nil_r.
  - rewrite contains_cons in H. apply orb_false_iff in H as [Hp Hc].
    rewrite split_go_cons, Hp, (IH Hc), append_assoc. reflexivity.
Qed.

(** A string that has the separator has each of its characters. *)
Lemma contains_no_char (sep : string) (q : ascii) (s : string) :
  mem_char q sep = true -> mem_char q s = false -> contains sep s = false.
Proof.
  intros Hq. induction s as [|c s IH]; intros Hs.
  - destruct sep; [discriminate | reflexivity].
  - rewrite contains_cons. simpl in Hs. apply orb_false_iff in Hs as [Hc Hs].
    rewrite (IH Hs), orb_false_r.
    destruct (String.prefix sep (String c s)) eqn:E; [|reflexivity].
    apply string_prefix_eq in E as (rest & E).
    assert (mem_char q (String c s) = true) as H.
    { rewrite E, mem_char_append, Hq. reflexivity. }
    simpl in H. rewrite Hc, Hs in H. discriminate.
Qed.

(** The value of [uddg] reaches to the end of the link when the tracking
    value has no [=]: the characters before it have none either. *)
Lemma no_uddg_after (a r : string) :
  mem_char "=" a = false -> mem_char "=" r = false ->
  contains "uddg=" (a +:+ "&rut=" +:+ r) = false.
Proof.
  intros Ha Hr. induction a as [|c a IH].
  - rewrite append_nil_l.
    change (contains "uddg=" ("&rut=" +:+ r)) with (contains "uddg=" r).
    now apply (contains_no_char _ "=").
  - simpl in Ha. apply orb_false_iff in Ha as [Hc Ha].
    rewrite append_cons, contains_cons, (IH Ha), orb_false_r.
    destruct (String.prefix "uddg=" (String c (a +:+ "&rut=" +:+ r))) eqn:E;
      [|reflexivity].
    apply string_prefix_eq in E as (rest & E). exfalso.
    destruct a as [|c1 [|c2 [|c3 [|c4 a]]]]; try discriminate E.
    injection E as -> -> -> -> -> _.
    simpl in Ha. discriminate Ha.
Qed.

Lemma split_go_skip (sep a rest cur : string) :
  split_go sep (String.length a) cur (a +:+ rest) = split_go sep 0 cur rest.
Proof.
  induction a as [|c a IH]; [now destruct rest|].
  rewrite append_cons, split_go_cons. exact IH.
Qed.

(** At an occurrence of the separator the piece ends. *)
Lemma split_go_at_sep (c : ascii) (sep' rest cur : string) :
  split_go (String c sep') 0 cur (String c sep' +:+ rest)
  = cur :: split_go (String c sep') 0 EmptyString rest.
Proof.
  rewrite append_cons, split_go_cons, <- append_cons, string_prefix_append.
  replace (String.length (String c sep') - 1)%nat with (String.length sep')
    by (simpl; lia).
  now rewrite split_go_skip.
Qed.

(** The first part of a split on [&rut=] is what stands before the first
    occurrence. *)
Lemma split_go_until_rut (d r : string) :
  contains "&rut=" d = false ->
  forall cur,
    split_go "&rut=" 0 cur (d +:+ "&rut=" +:+ r)
    = (cur +:+ d) :: split_go "&rut=" 0 EmptyString r.
Proof.
  induction d as [|c d IH]; intros Hd cur.
  - rewrite append_nil_l, append_nil_r. apply split_go_at_sep.
  - rewrite contains_cons in Hd. apply orb_false_iff in Hd as [Hp Hd].
    rewrite append_cons, split_go_cons.
    destruct (String.prefix "&rut=" (String c (d +:+ "&rut=" +:+ r))) eqn:E.
    + exfalso. apply string_prefix_eq in E as (rest & E).
      destruct d as [|c1 [|c2 [|c3 [|c4 d]]]]; try discriminate E.
      injection E as -> -> -> -> -> _.
      change (String "&" (String "r" (String "u" (String "t" (String "=" d)))))
        with ("&rut=" +:+ d) in Hp.
      rewrite string_prefix_append in Hp. discriminate.
    + rewrite (IH Hd), append_assoc. reflexivity.
Qed.

(** X16.  The round trip through the redirect, for a destination of characters
    below 128 that has no [&rut=] of its own and a tracking value without
    [=] and [%]. *)
Lemma canonical_url_redirect (destination rut : string) :
  is_ascii destination = true ->
  contains "&rut=" destination = false ->
  mem_char "=" rut = false -> mem_char "%" rut = false ->
  canonical_url (redirect destination rut) = destination.
Proof.
  intros Hascii Hd Heq Hpc. unfold canonical_url.
  set (value := quote destination EmptyString +:+ "&rut=" +:+ rut).
  assert (Hlink : redirect destination rut
                  = "//" +:+ "duckduckgo.com/l/?uddg=" +:+ value) by reflexivity.
  rewrite Hlink at 1. rewrite contains_middle.
  assert (Hsplit : split (redirect destination rut) "uddg="
                   = ["//duckduckgo.com/l/?"; value]).
  { change (split (redirect destination rut) "uddg=")
      with (split_go "uddg=" 0 "//duckduckgo.com/l/?" ("uddg=" +:+ value)).
    rewrite split_go_at_sep, split_go_no_sep; [reflexivity|].
    apply no_uddg_after; [|exact Heq].
    now apply mem_char_quote. }
  rewrite Hsplit. simpl lookup. simpl default.
  unfold value, unquote. rewrite (unquote_go_quote _ _ Hascii).
  change (unquote_go 0 ("&rut=" +:+ rut)) with ("&rut=" +:+ unquote_go 0 rut).
  rewrite (unquote_go_no_escape _ Hpc).
  rewrite contains_middle. unfold split.
  rewrite (split_go_until_rut _ _ Hd). reflexivity.
Qed.

(** A link without the marker of the redirect is returned as it is. *)
Lemma canonical_url_direct (link : string) :
  contains "duckduckgo.com/l/?uddg=" link = false -> canonical_url link = link.
Proof. intros H. unfold canonical_url. now rewrite H. Qed.

(** C8, at an input where the code leaves the claim: a destination that has
    a parameter [rut] of its own.  The code decodes the target before it
    cuts at [&rut=], so the cut falls inside the destination. *)
Theorem canonical_url_cuts_destination :
  redirect destination_with_rut "abc123" = wrapped_link_with_rut
  /\ canonical_url wrapped_link_with_rut = "https://example.com/?a=1"
  /\ canonical_url wrapped_link_with_rut <> destination_with_rut
  /\ canonical_url destination_with_rut = destination_with_rut.
Proof. repeat split; try (vm_compute; reflexivity). vm_compute. discriminate. Qed.

(** Decides the tests on the name of a tool. *)
Ltac name_tests :=
  repeat match goal with
    | |- context [String.eqb ?a ?b] =>
        let v := eval vm_compute in (String.eqb a b) in
        change (String.eqb a b) with v
    end;
  cbv iota.

(** ** The dispatch of [execute_code] *)

Section ExecuteCodeDispatch.
Context {env : Env}.

(** C9.  When the input of an [execute_code] call has no [code], or an
    empty one, the dispatch does nothing: the local context [msgs] comes
    back as it was and the state (transcript, marker of the last executed
    code, trace of the calls to the outside) is not changed. *)
Theorem execute_code_without_code_is_ignored
  (input : gmap string value) (msgs : list message) (s : state) :
  input !! "code" = None \/ input !! "code" = Some (VStr EmptyString) ->
  handle_content_item (ToolUse "execute_code" input) msgs s = (Ok msgs, s).
Proof.
  intros [H|H]; unfold handle_content_item; name_tests;
    unfold dispatch_execute_code; rewrite H; reflexivity.
Qed.

(** The guard of the dispatch: with a non-empty code, the sandbox runs if
    and only if the code differs from the marker. *)
Lemma dispatch_execute_code_guard
  (input : gmap string value) (msgs : list message) (s : state) code :
  input !! "code" = Some code -> value_truthy code = true ->
  handle_content_item (ToolUse "execute_code" input) msgs s
  = if decide (last_executed_code (session s) = Some code)
    then (Ok (msgs ++ [user "The specified code has already been executed."]), s)
    else run_code code msgs s.
Proof.
  intros H Ht. unfold handle_content_item. name_tests.
  unfold dispatch_execute_code. rewrite H, Ht.
  unfold bind, get_session. destruct (decide _); reflexivity.
Qed.

End ExecuteCodeDispatch.

Lemma execute_code_without_code_is_ignored_witness :
  handle_content_item (env := scripted no_page) (ToolUse "execute_code" ∅)
    [user "hello"] (start no_page (Script [] [] []))
  = (Ok [user "hello"], start no_page (Script [] [] [])).
Proof.
  apply (execute_code_without_code_is_ignored (env := scripted no_page)).
  left. reflexivity.
Defined.

(** ** [execute_code]: the path of a missing module *)

Section MissingModule.
Context {env : Env}.

Variables (s : state) (code : string).
Variables (o1 o2 o3 msg stderr module : string) (w1 w2 w3 w4 : World).

Hypothesis Hdir : os_run TemporaryDirectory (world s) = (inr o1, w1).
Hypothesis Hvenv : os_run Venv w1 = (inr o2, w2).
Hypothesis Hwrite : os_run (WriteScript code) w2 = (inr o3, w3).
Hypothesis Hrun : os_run Python w3 = (inl (CalledProcessError msg stderr), w4).
Hypothesis Hmarker : contains "ModuleNotFoundError" stderr = true.
Hypothesis Hextract : extract_missing_module stderr = Some module.
Hypothesis Hmodule : truthy module = true.

(** Takes the answer [H] of the oracle for the next call. *)
Ltac run_os H := rewrite H; cbn [world trace session logs outcome].

(** C3, with the retry after a successful install.  When the first run
    fails with a [ModuleNotFoundError] from which the module is extracted,
    [execute_code] returns a text and the calls after the failed run hold
    exactly one [pip install], of that module, and one further run if the
    install succeeded, none if it did not.  The text, when the directory is
    removed without error: the five lines with the install and the success
    if both succeed; the lines up to [Error installing package] if the
    install or the second run exits with an error status;
    [Unexpected error] with the message if one of them raises something
    else. *)
Theorem execute_code_installs_once :
  exists text s' new,
    execute_code (VStr code) s = (Ok text, s')
    /\ trace s' = trace s ++ first_calls code o1 o2 o3 msg stderr ++ new
    /\ List.filter is_pip (os_calls new) = [(Pip module, (os_run (Pip module) w4).1)]
    /\ length (List.filter is_python (os_calls new))
       = (if succeeded (os_run (Pip module) w4).1 then 1 else 0)%nat
    /\ (forall o5 w5 o6 w6 o7 w7,
          os_run (Pip module) w4 = (inr o5, w5) ->
          os_run Python w5 = (inr o6, w6) ->
          os_run Cleanup w6 = (inr o7, w7) ->
          text = join nl [line_venv; line_installing module; line_installed module;
                          line_success; line_output o6])
    /\ (forall m5 e5 w5 o7 w7,
          os_run (Pip module) w4 = (inl (CalledProcessError m5 e5), w5) ->
          os_run Cleanup w5 = (inr o7, w7) ->
          text = join nl [line_venv; line_installing module;
                          line_install_error module])
    /\ (forall o5 w5 m6 e6 w6 o7 w7,
          os_run (Pip module) w4 = (inr o5, w5) ->
          os_run Python w5 = (inl (CalledProcessError m6 e6), w6) ->
          os_run Cleanup w6 = (inr o7, w7) ->
          text = join nl [line_venv; line_installing module; line_installed module;
                          line_install_error module])
    /\ (forall m5 w5 o7 w7,
          os_run (Pip module) w4 = (inl (Exception m5), w5) ->
          os_run Cleanup w5 = (inr o7, w7) ->
          text = "Unexpected error: " +:+ m5)
    /\ (forall o5 w5 m6 w6 o7 w7,
          os_run (Pip module) w4 = (inr o5, w5) ->
          os_run Python w5 = (inl (Exception m6), w6) ->
          os_run Cleanup w6 = (inr o7, w7) ->
          text = "Unexpected error: " +:+ m6).
Proof.
  unfold execute_code, try_except, finally, logs_clear, write_script, run_script,
    logs_append, try_except_called_process_error, get_logs, os, bind, ret.
  run_os Hdir. run_os Hvenv. run_os Hwrite. run_os Hrun.
  unfold on_called_process_error. rewrite Hmarker, Hextract, Hmodule.
  unfold install_and_retry, try_except_called_process_error, run_script,
    logs_append, os, bind, ret.
  cbn [world trace session logs outcome].
  destruct (os_run (Pip module) w4) as [[[m5 e5|m5]|o5] w5] eqn:E5;
    cbn [world trace session logs outcome];
    [ | | destruct (os_run Python w5) as [[[m6 e6|m6]|o6] w6] eqn:E6;
          cbn [world trace session logs outcome] ];
    match goal with
    | |- context [os_run Cleanup ?w] =>
        destruct (os_run Cleanup w) as [[e7|o7] w7] eqn:E7
    end;
    cbn [world trace session logs outcome];
    (eexists; eexists; eexists; split; [reflexivity|]; split;
     [ cbn [trace]; unfold first_calls; rewrite <- ?app_assoc; reflexivity |]);
    (split; [reflexivity|]); (split; [reflexivity|]);
    repeat split; intros; simplify_eq;
    repeat match goal with
      | E : ?t = _, H : ?t = _ |- _ => rewrite E in H; simplify_eq
      end;
    reflexivity.
Qed.
End MissingModule.

Lemma execute_code_installs_once_witness :
  exists text s' new,
    execute_code (env := scripted no_page) (VStr "import foo")
      (start no_page install_succeeds) = (Ok text, s')
    /\ List.filter is_pip (os_calls new) = [(Pip "foo", inr EmptyString)]
    /\ length (List.filter is_python (os_calls new)) = 1%nat
    /\ text = join nl [line_venv; line_installing "foo"; line_installed "foo";
                       line_success; line_output "done"].
Proof.
  edestruct (execute_code_installs_once (env := scripted no_page)
               (start no_page install_succeeds) "import foo")
    as (text & s' & new & H1 & _ & H3 & H4 & H5 & _).
  - reflexivity.
  - reflexivity.
  - reflexivity.
  - reflexivity.
  - reflexivity.
  - reflexivity.
  - reflexivity.
  - exists text, s', new. split; [exact H1|]. split; [exact H3|].
    split; [exact H4|]. eapply H5; reflexivity.
Defined.

(** C3 does not hold with a retry in every case: when [pip install] exits
    with an error status the code is not run a second time; the
    interpreter is called once in all. *)
Lemma failed_install_means_no_retry :
  extract_missing_module stderr_no_module_foo = Some "foo"
  /\ (execute_code (env := scripted no_page) (VStr "import foo")
        (start no_page install_fails)).1
     = Ok (join nl [line_venv; line_installing "foo"; line_install_error "foo"])
  /\ os_calls (trace (execute_code (env := scripted no_page) (VStr "import foo")
                        (start no_page install_fails)).2)
     = [ (TemporaryDirectory, inr EmptyString); (Venv, inr EmptyString);
         (WriteScript "import foo", inr EmptyString);
         (Python, inl (CalledProcessError exit_status_1 stderr_no_module_foo));
         (Pip "foo", inl (CalledProcessError exit_status_1 EmptyString));
         (Cleanup, inr EmptyString) ].
Proof. repeat split; vm_compute; reflexivity. Qed.

(** ** Frames: what the steps of a turn leave alone *)

Section FrameFacts.
Context {env : Env}.

Lemma frame_refl (s : state) : frame s s.
Proof. split; try reflexivity. auto. Qed.

Lemma frame_trans (s1 s2 s3 : state) : frame s1 s2 -> frame s2 s3 -> frame s1 s3.
Proof.
  intros [A1 B1 C1 D1 E1 F1] [A2 B2 C2 D2 E2 F2]. split; try congruence.
  - etrans; eassumption.
  - auto.
  - etrans; eassumption.
Qed.

Lemma model_calls_app (t1 t2 : list event) :
  model_calls (t1 ++ t2) = model_calls t1 ++ model_calls t2.
Proof. unfold model_calls. apply omap_app. Qed.

Lemma framed_ret {A : Type} (a : A) : framed (ret a).
Proof. intros s. apply frame_refl. Qed.

Lemma framed_raise {A : Type} (e : exn) : framed (raise (A := A) e).
Proof. intros s. apply frame_refl. Qed.

Lemma framed_bind {A B : Type} (m : M A) (k : A -> M B) :
  framed m -> (forall a, framed (k a)) -> framed (bind m k).
Proof.
  intros Hm Hk s. unfold bind. specialize (Hm s).
  destruct (m s) as [[a|e] s1]; simpl in *; [|exact Hm].
  eapply frame_trans; [exact Hm | apply Hk].
Qed.

Lemma framed_try_except {A : Type} (m : M A) (h : exn -> M A) :
  framed m -> (forall e, framed (h e)) -> framed (try_except m h).
Proof.
  intros Hm Hh s. unfold try_except. specialize (Hm s).
  destruct (m s) as [[a|e] s1]; simpl in *; [exact Hm|].
  eapply frame_trans; [exact Hm | apply Hh].
Qed.

Lemma framed_try_except_called_process_error {A : Type} (m : M A) (h : string -> M A) :
  framed m -> (forall e, framed (h e)) ->
  framed (try_except_called_process_error m h).
Proof.
  intros Hm Hh s. unfold try_except_called_process_error. specialize (Hm s).
  destruct (m s) as [[a|[msg err|msg]] s1]; simpl in *; try exact Hm.
  eapply frame_trans; [exact Hm | apply Hh].
Qed.

Lemma framed_finally {A : Type} (body : M A) (exit : M unit) :
  framed body -> framed exit -> framed (finally body exit).
Proof.
  intros Hb He s. unfold finally. specialize (Hb s).
  destruct (body s) as [r s1]. specialize (He s1).
  destruct (exit s1) as [[[]|e] s2]; simpl in *;
    eapply frame_trans; eassumption.
Qed.

Lemma framed_record (ev : event) :
  (forall msgs tools, ev <> ModelCall msgs tools) -> framed (record ev).
Proof.
  intros Hev s. split; simpl; try reflexivity; [|auto|now apply prefix_app_r].
  rewrite model_calls_app. destruct ev; simpl; try apply app_nil_r.
  now destruct (Hev msgs tools).
Qed.

Lemma framed_http_get (url : string) : framed (http_get url).
Proof.
  intros s. unfold http_get. destruct (requests_get url (world s)) as [r w].
  split; simpl; try reflexivity; [|auto|now apply prefix_app_r].
  rewrite model_calls_app. apply app_nil_r.
Qed.

Lemma framed_os (c : os_call) : framed (os c).
Proof.
  intros s. unfold os. destruct (os_run c (world s)) as [r w].
  split; simpl; try reflexivity; [|auto|now apply prefix_app_r].
  rewrite model_calls_app. apply app_nil_r.
Qed.

Lemma framed_get_session : framed get_session.
Proof. intros s. apply frame_refl. Qed.

Lemma framed_get_logs : framed get_logs.
Proof. intros s. apply frame_refl. Qed.

Lemma framed_logs_clear : framed logs_clear.
Proof. intros s. split; try reflexivity. auto. Qed.

Lemma framed_logs_append (line : string) : framed (logs_append line).
Proof. intros s. split; try reflexivity. auto. Qed.

Lemma framed_display_messages_append (m : message) :
  framed (display_messages_append m).
Proof.
  intros s. split; simpl; try reflexivity; [now apply prefix_app_r | auto].
Qed.

Lemma framed_set_last_executed_code (code : value) :
  value_truthy code = true -> framed (set_last_executed_code code).
Proof.
  intros Hc s. split; try reflexivity. intros _ c [= <-]. exact Hc.
Qed.

Lemma framed_st_markdown (text : string) : framed (st_markdown text).
Proof. apply framed_record. discriminate. Qed.

End FrameFacts.

Create HintDb framed.
#[local] Hint Resolve framed_ret framed_raise framed_http_get framed_os
  framed_get_session framed_get_logs framed_logs_clear framed_logs_append
  framed_display_messages_append framed_set_last_executed_code
  framed_st_markdown : framed.

(** Goes through a computation built from framed steps. *)
Ltac framed_steps :=
  repeat match goal with
    | |- framed (bind _ _) => apply framed_bind; [|intros ?]
    | |- framed (try_except _ _) => apply framed_try_except; [|intros ?]
    | |- framed (try_except_called_process_error _ _) =>
        apply framed_try_except_called_process_error; [|intros ?]
    | |- framed (finally _ _) => apply framed_finally
    | |- framed (match ?x with _ => _ end) => destruct x eqn:?
    | |- framed _ => solve [auto with framed]
    end.

(** *** The tools and the dispatch *)

Section ToolFrames.
Context {env : Env}.

Lemma framed_search_duckduckgo query num_results :
  framed (search_duckduckgo query num_results).
Proof. unfold search_duckduckgo. framed_steps. Qed.

Lemma framed_read_webpage url : framed (read_webpage url).
Proof. unfold read_webpage. framed_steps. Qed.

Lemma framed_execute_code code : framed (execute_code code).
Proof.
  unfold execute_code, write_script, run_script, on_called_process_error,
    install_and_retry, run_script.
  framed_steps.
Qed.

Lemma framed_handle_content_item item msgs : framed (handle_content_item item msgs).
Proof.
  pose proof framed_search_duckduckgo. pose proof framed_read_webpage.
  pose proof framed_execute_code.
  unfold handle_content_item, dispatch_web_search, dispatch_read_webpage,
    dispatch_execute_code, run_code.
  framed_steps.
Qed.

Lemma framed_handle_content items : forall msgs, framed (handle_content items msgs).
Proof.
  induction items as [|item items IH]; intros msgs; simpl.
  - apply framed_ret.
  - apply framed_bind; [apply framed_handle_content_item | exact IH].
Qed.

End ToolFrames.

(** *** The sandbox behind the guard *)

Section Sandbox.
Context {env : Env}.




Lemma st_markdown_bind {B : Type} (text : string) (k : unit -> M B) (s : state) :
  bind (st_markdown text) k s
  = k tt (State (world s) (trace s ++ [Markdown text]) (session s) (logs s)).
Proof. reflexivity. Qed.

Lemma display_messages_append_bind {B : Type} (m : message) (k : unit -> M B)
  (s : state) :
  bind (display_messages_append m) k s
  = k tt (State (world s) (trace s)
            (SessionState (messages (session s)) (display_messages (session s) ++ [m])
               (last_executed_code (session s)) (api_key (session s)))
            (logs s)).
Proof. reflexivity. Qed.



End Sandbox.


(** ** The loop and the turn *)

Section Loop.
Context {env : Env}.

Lemma schedule_from_step (k : Z) :
  k < max_iterations ->
  schedule_from k = (k + 1 <? max_iterations - 1) :: schedule_from (k + 1).
Proof.
  unfold schedule_from, max_iterations. intros Hk.
  rewrite seqZ_cons by lia. rewrite fmap_cons.
  replace (Z.succ (k + 1)) with (k + 1 + 1) by lia.
  replace (Z.pred (5 - k)) with (5 - (k + 1)) by lia. reflexivity.
Qed.

Lemma conversation_loop_S (fuel : nat) (k : Z) (msgs : list message) :
  conversation_loop (S fuel) k msgs
  = if k <? max_iterations then
      response <- client_messages_create msgs (k + 1 <? max_iterations - 1) ;;
      msgs <- handle_content response msgs ;;
      if negb (existsb is_tool_use response) then ret (Some msgs)
      else conversation_loop fuel (k + 1) msgs
    else ret (Some msgs).
Proof. reflexivity. Qed.

Lemma frame_loop_frame k s s' : frame s s' -> loop_frame k s s'.
Proof.
  intros [A B C D E F]. split; try assumption.
  exists []. rewrite app_nil_r. split; [exact C | apply prefix_nil].
Qed.

Lemma loop_frame_after_call k s1 s2 s3 msgs :
  k < max_iterations ->
  trace s2 = trace s1 ++ [ModelCall msgs (k + 1 <? max_iterations - 1)] ->
  session s2 = session s1 ->
  frame s2 s3 ->
  forall s4, loop_frame (k + 1) s3 s4 -> loop_frame k s1 s4.
Proof.
  intros Hk Htr Hss [A B C D M _] s4 [A' B' D' M' (flags & E & P)]. split.
  - rewrite A', A, Hss. reflexivity.
  - rewrite <- Hss. etrans; eassumption.
  - rewrite D', D, Hss. reflexivity.
  - intros H. apply M', M. unfold marker_truthy. rewrite Hss. exact H.
  - exists ((k + 1 <? max_iterations - 1) :: flags). split.
    + rewrite E, C, Htr, model_calls_app. simpl. now rewrite <- app_assoc.
    + rewrite schedule_from_step by exact Hk. now apply prefix_cons.
Qed.

Lemma conversation_loop_frame (fuel : nat) :
  forall k msgs s, loop_frame k s (conversation_loop fuel k msgs s).2.
Proof.
  induction fuel as [|fuel IH]; intros k msgs s.
  - apply frame_loop_frame, frame_refl.
  - rewrite conversation_loop_S. destruct (Z.ltb_spec k max_iterations) as [Hk|Hk].
    2:{ apply frame_loop_frame, frame_refl. }
    unfold bind at 1. unfold client_messages_create.
    destruct (messages_create msgs _ (world s)) as [r w].
    set (s1 := State w _ _ _).
    assert (Hstep : forall s4, loop_frame (k + 1) s1 s4 -> loop_frame k s s4).
    { apply (loop_frame_after_call k s s1 s1 msgs Hk); try reflexivity.
      apply frame_refl. }
    destruct r as [e|response]; simpl outcome; cbv iota.
    { apply Hstep, frame_loop_frame, frame_refl. }
    unfold bind. pose proof (framed_handle_content response msgs s1) as Hc.
    destruct (handle_content response msgs s1) as [[msgs'|e] s2]; simpl in Hc.
    2:{ apply Hstep, frame_loop_frame, Hc. }
    destruct (negb (existsb is_tool_use response)).
    { apply Hstep, frame_loop_frame, Hc. }
    apply (loop_frame_after_call k s s1 s2 msgs Hk); try reflexivity; [exact Hc|].
    apply IH.
Qed.

(** With enough fuel the loop does not run out of it. *)
Lemma conversation_loop_fuel (fuel : nat) :
  forall k msgs s,
    Z.max 0 (max_iterations - k) < Z.of_nat fuel ->
    (conversation_loop fuel k msgs s).1 <> Ok None.
Proof.
  induction fuel as [|fuel IH]; intros k msgs s Hfuel; [lia|].
  rewrite conversation_loop_S. destruct (Z.ltb_spec k max_iterations) as [Hk|Hk].
  2:{ discriminate. }
  unfold bind at 1.
  destruct (client_messages_create msgs _ s) as [[response|e] s1]; [|discriminate].
  unfold bind.
  destruct (handle_content response msgs s1) as [[msgs'|e] s2]; [|discriminate].
  destruct (negb (existsb is_tool_use response)); [discriminate|].
  apply IH. lia.
Qed.

Lemma schedule_from_0 : schedule_from 0 = tools_schedule.
Proof. reflexivity. Qed.

Lemma respond_unfold (prompt : string) (s : state) :
  truthy prompt = true ->
  respond prompt s = try_except turn_body on_exception (prompted prompt s).
Proof. intros H. unfold respond. rewrite H. reflexivity. Qed.

Lemma turn_body_unfold (s : state) :
  turn_body s
  = match conversation_loop (S (Z.to_nat max_iterations)) 0 (messages (session s)) s with
    | (Ok (Some msgs), s1) =>
        (Ok true,
         State (world s1) (trace s1)
           (SessionState
              (messages (session s1)
               ++ skipn (length (messages (session s1))) msgs)
              (display_messages (session s1))
              (last_executed_code (session s1)) (api_key (session s1)))
           (logs s1))
    | (Ok None, s1) => (Ok false, s1)
    | (Raise e, s1) => (Raise e, s1)
    end.
Proof.
  unfold turn_body, bind, get_session.
  destruct (conversation_loop _ 0 _ s) as [[[msgs|]|e] s1]; reflexivity.
Qed.

Lemma on_exception_unfold (e : exn) (s : state) :
  on_exception e s
  = (Ok true,
     State (world s) (trace s ++ [StError ("An error occurred: " +:+ str_of_exn e)])
       (SessionState (messages (session s)) (display_messages (session s))
          (last_executed_code (session s))
          (if contains "invalid_api_key" (lower (str_of_exn e))
           then None else api_key (session s)))
       (logs s)).
Proof.
  unfold on_exception, st_error, record, bind.
  destruct (contains "invalid_api_key" (lower (str_of_exn e)));
    destruct s as [w tr [ms ds lc ak] lg]; reflexivity.
Qed.

(** The whole turn: the answer, and the model calls it adds to the trace. *)
Lemma respond_calls (prompt : string) (s : state) :
  (respond prompt s).1 = Ok true
  /\ exists flags,
       model_calls (trace (respond prompt s).2) = model_calls (trace s) ++ flags
       /\ flags `prefix_of` tools_schedule.
Proof.
  destruct (truthy prompt) eqn:Hp.
  2:{ unfold respond. rewrite Hp. split; [reflexivity|]. exists [].
      rewrite app_nil_r. split; [reflexivity | apply prefix_nil]. }
  rewrite (respond_unfold prompt s Hp).
  unfold try_except. rewrite turn_body_unfold.
  pose proof (conversation_loop_frame (S (Z.to_nat max_iterations)) 0
                (messages (session (prompted prompt s))) (prompted prompt s)) as HF.
  pose proof (conversation_loop_fuel (S (Z.to_nat max_iterations)) 0
                (messages (session (prompted prompt s))) (prompted prompt s)) as Hfuel.
  destruct (conversation_loop _ 0 _ (prompted prompt s)) as [[[msgs|]|e] s1];
    simpl in HF, Hfuel; destruct HF as [_ _ _ _ (flags & E & P)].
  - split; [reflexivity|]. exists flags. simpl. rewrite E. split; [|exact P].
    unfold prompted. simpl. rewrite model_calls_app. simpl. now rewrite app_nil_r.
  - exfalso. apply Hfuel; [|reflexivity]. unfold max_iterations. simpl. lia.
  - rewrite on_exception_unfold. split; [reflexivity|]. exists flags. simpl.
    rewrite model_calls_app, E. simpl. rewrite app_nil_r. split; [|exact P].
    unfold prompted. simpl. rewrite model_calls_app. simpl. now rewrite app_nil_r.
Qed.

(** C1.  A turn issues at most [max_iterations] model calls, whatever the
    model answers, and it ends: the loop does not run out of the fuel that
    bounds its unfolding. *)
Theorem respond_model_calls_bounded (prompt : string) (s : state) :
  (respond prompt s).1 = Ok true
  /\ exists flags,
       model_calls (trace (respond prompt s).2) = model_calls (trace s) ++ flags
       /\ Z.of_nat (length flags) <= max_iterations.
Proof.
  destruct (respond_calls prompt s) as (Hok & flags & E & P).
  split; [exact Hok|]. exists flags. split; [exact E|].
  apply prefix_length in P. simpl in P. unfold max_iterations. lia.
Qed.

(** C2.  The [i]-th model call of a turn, counted from 1, is made with the
    tool schema exactly when [i < max_iterations - 1]: the calls 1, 2 and 3
    have it, the calls 4 and 5 do not. *)
Theorem respond_tools_schedule (prompt : string) (s : state) :
  exists flags,
    model_calls (trace (respond prompt s).2) = model_calls (trace s) ++ flags
    /\ flags `prefix_of` [true; true; true; false; false]
    /\ forall (i : nat) (tools : bool),
         flags !! i = Some tools ->
         tools = (Z.of_nat i + 1 <? max_iterations - 1).
Proof.
  destruct (respond_calls prompt s) as (_ & flags & E & P).
  exists flags. split; [exact E|]. split; [exact P|].
  intros i tools Hi. apply (prefix_lookup_Some _ _ _ _ Hi) in P.
  do 5 (destruct i as [|i]; [injection P as <-; reflexivity|]).
  discriminate.
Qed.

(** C10.  When the [try] block of a turn raises, the persistent context is
    the one before the turn with the prompt appended; the transcript is the
    one at the moment of the exception, with everything appended to it
    during the turn. *)
Theorem failed_turn_keeps_context (prompt : string) (s : state) e s1 :
  truthy prompt = true ->
  turn_body (prompted prompt s) = (Raise e, s1) ->
  messages (session (respond prompt s).2) = messages (session s) ++ [user prompt]
  /\ display_messages (session (respond prompt s).2) = display_messages (session s1)
  /\ (display_messages (session s) ++ [user prompt])
       `prefix_of` display_messages (session (respond prompt s).2).
Proof.
  intros Hp Hraise. rewrite (respond_unfold prompt s Hp).
  unfold try_except. rewrite Hraise, on_exception_unfold. simpl.
  rewrite turn_body_unfold in Hraise.
  pose proof (conversation_loop_frame (S (Z.to_nat max_iterations)) 0
                (messages (session (prompted prompt s))) (prompted prompt s)) as HF.
  destruct (conversation_loop _ 0 _ (prompted prompt s)) as [[[msgs|]|e'] s1'];
    try discriminate.
  injection Hraise as -> ->. destruct HF as [A B _ _ _].
  repeat split; [exact A | exact B].
Qed.

Lemma marker_truthy_unset (s : state) :
  last_executed_code (session s) = None -> marker_truthy s.
Proof. intros H code. rewrite H. discriminate. Qed.

(** X25.  The marker is a code that was executed, in every state that a turn
    leaves. *)
Lemma respond_keeps_marker_truthy (prompt : string) (s : state) :
  marker_truthy s -> marker_truthy (respond prompt s).2.
Proof.
  intros Hs. destruct (truthy prompt) eqn:Hp.
  2:{ unfold respond. now rewrite Hp. }
  rewrite (respond_unfold prompt s Hp). unfold try_except.
  rewrite turn_body_unfold.
  pose proof (conversation_loop_frame (S (Z.to_nat max_iterations)) 0
                (messages (session (prompted prompt s))) (prompted prompt s)) as HF.
  destruct (conversation_loop _ 0 _ (prompted prompt s)) as [[[msgs|]|e] s1];
    simpl in HF; destruct HF as [_ _ _ Hm _]; specialize (Hm Hs);
    try rewrite on_exception_unfold; exact Hm.
Qed.

End Loop.

(** A model that asks for a tool in every answer gets five calls. *)
Lemma always_tools_five_calls :
  model_calls (trace (respond (env := scripted no_page) "hello"
                        (start no_page always_tools)).2)
  = [true; true; true; false; false].
Proof. vm_compute. reflexivity. Qed.

Lemma failed_turn_keeps_context_witness :
  messages (session (respond (env := scripted no_page) "hello"
                       (start no_page failing_search)).2)
  = [user "hello"]
  /\ display_messages (session (respond (env := scripted no_page) "hello"
                                 (start no_page failing_search)).2)
     = [user "hello"; assistant "Let me look."].
Proof.
  edestruct (failed_turn_keeps_context (env := scripted no_page) "hello"
               (start no_page failing_search)) as (A & B & _).
  - reflexivity.
  - vm_compute. reflexivity.
  - split; [exact A | exact B].
Defined.

(** * Further properties of the tools and of the turn *)

(** Follows [execute_code] through every answer of the operating system. *)
Ltac os_cases :=
  repeat match goal with
    | |- context [os_run ?c ?w] =>
        let E := fresh "E" in
        destruct (os_run c w) as [[[? ?|?]|?] ?] eqn:E;
        cbn [world trace session logs outcome]
    end.

Ltac execute_code_unfold :=
  unfold execute_code, try_except, finally, logs_clear, write_script, run_script,
    on_called_process_error, install_and_retry, run_script,
    logs_append, try_except_called_process_error, get_logs, os, bind, ret, raise;
  cbn [world trace session logs outcome].

Section ExecuteCodeShape.
Context {env : Env}.

Lemma execute_code_shape (code : value) (s : state) :
  exists text new,
    execute_code code s
    = (Ok text, State (world (execute_code code s).2) (trace s ++ new) (session s)
                  (logs (execute_code code s).2))
    /\ (forall e w, os_run TemporaryDirectory (world s) = (inl e, w) ->
        os_calls new = [(TemporaryDirectory, inl e)]
        /\ text = "Unexpected error: " +:+ str_of_exn e)
    /\ (forall o w, os_run TemporaryDirectory (world s) = (inr o, w) ->
        head (os_calls new) = Some (TemporaryDirectory, inr o)
        /\ exists r, last (os_calls new) = Some (Cleanup, r))
    /\ (length (List.filter is_pip (os_calls new)) <= 1)%nat
    /\ (length (List.filter is_python (os_calls new)) <= 2)%nat.
Proof.
  execute_code_unfold.
  destruct code as [code|n]; cbn [world trace session logs outcome].
  - os_cases.
    all: try (destruct (contains "ModuleNotFoundError" _) eqn:Hc;
              [destruct (extract_missing_module _) as [m|] eqn:Hx;
               [destruct (truthy m) eqn:Hm|]|]);
      cbn [world trace session logs outcome]; os_cases.
    all: rewrite <- ?app_assoc; eexists; eexists; (split; [reflexivity|]);
      cbn; repeat split; intros; simplify_eq; try lia; eauto.
  - os_cases.
    all: rewrite <- ?app_assoc; eexists; eexists; (split; [reflexivity|]);
      cbn; repeat split; intros; simplify_eq; try lia; eauto.
Qed.

(** X1.  [execute_code] never raises and leaves the session alone; when the
    temporary directory could not be made nothing else is attempted, and
    when it was made its removal is the last call, on every way out. *)
Theorem execute_code_returns_and_cleans_up (code : value) (s : state) :
  exists text new,
    (execute_code code s).1 = Ok text
    /\ trace (execute_code code s).2 = trace s ++ new
    /\ session (execute_code code s).2 = session s
    /\ (forall e w, os_run TemporaryDirectory (world s) = (inl e, w) ->
        os_calls new = [(TemporaryDirectory, inl e)]
        /\ text = "Unexpected error: " +:+ str_of_exn e)
    /\ (forall o w, os_run TemporaryDirectory (world s) = (inr o, w) ->
        head (os_calls new) = Some (TemporaryDirectory, inr o)
        /\ exists r, last (os_calls new) = Some (Cleanup, r)).
Proof.
  destruct (execute_code_shape code s) as (text & new & E & H1 & H2 & _).
  exists text, new. rewrite E. simpl. split_and!; try reflexivity; assumption.
Qed.

(** X2.  Whatever the operating system answers, one call of [execute_code] runs
    [pip install] at most once and the interpreter at most twice. *)
Theorem execute_code_bounded_attempts (code : value) (s : state) :
  exists new,
    trace (execute_code code s).2 = trace s ++ new
    /\ (length (List.filter is_pip (os_calls new)) <= 1)%nat
    /\ (length (List.filter is_python (os_calls new)) <= 2)%nat.
Proof.
  destruct (execute_code_shape code s) as (text & new & E & _ & _ & H3 & H4).
  exists new. rewrite E. simpl. split_and!; try reflexivity; assumption.
Qed.

End ExecuteCodeShape.

Section FirstRun.
Context {env : Env}.

Variables (s : state) (code : string).
Variables (o1 o2 o3 : string) (w1 w2 w3 : World).

Hypothesis Hdir : os_run TemporaryDirectory (world s) = (inr o1, w1).
Hypothesis Hvenv : os_run Venv w1 = (inr o2, w2).
Hypothesis Hwrite : os_run (WriteScript code) w2 = (inr o3, w3).

Ltac first_steps :=
  execute_code_unfold; rewrite Hdir; cbn [world trace session logs outcome];
  rewrite Hvenv; cbn [world trace session logs outcome];
  rewrite Hwrite; cbn [world trace session logs outcome].

Ltac last_steps :=
  cbn [world trace session logs outcome]; rewrite <- ?app_assoc; reflexivity.

(** X3.  A script that runs without error: the calls are the five of a plain
    run, without [pip], and the log has the set-up line, the success line
    and the captured output; an exception of the removal of the temporary
    directory takes the place of the log. *)
Theorem execute_code_success stdout w4 :
  os_run Python w3 = (inr stdout, w4) ->
  (execute_code (VStr code) s).1
  = Ok (match (os_run Cleanup w4).1 with
        | inr _ => join nl [line_venv; line_success; line_output stdout]
        | inl e => "Unexpected error: " +:+ str_of_exn e
        end)
  /\ trace (execute_code (VStr code) s).2
     = trace s ++ [ OsCall TemporaryDirectory (inr o1); OsCall Venv (inr o2);
                    OsCall (WriteScript code) (inr o3); OsCall Python (inr stdout);
                    OsCall Cleanup (os_run Cleanup w4).1 ].
Proof.
  intros Hrun. first_steps. rewrite Hrun.
  cbn [world trace session logs outcome].
  destruct (os_run Cleanup w4) as [[e|o5] w5]; split; last_steps.
Qed.

(** X4.  A script that fails with something else than a missing module: the
    error text is logged and nothing is installed or run again; an
    exception of the removal of the temporary directory takes the place of
    the log. *)
Theorem execute_code_other_error msg stderr w4 :
  os_run Python w3 = (inl (CalledProcessError msg stderr), w4) ->
  contains "ModuleNotFoundError" stderr = false ->
  (execute_code (VStr code) s).1
  = Ok (match (os_run Cleanup w4).1 with
        | inr _ => join nl [line_venv; "Error executing code: " +:+ stderr]
        | inl e => "Unexpected error: " +:+ str_of_exn e
        end)
  /\ trace (execute_code (VStr code) s).2
     = trace s ++ first_calls code o1 o2 o3 msg stderr
       ++ [OsCall Cleanup (os_run Cleanup w4).1].
Proof.
  intros Hrun Hmarker. first_steps. rewrite Hrun.
  cbn [world trace session logs outcome]. rewrite Hmarker.
  cbn [world trace session logs outcome].
  destruct (os_run Cleanup w4) as [[e|o5] w5]; split; last_steps.
Qed.

(** X5.  A missing module whose name cannot be extracted (no marker in the
    error text, or an empty name): the failure of the extraction is
    logged with the error text and nothing is installed or run again; an
    exception of the removal of the temporary directory takes the place of
    the log. *)
Theorem execute_code_extraction_failure msg stderr w4 :
  os_run Python w3 = (inl (CalledProcessError msg stderr), w4) ->
  contains "ModuleNotFoundError" stderr = true ->
  extract_missing_module stderr = None
  \/ extract_missing_module stderr = Some EmptyString ->
  (execute_code (VStr code) s).1
  = Ok (match (os_run Cleanup w4).1 with
        | inr _ =>
            join nl [line_venv;
                     "Error: Unable to extract module name from error: " +:+ stderr]
        | inl e => "Unexpected error: " +:+ str_of_exn e
        end)
  /\ trace (execute_code (VStr code) s).2
     = trace s ++ first_calls code o1 o2 o3 msg stderr
       ++ [OsCall Cleanup (os_run Cleanup w4).1].
Proof.
  intros Hrun Hmarker Hx. first_steps. rewrite Hrun.
  cbn [world trace session logs outcome]. rewrite Hmarker.
  destruct Hx as [-> | ->]; cbn [truthy String.eqb negb];
    cbn [world trace session logs outcome];
    destruct (os_run Cleanup w4) as [[e|o5] w5]; split; last_steps.
Qed.

End FirstRun.

Section SetUpFailure.
Context {env : Env}.

(** X6.  When the virtual environment cannot be set up, the script is neither
    written nor run: the temporary directory is removed at once, and the
    failure is reported as an unexpected error, that of the set-up or,
    when the removal raises too, that of the removal. *)
Theorem execute_code_venv_failure (code : value) (s : state) o1 w1 e w2 :
  os_run TemporaryDirectory (world s) = (inr o1, w1) ->
  os_run Venv w1 = (inl e, w2) ->
  (execute_code code s).1
  = Ok ("Unexpected error: "
        +:+ match (os_run Cleanup w2).1 with
            | inr _ => str_of_exn e
            | inl e' => str_of_exn e'
            end)
  /\ trace (execute_code code s).2
     = trace s ++ [ OsCall TemporaryDirectory (inr o1); OsCall Venv (inl e);
                    OsCall Cleanup (os_run Cleanup w2).1 ].
Proof.
  intros Hdir Hvenv. execute_code_unfold.
  rewrite Hdir. cbn [world trace session logs outcome].
  rewrite Hvenv. destruct e; cbn [world trace session logs outcome];
    destruct (os_run Cleanup w2) as [[e'|o3] w3];
    cbn [world trace session logs outcome];
    rewrite <- ?app_assoc; split; reflexivity.
Qed.

End SetUpFailure.

Lemma execute_code_success_witness :
  (execute_code (env := scripted no_page) (VStr "print(42)") (start no_page plain_run)).1
  = Ok (join nl [line_venv; line_success; line_output "42"])
  /\ os_calls (trace (execute_code (env := scripted no_page) (VStr "print(42)")
                        (start no_page plain_run)).2)
     = [ (TemporaryDirectory, inr EmptyString); (Venv, inr EmptyString);
         (WriteScript "print(42)", inr EmptyString); (Python, inr "42");
         (Cleanup, inr EmptyString) ].
Proof.
  edestruct (execute_code_success (env := scripted no_page)
               (start no_page plain_run) "print(42)") as [H1 H2].
  - reflexivity.
  - reflexivity.
  - reflexivity.
  - reflexivity.
  - split; [exact H1|]. rewrite H2. reflexivity.
Defined.

(** The same run on a machine where the temporary directory cannot be
    removed: the output of the script is lost. *)
Lemma execute_code_success_cleanup_fails :
  (execute_code (env := scripted no_page) (VStr "print(42)")
     (start no_page plain_run_no_cleanup)).1
  = Ok "Unexpected error: Directory not empty".
Proof. vm_compute. reflexivity. Qed.

Lemma execute_code_other_error_witness :
  (execute_code (env := scripted no_page) (VStr "print(") (start no_page syntax_error)).1
  = Ok (join nl [line_venv; "Error executing code: " +:+ stderr_syntax])
  /\ List.filter is_pip
       (os_calls (trace (execute_code (env := scripted no_page) (VStr "print(")
                           (start no_page syntax_error)).2)) = [].
Proof.
  edestruct (execute_code_other_error (env := scripted no_page)
               (start no_page syntax_error) "print(") as [H1 H2].
  - reflexivity.
  - reflexivity.
  - reflexivity.
  - reflexivity.
  - reflexivity.
  - split; [exact H1|]. rewrite H2. reflexivity.
Defined.

Lemma execute_code_extraction_failure_witness :
  (execute_code (env := scripted no_page) (VStr "import foo")
     (start no_page unnamed_module)).1
  = Ok (join nl [line_venv;
                 "Error: Unable to extract module name from error: " +:+ stderr_unnamed])
  /\ List.filter is_pip
       (os_calls (trace (execute_code (env := scripted no_page) (VStr "import foo")
                           (start no_page unnamed_module)).2)) = [].
Proof.
  edestruct (execute_code_extraction_failure (env := scripted no_page)
               (start no_page unnamed_module) "import foo") as [H1 H2].
  - reflexivity.
  - reflexivity.
  - reflexivity.
  - reflexivity.
  - reflexivity.
  - left. reflexivity.
  - split; [exact H1|]. rewrite H2. reflexivity.
Defined.

Lemma execute_code_venv_failure_witness :
  (execute_code (env := scripted no_page) (VStr "print(42)") (start no_page no_venv)).1
  = Ok ("Unexpected error: " +:+ exit_status_1).
Proof.
  edestruct (execute_code_venv_failure (env := scripted no_page) (VStr "print(42)")
               (start no_page no_venv)) as [H1 H2].
  - reflexivity.
  - reflexivity.
  - exact H1.
Defined.

(** ** The whitespace collapsing of [read_webpage] *)

Lemma contains_two_spaces (s : string) :
  contains "  " s = negb (spaced s false).
Proof.
  induction s as [|c s IH]; [reflexivity|].
  rewrite contains_cons, string_prefix_two_spaces, IH. simpl spaced.
  rewrite negb_andb, negb_involutive. reflexivity.
Qed.

Lemma spaced_false (m : string) (d : bool) :
  spaced m d = true -> spaced m false = true.
Proof.
  induction m as [|c m IH]; [reflexivity|]. simpl.
  intros [H1 H2]%andb_true_iff. rewrite (IH H2), andb_true_r.
  destruct m as [|e m]; simpl in *; [|exact H1].
  now rewrite andb_false_r.
Qed.

(** *** What [strip] gives *)

Lemma lstrip_suffix (s : string) : exists a, s = a +:+ lstrip s.
Proof.
  induction s as [|c s [a IH]]; [now exists EmptyString|].
  simpl. destruct (is_space c).
  - exists (String c a). rewrite append_cons. now f_equal.
  - now exists EmptyString.
Qed.

Lemma lstrip_head (s : string) :
  lstrip s = EmptyString
  \/ exists c s', lstrip s = String c s' /\ is_space c = false.
Proof.
  induction s as [|c s IH]; [now left|].
  simpl. destruct (is_space c) eqn:E; [exact IH|].
  right. now exists c, s.
Qed.

Lemma lstrip_cons_nonspace (c : ascii) (s : string) :
  is_space c = false -> lstrip (String c s) = String c s.
Proof. intros H. simpl. now rewrite H. Qed.

Lemma rstrip_prefix (s : string) : exists b, s = rstrip s +:+ b.
Proof.
  induction s as [|c s [b IH]]; [now exists EmptyString|].
  simpl. destruct (rstrip s) as [|d r] eqn:E.
  - rewrite append_nil_l in IH. destruct (is_space c).
    + exists (String c s). now rewrite append_nil_l.
    + exists s. now rewrite append_cons, append_nil_l.
  - exists b. rewrite append_cons. now f_equal.
Qed.

Lemma rstrip_idem (s : string) : rstrip (rstrip s) = rstrip s.
Proof.
  induction s as [|c s IH]; [reflexivity|].
  simpl. destruct (rstrip s) as [|d r] eqn:E.
  - destruct (is_space c) eqn:Ec; [reflexivity|]. simpl. now rewrite Ec.
  - change (rstrip (String c (String d r))) with
      (match rstrip (String d r) with
       | EmptyString => if is_space c then EmptyString else String c EmptyString
       | r' => String c r'
       end).
    now rewrite IH.
Qed.

Lemma rstrip_cons_fixed (c : ascii) (s : string) :
  rstrip (String c s) = String c s -> rstrip s = s.
Proof.
  simpl. destruct (rstrip s) as [|d r] eqn:E.
  - destruct (is_space c); [discriminate|]. now intros [= <-].
  - now intros [= <-].
Qed.

Lemma rstrip_last_nonspace (c : ascii) :
  rstrip (String c EmptyString) = String c EmptyString -> is_space c = false.
Proof. simpl. now destruct (is_space c). Qed.

(** What [strip] returns is a chunk, or empty. *)
Lemma strip_head (s : string) :
  strip s = EmptyString
  \/ (exists c s', strip s = String c s' /\ is_space c = false)
     /\ rstrip (strip s) = strip s.
Proof.
  unfold strip. destruct (lstrip_head s) as [->|(c & s' & -> & Hc)]; [now left|].
  right. rewrite rstrip_idem. split; [|reflexivity].
  rewrite (rstrip_cons_nonspace _ _ Hc). now exists c, (rstrip s').
Qed.

Lemma strip_chunk_fixed (x : string) :
  (exists c x', x = String c x' /\ is_space c = false) ->
  rstrip x = x -> strip x = x.
Proof.
  intros (c & x' & -> & Hc) Hr. unfold strip.
  now rewrite (lstrip_cons_nonspace _ _ Hc).
Qed.

Lemma no_linebreak_strip (s : string) :
  no_linebreak s = true -> no_linebreak (strip s) = true.
Proof.
  intros H. destruct (lstrip_suffix s) as [a Ha].
  destruct (rstrip_prefix (lstrip s)) as [b Hb]. fold (strip s) in Hb.
  rewrite Ha, Hb, !no_linebreak_append in H.
  apply andb_true_iff in H as [_ H]. now apply andb_true_iff in H as [H _].
Qed.

Lemma spaced_strip (s : string) :
  spaced s false = true -> spaced (strip s) false = true.
Proof.
  intros H. destruct (lstrip_suffix s) as [a Ha].
  destruct (rstrip_prefix (lstrip s)) as [b Hb]. fold (strip s) in Hb.
  rewrite Ha, Hb, !spaced_append in H.
  apply andb_true_iff in H as [_ H]. apply andb_true_iff in H as [H _].
  now apply spaced_false in H.
Qed.

(** *** The pieces of [splitlines] and of [split] *)

Lemma splitlines_go_no_linebreak (s : string) :
  forall after_cr cur,
    no_linebreak cur = true ->
    Forall (fun x => no_linebreak x = true) (splitlines_go after_cr cur s).
Proof.
  induction s as [|c s IH]; intros after_cr cur Hcur.
  - simpl. destruct (String.eqb cur EmptyString); auto.
  - rewrite splitlines_go_cons.
    destruct (after_cr && Ascii.eqb c LF); [now apply IH|].
    destruct (is_linebreak c) eqn:Ec.
    + constructor; [exact Hcur | now apply IH].
    + apply IH. rewrite no_linebreak_append, Hcur. simpl. now rewrite Ec.
Qed.

Lemma split_go_no_linebreak (sep s : string) :
  forall skip cur,
    no_linebreak cur = true -> no_linebreak s = true ->
    Forall (fun x => no_linebreak x = true) (split_go sep skip cur s).
Proof.
  induction s as [|c s IH]; intros skip cur Hcur Hs.
  - simpl. auto.
  - simpl in Hs. apply andb_true_iff in Hs as [Hc Hs].
    rewrite split_go_cons. destruct skip as [|k]; [|now apply IH].
    destruct (String.prefix sep (String c s)).
    + constructor; [exact Hcur | now apply IH].
    + apply IH; [|exact Hs]. rewrite no_linebreak_append, Hcur. simpl.
      now rewrite Hc.
Qed.

(** No piece of a split on two spaces has two spaces in a row. *)
Lemma split_go_spaced (s : string) :
  (forall cur, spaced cur (starts_with_space s false) = true ->
     Forall (fun x => spaced x false = true) (split_go "  " 0 cur s))
  /\ (forall k, Forall (fun x => spaced x false = true)
                  (split_go "  " (S k) EmptyString s)).
Proof.
  induction s as [|c s [IH0 IHS]]; split.
  - intros cur H. simpl. auto.
  - intros k. simpl. auto.
  - intros cur H. rewrite split_go_cons, string_prefix_two_spaces.
    simpl in H.
    destruct (Ascii.eqb c space && starts_with_space s false) eqn:E.
    + constructor; [now apply spaced_false in H | apply IHS].
    + apply IH0. rewrite spaced_append. simpl. rewrite H, E. reflexivity.
  - intros [|k]; rewrite split_go_cons; [now apply IH0 | apply IHS].
Qed.

(** *** The chunks and their join *)

Lemma chunk_strip (s : string) :
  no_linebreak s = true -> spaced s false = true ->
  truthy (strip s) = true -> chunk (strip s).
Proof.
  intros Hnl Hsp Ht.
  destruct (strip_head s) as [E|[Hh Hr]]; [now rewrite E in Ht|].
  split; [exact Hh|]. split; [exact Hr|].
  split; [now apply no_linebreak_strip | now apply spaced_strip].
Qed.

(** Every chunk that [collapse] joins. *)
Lemma collapse_chunks (text : string) :
  Forall chunk
    (filter (fun chunk => truthy chunk = true)
       (flat_map (fun line => strip <$> split line "  ")
          (strip <$> splitlines text))).
Proof.
  apply Forall_forall. intros x [Ht Hin]%list_elem_of_filter.
  apply list_elem_of_In, in_flat_map in Hin as (line & Hline & Hx).
  apply list_elem_of_In, list_elem_of_fmap in Hline as (raw & -> & Hraw).
  apply list_elem_of_In, list_elem_of_fmap in Hx as (piece & -> & Hpiece).
  assert (Hnl : no_linebreak (strip raw) = true).
  { apply no_linebreak_strip.
    pose proof (splitlines_go_no_linebreak text false EmptyString eq_refl) as F.
    rewrite Forall_forall in F. now apply F. }
  apply chunk_strip; [| |exact Ht].
  - pose proof (split_go_no_linebreak "  " (strip raw) 0 EmptyString eq_refl Hnl) as F.
    rewrite Forall_forall in F. now apply F.
  - destruct (split_go_spaced (strip raw)) as [F _].
    specialize (F EmptyString eq_refl). rewrite Forall_forall in F. now apply F.
Qed.

Lemma spaced_chunk_end (x : string) :
  rstrip x = x -> spaced x false = true -> spaced x true = true.
Proof.
  induction x as [|c x IH]; [reflexivity|]. intros Hr Hs.
  simpl in Hs. apply andb_true_iff in Hs as [H1 H2]. simpl.
  destruct x as [|d x].
  - apply rstrip_last_nonspace, space_is_space in Hr. now rewrite Hr.
  - simpl in H1 |- *. rewrite H1. apply IH; [|exact H2].
    now apply rstrip_cons_fixed in Hr.
Qed.

Lemma join_cons_cons (sep x y : string) (l : list string) :
  join sep (x :: y :: l) = x +:+ sep +:+ join sep (y :: l).
Proof. reflexivity. Qed.

Lemma chunk_join (l : list string) :
  Forall chunk l -> l <> [] -> chunk (join " " l).
Proof.
  induction 1 as [|x l Hx Hl IH]; [congruence|]. intros _.
  destruct l as [|y l]; [exact Hx|].
  rewrite join_cons_cons.
  destruct (IH ltac:(discriminate)) as ((d & J' & EJ & Hd) & HrJ & HnlJ & HspJ).
  destruct Hx as ((c & x' & Ex & Hc) & Hrx & Hnlx & Hspx).
  rewrite EJ in *. clear EJ.
  change (" " +:+ String d J') with (String space (String d J')).
  assert (Hrs : rstrip (String space (String d J')) = String space (String d J')).
  { change (rstrip (String space (String d J'))) with
      (match rstrip (String d J') with
       | EmptyString => if is_space space then EmptyString else String space EmptyString
       | r' => String space r'
       end).
    now rewrite HrJ. }
  split; [|split; [|split]].
  - exists c, (x' +:+ String space (String d J')). split; [|exact Hc].
    now rewrite Ex, append_cons.
  - rewrite rstrip_append; rewrite Hrs; reflexivity.
  - rewrite no_linebreak_append, Hnlx.
    change (no_linebreak (String space (String d J')))
      with (no_linebreak (String d J')).
    exact HnlJ.
  - rewrite spaced_append.
    change (starts_with_space (String space (String d J')) false) with true.
    rewrite (spaced_chunk_end _ Hrx Hspx).
    change (spaced (String space (String d J')) false)
      with (negb (Ascii.eqb d space) && spaced (String d J') false).
    now rewrite (space_is_space _ Hd), HspJ.
Qed.

Lemma chunk_collapsed (x : string) : chunk x -> collapsed x.
Proof.
  intros (Hh & Hr & Hnl & Hsp). split; [now apply strip_chunk_fixed|].
  split; [exact Hnl|]. now rewrite contains_two_spaces, Hsp.
Qed.

Lemma collapse_chunk_or_empty (text : string) :
  collapse text = EmptyString \/ chunk (collapse text).
Proof.
  unfold collapse.
  pose proof (collapse_chunks text) as F.
  destruct (filter _ _) as [|x l]; [now left|].
  right. now apply chunk_join.
Qed.

(** X10.  The text that the whitespace collapsing gives has no whitespace at
    either end, no line boundary and no two spaces in a row. *)
Theorem collapse_normal_form (text : string) : collapsed (collapse text).
Proof.
  destruct (collapse_chunk_or_empty text) as [->|H].
  - repeat split.
  - now apply chunk_collapsed.
Qed.

(** What is collapsed already has one line and one piece, itself. *)
Lemma splitlines_one_line (c : ascii) (s : string) :
  no_linebreak (String c s) = true -> splitlines (String c s) = [String c s].
Proof.
  intros H. unfold splitlines.
  rewrite <- (append_nil_r (String c s)) at 1.
  now rewrite (splitlines_go_through c s false EmptyString EmptyString H).
Qed.

Lemma split_one_piece (s : string) :
  spaced s false = true -> split s "  " = [s].
Proof.
  intros H. unfold split.
  rewrite <- (append_nil_r s) at 1.
  now rewrite (split_go_through s EmptyString EmptyString H).
Qed.

Lemma collapse_chunk (x : string) : chunk x -> collapse x = x.
Proof.
  intros (Hh & Hr & Hnl & Hsp).
  pose proof (strip_chunk_fixed x Hh Hr) as Hs.
  destruct Hh as (c & x' & -> & Hc).
  unfold collapse. rewrite (splitlines_one_line _ _ Hnl).
  cbn [fmap list_fmap flat_map]. rewrite Hs, app_nil_r, (split_one_piece _ Hsp).
  cbn [fmap list_fmap]. rewrite Hs.
  rewrite filter_cons_True by reflexivity. reflexivity.
Qed.

(** X11.  Collapsing a second time changes nothing. *)
Theorem collapse_idempotent (text : string) :
  collapse (collapse text) = collapse text.
Proof.
  destruct (collapse_chunk_or_empty text) as [->|H]; [reflexivity|].
  now apply collapse_chunk.
Qed.

(** *** The cut at 300,000 characters *)

Lemma take_drop (n : nat) (s : string) : s = take n s +:+ drop n s.
Proof.
  revert s. induction n as [|n IH]; intros [|c s]; try reflexivity.
  simpl. rewrite append_cons. f_equal. apply IH.
Qed.

Lemma slice_upto_take (s : string) (n : Z) :
  exists k, slice s None (Some n) = take k s.
Proof. unfold slice. simpl drop. eexists. reflexivity. Qed.

Lemma lstrip_take (n : nat) (s : string) :
  lstrip s = s -> lstrip (take n s) = take n s.
Proof.
  destruct s as [|c s]; [now destruct n|]. destruct n as [|n]; [reflexivity|].
  simpl. destruct (is_space c) eqn:E; [|reflexivity].
  intros H. exfalso. destruct (lstrip_suffix s) as [a Ha].
  rewrite H in Ha. apply (f_equal len) in Ha.
  rewrite len_append, len_cons in Ha. pose proof (len_nonneg a). lia.
Qed.

Lemma lstrip_collapse (text : string) : lstrip (collapse text) = collapse text.
Proof.
  destruct (collapse_chunk_or_empty text) as [->|((c & x & -> & Hc) & _)];
    [reflexivity|].
  now apply lstrip_cons_nonspace.
Qed.

Lemma collapse_one_line (text : string) :
  no_linebreak (collapse text) = true /\ spaced (collapse text) false = true.
Proof.
  destruct (collapse_chunk_or_empty text) as [->|(_ & _ & Hnl & Hsp)];
    split; try reflexivity; assumption.
Qed.

(** The text of a page starts with no whitespace and has no line boundary
    and no two spaces in a row; the cut may leave a space at its end. *)
Lemma page_text_normal_form (page : soup) :
  lstrip (page_text page) = page_text page
  /\ no_linebreak (page_text page) = true
  /\ contains "  " (page_text page) = false.
Proof.
  unfold page_text.
  set (raw := get_text_all _).
  destruct (slice_upto_take (collapse raw) 300000) as [k ->].
  destruct (collapse_one_line raw) as (Hnl & Hsp).
  rewrite contains_two_spaces.
  pose proof (take_drop k (collapse raw)) as E.
  rewrite E, no_linebreak_append in Hnl. rewrite E, spaced_append in Hsp.
  apply andb_true_iff in Hnl as [Hnl _]. apply andb_true_iff in Hsp as [Hsp _].
  split; [apply lstrip_take, lstrip_collapse|].
  split; [exact Hnl|]. now rewrite (spaced_false _ _ Hsp).
Qed.

Section ReadWebpageText.
Context {env : Env}.

(** X9.  When the page is fetched, the text returned has at most 300,000
    characters, starts with no whitespace and has no line boundary and no
    two spaces in a row. *)
Theorem read_webpage_fetched_normal_form (url : option value) (s : state) body w :
  requests_get (str_of_value url) (world s) = (inr body, w) ->
  exists text,
    (read_webpage url s).1 = Ok text
    /\ len text <= 300000
    /\ lstrip text = text
    /\ no_linebreak text = true
    /\ contains "  " text = false.
Proof.
  intros H. rewrite (read_webpage_fetched _ _ _ _ H).
  exists (page_text (html_parser body)). split; [reflexivity|].
  split; [apply len_page_text | apply page_text_normal_form].
Qed.

(** X8.  [read_webpage] never raises: it makes one request and returns the text
    of the page or, when the request raises, the message of the exception
    behind [Error reading webpage: ]; the session is left as it was. *)
Theorem read_webpage_always_answers (url : option value) (s : state) :
  exists text,
    (read_webpage url s).1 = Ok text
    /\ trace (read_webpage url s).2 = trace s ++ [HttpGet (str_of_value url)]
    /\ session (read_webpage url s).2 = session s
    /\ match (requests_get (str_of_value url) (world s)).1 with
       | inr body => text = page_text (html_parser body)
       | inl e => text = "Error reading webpage: " +:+ str_of_exn e
       end.
Proof.
  destruct (requests_get (str_of_value url) (world s)) as [[e|body] w] eqn:H.
  - rewrite (read_webpage_failed _ _ _ _ H). eexists. repeat split.
  - rewrite (read_webpage_fetched _ _ _ _ H). eexists. repeat split.
Qed.

End ReadWebpageText.

Lemma read_webpage_fetched_normal_form_witness :
  exists text,
    (read_webpage (env := scripted (fun _ => page_ragged))
       (Some (VStr "https://example.com/"))
       (start (fun _ => page_ragged) ragged_answer)).1 = Ok text
    /\ len text <= 300000
    /\ lstrip text = text
    /\ no_linebreak text = true
    /\ contains "  " text = false.
Proof.
  apply (read_webpage_fetched_normal_form (env := scripted (fun _ => page_ragged))
           (Some (VStr "https://example.com/"))
           (start (fun _ => page_ragged) ragged_answer)
           "<p>...</p>" (Script [] [] [])).
  reflexivity.
Defined.

(** The text of the ragged page. *)
Lemma page_text_ragged : page_text page_ragged = "one two three".
Proof. vm_compute. reflexivity. Qed.

(** *** A link before the cut *)

Lemma rstrip_repeat_char (c : ascii) (n : nat) :
  is_space c = false -> rstrip (repeat_char c n) = repeat_char c n.
Proof.
  intros Hc. induction n as [|n IH]; [reflexivity|].
  simpl repeat_char. now rewrite (rstrip_cons_nonspace _ _ Hc), IH.
Qed.

Lemma no_linebreak_repeat_char (c : ascii) (n : nat) :
  is_linebreak c = false -> no_linebreak (repeat_char c n) = true.
Proof. intros Hc. induction n as [|n IH]; simpl; [reflexivity | now rewrite Hc]. Qed.

Lemma spaced_repeat_char (c : ascii) (n : nat) (d : bool) :
  Ascii.eqb c space = false -> spaced (repeat_char c n) d = true.
Proof. intros Hc. induction n as [|n IH]; simpl; [reflexivity | now rewrite Hc]. Qed.

Lemma chunk_before_repeat (x : string) (c : ascii) (n : nat) :
  chunk x -> is_space c = false -> is_linebreak c = false ->
  chunk (x +:+ repeat_char c n).
Proof.
  intros Hx Hc Hl. destruct n as [|n]; [now rewrite append_nil_r|].
  destruct Hx as ((d & x' & -> & Hd) & Hr & Hnl & Hsp).
  split; [|split; [|split]].
  - exists d, (x' +:+ repeat_char c (S n)). now rewrite append_cons.
  - rewrite rstrip_append; rewrite (rstrip_repeat_char _ _ Hc); reflexivity.
  - now rewrite no_linebreak_append, Hnl, no_linebreak_repeat_char.
  - rewrite spaced_append, spaced_repeat_char by now apply space_is_space.
    rewrite andb_true_r. apply spaced_weaken. now apply spaced_chunk_end.
Qed.

Lemma chunk_inline_link_x_u : chunk (inline_link "x" "u").
Proof.
  split; [|split; [|split]]; try (vm_compute; reflexivity).
  exists "["%char, " x ]( u )". split; vm_compute; reflexivity.
Qed.

(** A page whose collapsed text is longer than 300,000 characters, with a
    tidy link at its start: the text is cut and the link is kept. *)
Lemma read_webpage_keeps_link_before_cut :
  len (collapse (get_text_all
                   (replace_anchors <$> decompose_all unwanted page_long_after_link)))
  = 300010
  /\ len (page_text page_long_after_link) = 300000
  /\ contains (inline_link "x" "u") (page_text page_long_after_link) = true.
Proof.
  assert (E : get_text_all
                (replace_anchors <$> decompose_all unwanted page_long_after_link)
              = inline_link "x" "u" +:+ long_url).
  { unfold page_long_after_link.
    change (decompose_all unwanted [?a; ?b])
      with (decompose unwanted a ++ decompose unwanted b ++ []).
    rewrite decompose_tag, anchor_wanted.
    cbn [decompose decompose_all app fmap list_fmap].
    rewrite replace_anchors_tag.
    cbn [replace_anchors get_text_all get_text].
    rewrite !append_nil_r. reflexivity. }
  assert (C : collapse (inline_link "x" "u" +:+ long_url)
              = inline_link "x" "u" +:+ long_url).
  { apply collapse_chunk. unfold long_url.
    apply chunk_before_repeat; [apply chunk_inline_link_x_u | |];
      vm_compute; reflexivity. }
  unfold page_text. rewrite E, C. split; [|split].
  - rewrite len_append, len_long_url. reflexivity.
  - apply slice_upto_long; [lia|]. rewrite len_append, len_long_url.
    change (len (inline_link "x" "u")) with 10. lia.
  - rewrite <- (append_nil_l (inline_link "x" "u" +:+ long_url)).
    apply slice_upto_keeps.
    change (len EmptyString + len (inline_link "x" "u")) with 10. lia.
Qed.

(** ** The tree of [read_webpage] after its two loops *)

Lemma node_nested_ind (P : node -> Prop) :
  (forall s, P (NavigableString s)) ->
  (forall s, P (Comment s)) ->
  (forall name attrs contents, Forall P contents -> P (Tag name attrs contents)) ->
  forall n, P n.
Proof.
  intros Hs Hc Ht. fix IH 1. intros [s|s|name attrs contents].
  - apply Hs.
  - apply Hc.
  - apply Ht. revert contents. fix IHl 1. intros [|c l].
    + constructor.
    + constructor; [apply IH | apply IHl].
Qed.

Lemma find_all_tag p name attrs contents :
  find_all p (Tag name attrs contents)
  = (if p name attrs then [Tag name attrs contents] else [])
    ++ find_all_in p contents.
Proof.
  simpl. f_equal.
  induction contents as [|c l IH]; simpl; [reflexivity | now rewrite IH].
Qed.

Lemma find_all_in_app p (l1 l2 : list node) :
  find_all_in p (l1 ++ l2) = find_all_in p l1 ++ find_all_in p l2.
Proof.
  induction l1 as [|c l1 IH]; [reflexivity|].
  simpl. now rewrite IH, app_assoc.
Qed.

Lemma find_all_in_nil p (l : list node) :
  Forall (fun n => find_all p n = []) l -> find_all_in p l = [].
Proof. induction 1 as [|c l Hc _ IH]; [reflexivity|]. simpl. now rewrite Hc, IH. Qed.

Lemma find_all_in_nil_inv p (l : list node) :
  find_all_in p l = [] -> Forall (fun n => find_all p n = []) l.
Proof.
  induction l as [|c l IH]; [constructor|]. simpl.
  intros [H1 H2]%app_eq_nil. constructor; [exact H1 | now apply IH].
Qed.

Lemma decompose_all_nil names p (l : list node) :
  Forall (fun n => find_all_in p (decompose names n) = []) l ->
  find_all_in p (decompose_all names l) = [].
Proof.
  induction 1 as [|c l Hc _ IH]; [reflexivity|].
  simpl. now rewrite find_all_in_app, Hc, IH.
Qed.

(** No element with one of the names is left, at any depth. *)
Lemma decompose_removes (names : list string) (n : node) :
  find_all_in (is_unwanted names) (decompose names n) = [].
Proof.
  induction n as [s|s|name attrs contents IH] using node_nested_ind;
    try reflexivity.
  rewrite decompose_tag. destruct (bool_decide (name ∈ names)) eqn:E; [reflexivity|].
  cbn [find_all_in]. rewrite find_all_tag, app_nil_r.
  unfold is_unwanted at 1. rewrite E. simpl.
  now apply decompose_all_nil.
Qed.

(** Replacing the links brings no element into the tree. *)
Lemma replace_anchors_finds_less p (n : node) :
  find_all p n = [] -> find_all p (replace_anchors n) = [].
Proof.
  induction n as [s|s|name attrs contents IH] using node_nested_ind;
    try (intros; reflexivity).
  rewrite replace_anchors_tag, find_all_tag.
  intros [H1 H2]%app_eq_nil.
  destruct (String.eqb name "a" && _); [reflexivity|].
  rewrite find_all_tag. destruct (p name attrs); [discriminate|]. simpl.
  apply find_all_in_nil. apply find_all_in_nil_inv in H2.
  apply Forall_fmap, Forall_forall. intros c Hc.
  rewrite Forall_forall in IH, H2. apply (IH c Hc), (H2 c Hc).
Qed.

Lemma replace_anchors_removes (n : node) :
  find_all is_link (replace_anchors n) = [].
Proof.
  induction n as [s|s|name attrs contents IH] using node_nested_ind;
    try reflexivity.
  rewrite replace_anchors_tag.
  destruct (String.eqb name "a" && _) eqn:E; [reflexivity|].
  rewrite find_all_tag. unfold is_link at 1. rewrite E. simpl.
  apply find_all_in_nil, Forall_fmap. exact IH.
Qed.

Lemma cleaned_is_clean (page : soup) :
  find_all_in (is_unwanted unwanted) (cleaned page) = []
  /\ find_all_in is_link (cleaned page) = [].
Proof.
  unfold cleaned. split.
  - apply find_all_in_nil, Forall_fmap, Forall_forall. intros n Hn.
    apply replace_anchors_finds_less.
    assert (H : find_all_in (is_unwanted unwanted) (decompose_all unwanted page) = []).
    { apply decompose_all_nil, Forall_forall. intros c _. apply decompose_removes. }
    apply find_all_in_nil_inv in H. rewrite Forall_forall in H. now apply H.
  - apply find_all_in_nil, Forall_fmap, Forall_forall. intros n _.
    apply replace_anchors_removes.
Qed.

(** X12.  The text of a page is taken from a tree in which no [script], [style],
    [nav], [header] or [footer] element is left, and no link with a target:
    each is gone or replaced, at every depth. *)
Theorem page_text_of_cleaned_tree (page : soup) :
  page_text page = slice (collapse (get_text_all (cleaned page))) None (Some 300000)
  /\ find_all_in (is_unwanted unwanted) (cleaned page) = []
  /\ find_all_in is_link (cleaned page) = [].
Proof. split; [reflexivity | apply cleaned_is_clean]. Qed.

(** Where there is nothing to remove, nothing changes. *)
Lemma decompose_clean (names : list string) (n : node) :
  find_all (is_unwanted names) n = [] -> decompose names n = [n].
Proof.
  induction n as [s|s|name attrs contents IH] using node_nested_ind;
    try reflexivity.
  rewrite find_all_tag, decompose_tag. unfold is_unwanted at 1.
  destruct (bool_decide (name ∈ names)); [discriminate|]. simpl.
  intros H. do 2 f_equal. apply find_all_in_nil_inv in H.
  induction contents as [|c l IHl]; [reflexivity|].
  apply Forall_cons in IH as [IHc IH]. apply Forall_cons in H as [Hc H].
  simpl. now rewrite (IHc Hc), (IHl IH H).
Qed.

Lemma decompose_all_clean (names : list string) (l : soup) :
  find_all_in (is_unwanted names) l = [] -> decompose_all names l = l.
Proof.
  intros H. apply find_all_in_nil_inv in H.
  induction H as [|c l Hc _ IH]; [reflexivity|].
  simpl. now rewrite (decompose_clean _ _ Hc), IH.
Qed.

Lemma replace_anchors_clean (n : node) :
  find_all is_link n = [] -> replace_anchors n = n.
Proof.
  induction n as [s|s|name attrs contents IH] using node_nested_ind;
    try reflexivity.
  rewrite find_all_tag, replace_anchors_tag. unfold is_link at 1.
  destruct (String.eqb name "a" && _); [discriminate|]. simpl.
  intros H. f_equal. apply find_all_in_nil_inv in H.
  induction contents as [|c l IHl]; [reflexivity|].
  apply Forall_cons in IH as [IHc IH]. apply Forall_cons in H as [Hc H].
  rewrite fmap_cons, (IHc Hc), (IHl IH H). reflexivity.
Qed.

Lemma cleaned_clean (page : soup) :
  find_all_in (is_unwanted unwanted) page = [] ->
  find_all_in is_link page = [] ->
  cleaned page = page.
Proof.
  intros Hu Hl. unfold cleaned. rewrite (decompose_all_clean _ _ Hu).
  apply find_all_in_nil_inv in Hl.
  induction Hl as [|c l Hc _ IH]; [reflexivity|].
  simpl in Hu. apply app_eq_nil in Hu as [_ Hu].
  rewrite fmap_cons, (replace_anchors_clean _ Hc), (IH Hu). reflexivity.
Qed.

(** X13.  A page without such elements and without links with a target is read
    as it is: its text is the collapsed text of the whole tree, cut at
    300,000 characters. *)
Theorem page_text_plain (page : soup) :
  find_all_in (is_unwanted unwanted) page = [] ->
  find_all_in is_link page = [] ->
  page_text page = slice (collapse (get_text_all page)) None (Some 300000).
Proof.
  intros Hu Hl. change (page_text page)
    with (slice (collapse (get_text_all (cleaned page))) None (Some 300000)).
  now rewrite (cleaned_clean _ Hu Hl).
Qed.

(** The cleaning is done in one pass: cleaning again changes nothing. *)
Lemma cleaned_idempotent (page : soup) : cleaned (cleaned page) = cleaned page.
Proof. apply cleaned_clean; apply cleaned_is_clean. Qed.

(** ** [search_duckduckgo]: the results *)

Lemma length_parse_result (result : node) : (length (parse_result result) <= 1)%nat.
Proof.
  unfold parse_result.
  destruct (get_text <$> head (find_below _ result)) as [t|]; [|simpl; lia].
  destruct (match head (find_below _ result) with
            | Some (Tag _ attrs _) => attrs !! "href"
            | _ => None
            end) as [l|]; [|simpl; lia].
  destruct (truthy t && truthy l); simpl; lia.
Qed.

Lemma title_parse_result (result : node) :
  Forall (fun r => truthy (title r) = true /\ exists link,
            truthy link = true /\ url r = canonical_url link)
    (parse_result result).
Proof.
  unfold parse_result.
  destruct (get_text <$> head (find_below _ result)) as [t|]; [|constructor].
  destruct (match head (find_below _ result) with
            | Some (Tag _ attrs _) => attrs !! "href"
            | _ => None
            end) as [l|]; [|constructor].
  destruct (truthy t && truthy l) eqn:E; [|constructor].
  apply andb_true_iff in E as [Et El].
  constructor; [|constructor]. simpl. split; [exact Et|]. now exists l.
Qed.

Lemma length_flat_map_le {A B : Type} (f : A -> list B) (l : list A) :
  (forall x, (length (f x) <= 1)%nat) ->
  (length (flat_map f l) <= length l)%nat.
Proof.
  intros H. induction l as [|x l IH]; simpl; [lia|].
  rewrite length_app. specialize (H x). lia.
Qed.

Lemma length_list_upto {A : Type} (l : list A) (n : Z) :
  0 <= n -> (length (list_upto l n) <= Z.to_nat n)%nat.
Proof.
  intros Hn. unfold list_upto, clamp_index.
  replace (n <? 0) with false by (symmetry; apply Z.ltb_ge; lia).
  rewrite length_firstn. lia.
Qed.

(** The results are at most [num_results], each with a title and a link
    that are not empty, in the order of the page. *)
Lemma parse_results_bounded (page : soup) (n : Z) :
  0 <= n ->
  (length (parse_results page n) <= Z.to_nat n)%nat
  /\ Forall (fun r => truthy (title r) = true /\ exists link,
               truthy link = true /\ url r = canonical_url link)
       (parse_results page n).
Proof.
  intros Hn. unfold parse_results. split.
  - etransitivity; [apply length_flat_map_le, length_parse_result|].
    now apply length_list_upto.
  - apply Forall_forall. intros r Hr.
    apply list_elem_of_In, in_flat_map in Hr as (b & _ & Hr).
    pose proof (title_parse_result b) as F. rewrite Forall_forall in F.
    now apply F, list_elem_of_In.
Qed.

(** ** [search_duckduckgo]: the request *)

Lemma all_chars_append p (a b : string) :
  all_chars p (a +:+ b) = all_chars p a && all_chars p b.
Proof.
  induction a as [|c a IH]; [reflexivity|].
  rewrite append_cons. simpl. now rewrite IH, andb_assoc.
Qed.

Lemma hex_digit_safe (n : Z) : 0 <= n < 16 -> always_safe (hex_digit n) = true.
Proof.
  intros Hn.
  assert (F : Forall (fun n => always_safe (hex_digit n) = true) (seqZ 0 16)).
  { apply (bool_decide_unpack _). vm_compute. reflexivity. }
  rewrite Forall_forall in F. apply F, elem_of_seqZ. lia.
Qed.

Lemma all_chars_percent (b : Z) :
  0 <= b < 256 -> all_chars query_char (percent b) = true.
Proof.
  intros Hb. unfold percent. cbn [all_chars]. unfold query_char at 1 2 3.
  rewrite !hex_digit_safe; [reflexivity| |].
  - apply Z.mod_pos_bound. lia.
  - split; [apply Z.div_pos; lia | apply Z.div_lt_upper_bound; lia].
Qed.

Lemma mem_char_one (c d : ascii) :
  mem_char c (String d EmptyString) = Ascii.eqb c d.
Proof. simpl. apply orb_false_r. Qed.

(** The encoded query has only letters, digits, [_.-~], slashes and
    escapes. *)
Lemma all_chars_quote (d : string) : all_chars query_char (quote d "/") = true.
Proof.
  induction d as [|c d IH]; [reflexivity|].
  rewrite quote_cons, all_chars_append, IH, andb_true_r, mem_char_one.
  pose proof (code_range c) as Hr.
  destruct (always_safe c || Ascii.eqb c "/") eqn:E.
  - cbn [all_chars]. unfold query_char. now rewrite E.
  - destruct (code c <? 128) eqn:Hlow; [apply all_chars_percent; lia|].
    apply Z.ltb_ge in Hlow. rewrite all_chars_append, !all_chars_percent; [reflexivity| |].
    + pose proof (Z.mod_pos_bound (code c) 64). lia.
    + assert (code c / 64 < 4) by (apply Z.div_lt_upper_bound; lia).
      assert (0 <= code c / 64) by (apply Z.div_pos; lia). lia.
Qed.

Lemma escaped_byte_percent (b : Z) (rest : string) :
  0 <= b < 256 ->
  escaped_byte (percent b +:+ rest) = Some b.
Proof.
  intros Hb. unfold percent. rewrite !append_cons, append_nil_l.
  rewrite (escaped_byte_escape _ _ (b / 16) (b mod 16)).
  - f_equal. pose proof (Z.div_mod b 16). lia.
  - apply hex_value_hex_digit. split; [apply Z.div_pos; lia|].
    apply Z.div_lt_upper_bound; lia.
  - apply hex_value_hex_digit. apply Z.mod_pos_bound. lia.
Qed.

Lemma unquote_go_percent (b : Z) (rest : string) :
  0 <= b < 194 ->
  unquote_go 0 (percent b +:+ rest) = String (chr b) (unquote_go 0 rest).
Proof.
  intros Hb. unfold percent. rewrite !append_cons, append_nil_l.
  rewrite (unquote_go_escape _ _ (b / 16) (b mod 16)).
  - do 2 f_equal. pose proof (Z.div_mod b 16). lia.
  - apply hex_value_hex_digit. split; [apply Z.div_pos; lia|].
    apply Z.div_lt_upper_bound; lia.
  - apply hex_value_hex_digit. apply Z.mod_pos_bound. lia.
  - pose proof (Z.div_mod b 16). lia.
Qed.

(** The two escapes of a character from 128 to 255 are decoded to it. *)
Lemma unquote_go_two_bytes (n : Z) (rest : string) :
  128 <= n < 256 ->
  unquote_go 0 (percent (192 + n / 64) +:+ percent (128 + n mod 64) +:+ rest)
  = String (chr n) (unquote_go 0 rest).
Proof.
  intros Hn.
  assert (Hq : 2 <= n / 64 < 4).
  { split; [apply Z.div_le_lower_bound; lia | apply Z.div_lt_upper_bound; lia]. }
  pose proof (Z.mod_pos_bound n 64 ltac:(lia)) as Hr.
  pose proof (Z.div_mod n 64 ltac:(lia)) as Hd.
  pose proof (escaped_byte_percent (192 + n / 64)
                (percent (128 + n mod 64) +:+ rest) ltac:(lia)) as E1.
  pose proof (escaped_byte_percent (128 + n mod 64) rest ltac:(lia)) as E2.
  revert E1 E2. unfold percent. rewrite !append_cons, !append_nil_l.
  intros E1 E2. rewrite unquote_go_cons, E1.
  cbn [drop]. rewrite E2.
  replace (194 <=? 192 + n / 64) with true by (symmetry; apply Z.leb_le; lia).
  replace (192 + n / 64 <=? 195) with true by (symmetry; apply Z.leb_le; lia).
  replace (128 <=? 128 + n mod 64) with true by (symmetry; apply Z.leb_le; lia).
  replace (128 + n mod 64 <=? 191) with true by (symmetry; apply Z.leb_le; lia).
  cbn [andb]. f_equal. f_equal. lia.
Qed.

(** Decoding undoes the encoding, for every string and every set of kept
    characters without the percent sign. *)
Lemma unquote_go_quote_any (d safe rest : string) :
  mem_char "%" safe = false ->
  unquote_go 0 (quote d safe +:+ rest) = d +:+ unquote_go 0 rest.
Proof.
  intros Hsafe. induction d as [|c d IH]; [reflexivity|].
  rewrite quote_cons, append_assoc. pose proof (code_range c) as Hr.
  destruct (always_safe c || mem_char c safe) eqn:Hs.
  - rewrite !append_cons, append_nil_l, unquote_go_plain, IH; [reflexivity|].
    apply orb_true_iff in Hs as [Hs|Hs].
    + rewrite Ascii.eqb_sym. now apply always_safe_not.
    + destruct (Ascii.eqb c "%") eqn:E; [|reflexivity].
      apply Ascii.eqb_eq in E. subst c. congruence.
  - destruct (code c <? 128) eqn:Hlow.
    + apply Z.ltb_lt in Hlow.
      rewrite unquote_go_percent, IH, chr_code by lia. now rewrite append_cons.
    + apply Z.ltb_ge in Hlow.
      rewrite append_assoc, unquote_go_two_bytes, IH, chr_code by lia.
      now rewrite append_cons.
Qed.

Lemma unquote_quote (d safe : string) :
  mem_char "%" safe = false -> unquote (quote d safe) = d.
Proof.
  intros Hsafe. unfold unquote.
  rewrite <- (append_nil_r (quote d safe)), (unquote_go_quote_any _ _ _ Hsafe).
  apply append_nil_r.
Qed.

(** Decoding undoes the encoding with the slash kept, for characters below
    128. *)
Lemma unquote_quote_slash (d : string) :
  is_ascii d = true -> unquote (quote d "/") = d.
Proof. intros _. now apply unquote_quote. Qed.

Section SearchDuckDuckGo.
Context {env : Env}.

(** X14.  The request of a search: one GET of the search address with the
    encoded query, which has no character that ends or splits the
    parameter and which decodes to the query when the query is ASCII.  The
    session is left as it was, and a failed request is not caught: its
    exception is raised to the caller. *)
Theorem search_duckduckgo_request (query : string) (num_results : value) (s : state) :
  trace (search_duckduckgo (Some (VStr query)) num_results s).2
  = trace s ++ [HttpGet (search_url query)]
  /\ session (search_duckduckgo (Some (VStr query)) num_results s).2 = session s
  /\ all_chars query_char (quote query "/") = true
  /\ (is_ascii query = true -> unquote (quote query "/") = query)
  /\ (forall e, (requests_get (search_url query) (world s)).1 = inl e ->
      (search_duckduckgo (Some (VStr query)) num_results s).1 = Raise e).
Proof.
  unfold search_duckduckgo, bind, http_get. fold (search_url query).
  destruct (requests_get _ (world s)) as [[e|body] w]; simpl;
    (split; [|split; [|split; [apply all_chars_quote
                              |split; [apply unquote_quote_slash|]]]]);
    try reflexivity; try (destruct num_results; reflexivity);
    intros e' [= <-]; reflexivity.
Qed.

(** X15.  A fetched result page gives at most [num_results] results, each with a
    title and a link that are not empty. *)
Theorem search_duckduckgo_results (query : string) (n : Z) (s : state) body w :
  requests_get (search_url query) (world s) = (inr body, w) ->
  0 <= n ->
  exists results,
    (search_duckduckgo (Some (VStr query)) (VInt n) s).1 = Ok results
    /\ (length results <= Z.to_nat n)%nat
    /\ Forall (fun r => truthy (title r) = true /\ exists link,
                 truthy link = true /\ url r = canonical_url link) results.
Proof.
  intros H Hn. unfold search_duckduckgo, bind, http_get. fold (search_url query).
  rewrite H. simpl. eexists. split; [reflexivity|]. now apply parse_results_bounded.
Qed.

End SearchDuckDuckGo.

Lemma search_duckduckgo_results_witness :
  exists results,
    (search_duckduckgo (env := scripted (fun _ => page_results))
       (Some (VStr "rocq prover")) (VInt 2)
       (start (fun _ => page_results) results_answer)).1 = Ok results
    /\ (length results <= 2)%nat.
Proof.
  destruct (search_duckduckgo_results (env := scripted (fun _ => page_results))
              "rocq prover" 2 (start (fun _ => page_results) results_answer)
              "<html>...</html>" (Script [] [] []))
    as (results & H1 & H2 & _).
  - reflexivity.
  - lia.
  - exists results. split; [exact H1 | exact H2].
Defined.

(** The results of the sample page: the block without a link gives none,
    and it counts among the first two blocks. *)
Lemma parse_results_sample :
  parse_results page_results 2
  = [SearchResult "Rocq" "https://rocq-prover.org/" None]
  /\ search_url "rocq prover" = "https://html.duckduckgo.com/html/?q=rocq%20prover".
Proof. split; vm_compute; reflexivity. Qed.

Lemma page_text_plain_witness :
  page_text page_docs_plain = "see the docs now".
Proof.
  rewrite (page_text_plain page_docs_plain); vm_compute; reflexivity.
Defined.

(** ** Steps that keep a relation *)

Section Keeps.
Context {env : Env}.
Variable R : state -> state -> Prop.
Hypothesis R_refl : forall s, R s s.
Hypothesis R_trans : forall s1 s2 s3, R s1 s2 -> R s2 s3 -> R s1 s3.

Lemma keeps_ret {A : Type} (a : A) : keeps R (ret a).
Proof. intros s. apply R_refl. Qed.

Lemma keeps_raise {A : Type} (e : exn) : keeps R (raise (A := A) e).
Proof. intros s. apply R_refl. Qed.

Lemma keeps_bind {A B : Type} (m : M A) (k : A -> M B) :
  keeps R m -> (forall a, keeps R (k a)) -> keeps R (bind m k).
Proof.
  intros Hm Hk s. unfold bind. specialize (Hm s).
  destruct (m s) as [[a|e] s1]; simpl in *; [|exact Hm].
  eapply R_trans; [exact Hm | apply Hk].
Qed.

Lemma keeps_try_except {A : Type} (m : M A) (h : exn -> M A) :
  keeps R m -> (forall e, keeps R (h e)) -> keeps R (try_except m h).
Proof.
  intros Hm Hh s. unfold try_except. specialize (Hm s).
  destruct (m s) as [[a|e] s1]; simpl in *; [exact Hm|].
  eapply R_trans; [exact Hm | apply Hh].
Qed.

Lemma keeps_try_except_called_process_error {A : Type} (m : M A) (h : string -> M A) :
  keeps R m -> (forall e, keeps R (h e)) ->
  keeps R (try_except_called_process_error m h).
Proof.
  intros Hm Hh s. unfold try_except_called_process_error. specialize (Hm s).
  destruct (m s) as [[a|[msg err|msg]] s1]; simpl in *; try exact Hm.
  eapply R_trans; [exact Hm | apply Hh].
Qed.

Lemma keeps_finally {A : Type} (body : M A) (exit : M unit) :
  keeps R body -> keeps R exit -> keeps R (finally body exit).
Proof.
  intros Hb He s. unfold finally. specialize (Hb s).
  destruct (body s) as [r s1]. specialize (He s1).
  destruct (exit s1) as [[[]|e] s2]; simpl in *;
    eapply R_trans; eassumption.
Qed.

End Keeps.

Section Returns.
Context {env : Env}.

Lemma returns_ret {A : Type} (a : A) (P : A -> Prop) : P a -> returns (ret a) P.
Proof. intros H s b [= <-]. exact H. Qed.

Lemma returns_bind {A B : Type} (m : M A) (k : A -> M B) (P : B -> Prop) :
  (forall a, returns (k a) P) -> returns (bind m k) P.
Proof.
  intros Hk s b. unfold bind. destruct (m s) as [[a|e] s1]; [apply Hk|discriminate].
Qed.

End Returns.

(** ** The transcript and the screen *)

Section Rendered.
Context {env : Env}.

Lemma markdowns_app (t1 t2 : list event) :
  markdowns (t1 ++ t2) = markdowns t1 ++ markdowns t2.
Proof. apply omap_app. Qed.

Lemma errors_app (t1 t2 : list event) : errors (t1 ++ t2) = errors t1 ++ errors t2.
Proof. apply omap_app. Qed.

Lemma model_contexts_app (t1 t2 : list event) :
  model_contexts (t1 ++ t2) = model_contexts t1 ++ model_contexts t2.
Proof. apply omap_app. Qed.

Lemma rendered_refl (s : state) : rendered s s.
Proof. exists [], []. rewrite !app_nil_r. repeat split. constructor. Qed.

Lemma rendered_trans (s1 s2 s3 : state) :
  rendered s1 s2 -> rendered s2 s3 -> rendered s1 s3.
Proof.
  intros (m1 & n1 & D1 & T1 & F1 & C1 & M1 & E1) (m2 & n2 & D2 & T2 & F2 & C2 & M2 & E2).
  exists (m1 ++ m2), (n1 ++ n2).
  rewrite D2, D1, T2, T1, <- !app_assoc, fmap_app, markdowns_app,
    model_contexts_app, errors_app, C1, C2, M1, M2, E1, E2.
  repeat split. now apply Forall_app.
Qed.

(** A step that appends one event to the trace, neither a rendering nor a
    model call nor an error display, and leaves the session alone. *)
Lemma rendered_event (s s' : state) (ev : event) :
  session s' = session s -> trace s' = trace s ++ [ev] ->
  markdowns [ev] = [] -> model_contexts [ev] = [] -> errors [ev] = [] ->
  rendered s s'.
Proof.
  intros Hs Ht Hm Hc He. exists [], [ev]. rewrite Hs, Ht, app_nil_r, Hm, Hc, He.
  repeat split. constructor.
Qed.

Lemma rendered_same (s s' : state) :
  display_messages (session s') = display_messages (session s) ->
  trace s' = trace s -> rendered s s'.
Proof.
  intros Hs Ht. exists [], []. rewrite Hs, Ht, !app_nil_r.
  repeat split. constructor.
Qed.

Lemma keeps_http_get (url : string) : keeps rendered (http_get url).
Proof.
  intros s. unfold http_get. destruct (requests_get url (world s)) as [r w].
  now apply (rendered_event _ _ (HttpGet url)).
Qed.

Lemma keeps_os (c : os_call) : keeps rendered (os c).
Proof.
  intros s. unfold os. destruct (os_run c (world s)) as [r w].
  now apply (rendered_event _ _ (OsCall c r)).
Qed.

Lemma keeps_get_session : keeps rendered get_session.
Proof. intros s. apply rendered_refl. Qed.

Lemma keeps_get_logs : keeps rendered get_logs.
Proof. intros s. apply rendered_refl. Qed.

Lemma keeps_logs_clear : keeps rendered logs_clear.
Proof. intros s. now apply rendered_same. Qed.

Lemma keeps_logs_append (line : string) : keeps rendered (logs_append line).
Proof. intros s. now apply rendered_same. Qed.

Lemma keeps_set_last_executed_code (code : value) :
  keeps rendered (set_last_executed_code code).
Proof. intros s. now apply rendered_same. Qed.

Lemma keeps_messages_extend (more : list message) :
  keeps rendered (messages_extend more).
Proof. intros s. now apply rendered_same. Qed.

(** The pair of every display: rendered, then appended to the transcript
    as an entry of the assistant. *)
Lemma keeps_shown {A : Type} (text : string) (k : M A) :
  keeps rendered k ->
  keeps rendered
    (st_markdown text ;; display_messages_append (assistant text) ;; k).
Proof.
  intros Hk s. rewrite st_markdown_bind, display_messages_append_bind.
  eapply rendered_trans; [|apply Hk].
  exists [assistant text], [Markdown text]. repeat split.
  constructor; [reflexivity | constructor].
Qed.

End Rendered.

(** Goes through a computation built from steps that keep [rendered]. *)
Ltac rendered_steps :=
  repeat match goal with
    | |- keeps rendered (bind (st_markdown _) _) => apply keeps_shown
    | |- keeps rendered (bind _ _) =>
        apply (keeps_bind _ rendered_trans); [|intros ?]
    | |- keeps rendered (try_except _ _) =>
        apply (keeps_try_except _ rendered_trans); [|intros ?]
    | |- keeps rendered (try_except_called_process_error _ _) =>
        apply (keeps_try_except_called_process_error _ rendered_trans); [|intros ?]
    | |- keeps rendered (finally _ _) => apply (keeps_finally _ rendered_trans)
    | |- keeps rendered (ret _) => apply (keeps_ret _ rendered_refl)
    | |- keeps rendered (raise _) => apply (keeps_raise _ rendered_refl)
    | |- keeps rendered (http_get _) => apply keeps_http_get
    | |- keeps rendered (os _) => apply keeps_os
    | |- keeps rendered get_session => apply keeps_get_session
    | |- keeps rendered get_logs => apply keeps_get_logs
    | |- keeps rendered logs_clear => apply keeps_logs_clear
    | |- keeps rendered (logs_append _) => apply keeps_logs_append
    | |- keeps rendered (set_last_executed_code _) => apply keeps_set_last_executed_code
    | |- keeps rendered (match ?x with _ => _ end) => destruct x eqn:?
    | H : _ |- keeps rendered _ => solve [apply H]
    end.

(** Goes through a computation to the values it returns. *)
Ltac returns_steps :=
  repeat match goal with
    | |- returns (bind _ _) _ => apply returns_bind; intros ?
    | |- returns (match ?x with _ => _ end) _ => destruct x eqn:?
    | |- returns (ret _) _ => apply returns_ret
    end.

Section ToolSteps.
Context {env : Env}.

Lemma keeps_search_duckduckgo query num_results :
  keeps rendered (search_duckduckgo query num_results).
Proof. unfold search_duckduckgo. rendered_steps. Qed.

Lemma keeps_read_webpage url : keeps rendered (read_webpage url).
Proof. unfold read_webpage. rendered_steps. Qed.

Lemma keeps_execute_code code : keeps rendered (execute_code code).
Proof.
  unfold execute_code, write_script, run_script, on_called_process_error,
    install_and_retry, run_script.
  rendered_steps.
Qed.

Lemma keeps_handle_content_item item msgs :
  keeps rendered (handle_content_item item msgs).
Proof.
  pose proof keeps_search_duckduckgo. pose proof keeps_read_webpage.
  pose proof keeps_execute_code.
  unfold handle_content_item, dispatch_web_search, dispatch_read_webpage,
    dispatch_execute_code, run_code. cbv zeta.
  rendered_steps.
Qed.

Lemma keeps_handle_content items :
  forall msgs, keeps rendered (handle_content items msgs).
Proof.
  induction items as [|item items IH]; intros msgs; simpl.
  - apply (keeps_ret _ rendered_refl).
  - apply (keeps_bind _ rendered_trans); [apply keeps_handle_content_item | exact IH].
Qed.

(** The local context only grows. *)
Lemma returns_handle_content_item item msgs :
  returns (handle_content_item item msgs) (fun msgs' => msgs `prefix_of` msgs').
Proof.
  unfold handle_content_item, dispatch_web_search, dispatch_read_webpage,
    dispatch_execute_code, run_code. cbv zeta.
  returns_steps; try reflexivity; try apply prefix_app_r; reflexivity.
Qed.

Lemma returns_handle_content items :
  forall msgs,
    returns (handle_content items msgs) (fun msgs' => msgs `prefix_of` msgs').
Proof.
  induction items as [|item items IH]; intros msgs; simpl.
  - now apply returns_ret.
  - intros s msgs'. unfold bind.
    pose proof (returns_handle_content_item item msgs s) as H1.
    destruct (handle_content_item item msgs s) as [[msgs1|e] s1]; [|discriminate].
    intros H2. etrans; [now apply H1 | exact (IH _ _ _ H2)].
Qed.

End ToolSteps.

(** ** The loop: what it renders and what it sends *)

Section LoopRendered.
Context {env : Env}.

Lemma loop_rendered_done (msgs : list message) r (s s' : state) :
  rendered s s' ->
  (forall msgs', r = Ok (Some msgs') -> msgs `prefix_of` msgs') ->
  loop_rendered msgs r s s'.
Proof.
  intros (more & new & D & T & F & C & M & E) Hr.
  exists more, new. rewrite M. repeat split; auto; discriminate.
Qed.

Lemma loop_rendered_step (msgs msgs1 : list message) (tools : bool) r
    (s s1 s2 s3 : state) :
  trace s1 = trace s ++ [ModelCall msgs tools] ->
  session s1 = session s ->
  rendered s1 s2 ->
  msgs `prefix_of` msgs1 ->
  loop_rendered msgs1 r s2 s3 ->
  loop_rendered msgs r s s3.
Proof.
  intros T1 S1 (m1 & n1 & D2 & T2 & F2 & C2 & M2 & E2) Hp
         (m3 & n3 & D3 & T3 & F3 & C3 & E3 & P3 & _ & L3).
  exists (m1 ++ m3), ([ModelCall msgs tools] ++ n1 ++ n3).
  rewrite D3, D2, T3, T2, T1, S1, <- !app_assoc, fmap_app, !markdowns_app,
    !errors_app, !model_contexts_app, C2, C3, M2, E2, E3.
  simpl. split; [reflexivity|]. split; [reflexivity|].
  split; [now apply Forall_app|]. split; [reflexivity|]. split; [reflexivity|].
  split; [|split].
  - constructor; [reflexivity|].
    eapply Forall_impl; [exact P3|]. intros c Hc. etrans; [exact Hp | exact Hc].
  - now intros c [= <-].
  - intros msgs' H. destruct (L3 _ H) as [H1 H2].
    assert (H3 : msgs `prefix_of` msgs') by (etrans; [exact Hp | exact H1]).
    split; [exact H3|]. constructor; [exact H3 | exact H2].
Qed.

Lemma conversation_loop_rendered (fuel : nat) :
  forall k msgs s,
    loop_rendered msgs (conversation_loop fuel k msgs s).1 s
      (conversation_loop fuel k msgs s).2.
Proof.
  induction fuel as [|fuel IH]; intros k msgs s.
  - apply loop_rendered_done; [apply rendered_refl | discriminate].
  - rewrite conversation_loop_S. destruct (k <? max_iterations).
    2:{ apply loop_rendered_done; [apply rendered_refl|]. now intros msgs' [= <-]. }
    unfold bind, client_messages_create.
    destruct (messages_create msgs _ (world s)) as [r w].
    set (s1 := State w _ _ _).
    destruct r as [e|response]; simpl outcome; cbv iota.
    { apply (loop_rendered_step msgs msgs (k + 1 <? max_iterations - 1) _ s s1 s1);
        try reflexivity.
      - apply rendered_refl.
      - apply loop_rendered_done; [apply rendered_refl | discriminate]. }
    pose proof (keeps_handle_content response msgs s1) as Hc.
    pose proof (returns_handle_content response msgs s1) as Hr.
    destruct (handle_content response msgs s1) as [[msgs1|e] s2]; simpl in Hc, Hr.
    2:{ apply (loop_rendered_step msgs msgs (k + 1 <? max_iterations - 1) _ s s1 s2);
          try reflexivity; [exact Hc|].
        apply loop_rendered_done; [apply rendered_refl | discriminate]. }
    specialize (Hr msgs1 eq_refl).
    destruct (negb (existsb is_tool_use response)).
    { apply (loop_rendered_step msgs msgs1 (k + 1 <? max_iterations - 1) _ s s1 s2);
        try reflexivity; [exact Hc | exact Hr |].
      apply loop_rendered_done; [apply rendered_refl|]. now intros msgs' [= <-]. }
    apply (loop_rendered_step msgs msgs1 (k + 1 <? max_iterations - 1) _ s s1 s2);
      try reflexivity; [exact Hc | exact Hr | apply IH].
Qed.

Lemma prefix_skipn {A : Type} (l1 l2 : list A) :
  l1 `prefix_of` l2 -> l1 ++ skipn (length l1) l2 = l2.
Proof. intros [k ->]. now rewrite drop_app_length. Qed.

(** The whole turn with a prompt, in one statement: the transcript, the
    screen, the contexts sent to the model, the persistent context and the
    credential. *)
Lemma respond_rendered (prompt : string) (s : state) :
  truthy prompt = true ->
  exists more new,
    display_messages (session (respond prompt s).2)
    = display_messages (session s) ++ user prompt :: more
    /\ trace (respond prompt s).2 = trace s ++ Markdown prompt :: new
    /\ Forall (fun m => role m = "assistant") more
    /\ content <$> more = markdowns new
    /\ Forall (fun c => (messages (session s) ++ [user prompt]) `prefix_of` c)
         (model_contexts new)
    /\ (forall c, head (model_contexts new) = Some c ->
        c = messages (session s) ++ [user prompt])
    /\ (errors new = []
        /\ api_key (session (respond prompt s).2) = api_key (session s)
        /\ (messages (session s) ++ [user prompt])
             `prefix_of` messages (session (respond prompt s).2)
        /\ Forall (fun c => c `prefix_of` messages (session (respond prompt s).2))
             (model_contexts new)
        \/ exists new' e,
             new = new' ++ [StError ("An error occurred: " +:+ str_of_exn e)]
             /\ errors new' = []
             /\ messages (session (respond prompt s).2)
                = messages (session s) ++ [user prompt]
             /\ api_key (session (respond prompt s).2)
                = if contains "invalid_api_key" (lower (str_of_exn e))
                  then None else api_key (session s)).
Proof.
  intros Hp. rewrite (respond_unfold prompt s Hp).
  unfold try_except. rewrite turn_body_unfold.
  pose proof (conversation_loop_rendered (S (Z.to_nat max_iterations)) 0
                (messages (session (prompted prompt s))) (prompted prompt s)) as HR.
  pose proof (conversation_loop_frame (S (Z.to_nat max_iterations)) 0
                (messages (session (prompted prompt s))) (prompted prompt s)) as HF.
  pose proof (conversation_loop_fuel (S (Z.to_nat max_iterations)) 0
                (messages (session (prompted prompt s))) (prompted prompt s)) as Hfuel.
  destruct (conversation_loop _ 0 _ (prompted prompt s)) as [[[msgs|]|e] s1];
    simpl in HR, HF, Hfuel;
    destruct HF as [HM _ HK _ _];
    destruct HR as (more & new & D & T & F & C & E & P & H & L);
    simpl in HM, HK, D, T, P, H, L.
  - destruct (L msgs eq_refl) as [L1 L2].
    exists more, new. simpl. rewrite HM, (prefix_skipn _ _ L1), D, T, HK, <- !app_assoc.
    repeat split; try assumption.
    left. repeat split; assumption.
  - exfalso. apply Hfuel; [|reflexivity]. unfold max_iterations. simpl. lia.
  - rewrite on_exception_unfold.
    exists more, (new ++ [StError ("An error occurred: " +:+ str_of_exn e)]).
    simpl. rewrite D, T, HM, HK, <- !app_assoc, markdowns_app, model_contexts_app.
    simpl. rewrite !app_nil_r. repeat split; try assumption.
    right. exists new, e. repeat split; assumption.
Qed.

(** X19.  What a turn adds to the transcript is what it rendered with
    [st.markdown], text by text and in the same order: a rerun of the script
    redisplays what was on the screen, the error display apart. *)
Theorem respond_transcript_is_the_screen (prompt : string) (s : state) :
  exists added new,
    display_messages (session (respond prompt s).2)
    = display_messages (session s) ++ added
    /\ trace (respond prompt s).2 = trace s ++ new
    /\ content <$> added = markdowns new.
Proof.
  destruct (truthy prompt) eqn:Hp.
  - destruct (respond_rendered prompt s Hp) as (more & new & D & T & _ & C & _).
    exists (user prompt :: more), (Markdown prompt :: new).
    split; [exact D|]. split; [exact T|].
    change (prompt :: (content <$> more) = prompt :: markdowns new).
    now rewrite C.
  - exists [], []. unfold respond. rewrite Hp, !app_nil_r. repeat split.
Qed.

(** X20.  The entries that a turn adds to the transcript: the prompt as the
    user, then entries of the assistant only; the results of the tools are
    shown as the assistant's. *)
Theorem respond_transcript_roles (prompt : string) (s : state) :
  truthy prompt = true ->
  exists more,
    display_messages (session (respond prompt s).2)
    = display_messages (session s) ++ user prompt :: more
    /\ Forall (fun m => role m = "assistant") more.
Proof.
  intros Hp.
  destruct (respond_rendered prompt s Hp) as (more & new & D & _ & F & _).
  exists more. split; assumption.
Qed.

(** X21.  The contexts that a turn sends to the model: the first is the
    persistent context with the prompt, every one extends it, and when the
    turn ends without error the persistent context extends every one of
    them: nothing that the model was told is lost. *)
Theorem respond_contexts_grow (prompt : string) (s : state) :
  truthy prompt = true ->
  exists new,
    trace (respond prompt s).2 = trace s ++ new
    /\ Forall (fun c => (messages (session s) ++ [user prompt]) `prefix_of` c)
         (model_contexts new)
    /\ (forall c, head (model_contexts new) = Some c ->
        c = messages (session s) ++ [user prompt])
    /\ (messages (session s) ++ [user prompt])
         `prefix_of` messages (session (respond prompt s).2)
    /\ (errors new = [] ->
        Forall (fun c => c `prefix_of` messages (session (respond prompt s).2))
          (model_contexts new)).
Proof.
  intros Hp.
  destruct (respond_rendered prompt s Hp)
    as (more & new & _ & T & _ & _ & P & H & [(E & _ & M & L)|(new' & e & -> & E & M & _)]).
  - exists (Markdown prompt :: new). split; [exact T|].
    change (model_contexts (Markdown prompt :: new)) with (model_contexts new).
    split; [exact P|]. split; [exact H|]. split; [exact M|]. intros _. exact L.
  - exists (Markdown prompt :: new' ++ [StError ("An error occurred: " +:+ str_of_exn e)]).
    split; [exact T|].
    change (model_contexts (Markdown prompt :: ?l)) with (model_contexts l).
    change (errors (Markdown prompt :: ?l)) with (errors l).
    split; [exact P|]. split; [exact H|].
    split; [now rewrite M|].
    rewrite errors_app, E. discriminate.
Qed.

(** X22.  The error display and the credential: a turn shows at most one error,
    as its last step, and the stored key is cleared exactly when the
    message of the exception has [invalid_api_key] in it, in any case of
    the letters; a turn without error leaves the key as it was. *)
Theorem respond_credential_rule (prompt : string) (s : state) :
  exists new,
    trace (respond prompt s).2 = trace s ++ new
    /\ (errors new = []
        /\ api_key (session (respond prompt s).2) = api_key (session s)
        \/ exists new' e,
             new = new' ++ [StError ("An error occurred: " +:+ str_of_exn e)]
             /\ errors new' = []
             /\ api_key (session (respond prompt s).2)
                = if contains "invalid_api_key" (lower (str_of_exn e))
                  then None else api_key (session s)).
Proof.
  destruct (truthy prompt) eqn:Hp.
  - destruct (respond_rendered prompt s Hp)
      as (more & new & _ & T & _ & _ & _ & _ & [(E & K & _)|(new' & e & -> & E & _ & K)]).
    + exists (Markdown prompt :: new). split; [exact T|]. left.
      split; [exact E | exact K].
    + exists (Markdown prompt :: new' ++ [StError ("An error occurred: " +:+ str_of_exn e)]).
      split; [exact T|]. right. exists (Markdown prompt :: new'), e.
      split; [reflexivity|]. split; [exact E | exact K].
  - exists []. unfold respond. rewrite Hp, app_nil_r. split; [reflexivity|].
    left. now split.
Qed.

End LoopRendered.

Lemma respond_transcript_roles_witness :
  exists more,
    display_messages (session (respond (env := scripted no_page) "hello"
                                 (start no_page reads_then_answers)).2)
    = [] ++ user "hello" :: more
    /\ Forall (fun m => role m = "assistant") more.
Proof.
  apply (respond_transcript_roles (env := scripted no_page) "hello"
           (start no_page reads_then_answers)).
  reflexivity.
Defined.

(** The transcript of the sample turn: the failed reading is shown as the
    assistant's. *)
Lemma reads_then_answers_transcript :
  display_messages (session (respond (env := scripted no_page) "hello"
                               (start no_page reads_then_answers)).2)
  = [ user "hello"; assistant "Let me read.";
      assistant (join nl [ "📄 **Webpage Content**"; "Reading: u"; "Extracted content:";
                           "Error reading webpage: Connection refused..." ]);
      assistant "Done." ].
Proof. vm_compute. reflexivity. Qed.

Lemma respond_contexts_grow_witness :
  exists new,
    trace (respond (env := scripted no_page) "hello"
             (start no_page reads_then_answers)).2 = [] ++ new
    /\ model_contexts new
       = [ [user "hello"];
           [ user "hello"; assistant "Let me read.";
             user "Content from u: Error reading webpage: Connection refused" ] ]
    /\ Forall (fun c => c `prefix_of`
                 messages (session (respond (env := scripted no_page) "hello"
                                      (start no_page reads_then_answers)).2))
         (model_contexts new).
Proof.
  destruct (respond_contexts_grow (env := scripted no_page) "hello"
              (start no_page reads_then_answers) eq_refl)
    as (new & T & _ & _ & _ & L).
  exists new. split; [exact T|].
  assert (E : new = trace (respond (env := scripted no_page) "hello"
                             (start no_page reads_then_answers)).2) by exact (eq_sym T).
  split; [rewrite E; vm_compute; reflexivity|].
  apply L. rewrite E. vm_compute. reflexivity.
Defined.

(** ** Turns with one model call *)

Section OneCall.
Context {env : Env}.

Lemma handle_content_texts (response : list content_item) :
  existsb is_tool_use response = false ->
  forall msgs s,
    handle_content response msgs s
    = (Ok (msgs ++ (assistant <$> texts response)),
       State (world s) (trace s ++ (Markdown <$> texts response))
         (SessionState (messages (session s))
            (display_messages (session s) ++ (assistant <$> texts response))
            (last_executed_code (session s)) (api_key (session s)))
         (logs s)).
Proof.
  induction response as [|item response IH]; intros Hno msgs s.
  - simpl. rewrite !app_nil_r. destruct s as [w tr [ms ds lc ak] lg]. reflexivity.
  - simpl in Hno. apply orb_false_iff in Hno as [Hitem Hno].
    change (handle_content (item :: response) msgs)
      with (bind (handle_content_item item msgs) (handle_content response)).
    destruct item as [text|name input|type]; [|discriminate|].
    + unfold handle_content_item. cbv zeta. unfold bind at 1.
      rewrite st_markdown_bind, display_messages_append_bind.
      unfold ret. rewrite (IH Hno).
      cbn [world trace session logs messages display_messages
             last_executed_code api_key].
      change (texts (TextBlock text :: response)) with (text :: texts response).
      rewrite !fmap_cons, <- !app_assoc. reflexivity.
    + unfold handle_content_item, bind, ret. rewrite (IH Hno). reflexivity.
Qed.

(** X23.  An answer without tool use: one model call, with the tools on; the
    persistent context and the transcript get the prompt and the texts of
    the answer as the assistant's, the screen shows the same, and nothing
    else changes. *)
Theorem respond_plain_answer (prompt : string) (s : state) response w :
  truthy prompt = true ->
  messages_create (messages (session s) ++ [user prompt]) true (world s)
  = (inr response, w) ->
  existsb is_tool_use response = false ->
  respond prompt s
  = (Ok true,
     State w
       (trace s ++ Markdown prompt
          :: ModelCall (messages (session s) ++ [user prompt]) true
          :: (Markdown <$> texts response))
       (SessionState
          (messages (session s) ++ user prompt :: (assistant <$> texts response))
          (display_messages (session s) ++ user prompt :: (assistant <$> texts response))
          (last_executed_code (session s)) (api_key (session s)))
       (logs s)).
Proof.
  intros Hp Hcall Hno. rewrite (respond_unfold prompt s Hp).
  unfold try_except. rewrite turn_body_unfold, conversation_loop_S.
  change (0 <? max_iterations) with true. cbv iota.
  change (0 + 1 <? max_iterations - 1) with true.
  unfold bind at 1. unfold client_messages_create.
  cbn [prompted world trace session logs messages display_messages
         last_executed_code api_key].
  rewrite Hcall. cbn [outcome]. unfold bind at 1.
  rewrite (handle_content_texts _ Hno), Hno.
  cbn [negb ret world trace session logs messages display_messages
         last_executed_code api_key].
  rewrite drop_app_length, <- !app_assoc. reflexivity.
Qed.

(** X24.  A model call that fails at once: the error is shown, the persistent
    context and the transcript have the prompt and nothing more, and the
    stored key is cleared when the message has [invalid_api_key] in it. *)
Theorem respond_model_failure (prompt : string) (s : state) e w :
  truthy prompt = true ->
  messages_create (messages (session s) ++ [user prompt]) true (world s)
  = (inl e, w) ->
  respond prompt s
  = (Ok true,
     State w
       (trace s ++ [ Markdown prompt;
                     ModelCall (messages (session s) ++ [user prompt]) true;
                     StError ("An error occurred: " +:+ str_of_exn e) ])
       (SessionState
          (messages (session s) ++ [user prompt])
          (display_messages (session s) ++ [user prompt])
          (last_executed_code (session s))
          (if contains "invalid_api_key" (lower (str_of_exn e))
           then None else api_key (session s)))
       (logs s)).
Proof.
  intros Hp Hcall. rewrite (respond_unfold prompt s Hp).
  unfold try_except. rewrite turn_body_unfold, conversation_loop_S.
  change (0 <? max_iterations) with true. cbv iota.
  change (0 + 1 <? max_iterations - 1) with true.
  unfold bind at 1. unfold client_messages_create.
  cbn [prompted world trace session logs messages display_messages
         last_executed_code api_key].
  rewrite Hcall. cbn [outcome]. rewrite on_exception_unfold.
  cbn [world trace session logs messages display_messages
         last_executed_code api_key].
  rewrite <- !app_assoc. reflexivity.
Qed.

End OneCall.

Lemma respond_plain_answer_witness :
  session (respond (env := scripted no_page) "hello" (start no_page plain_answer)).2
  = SessionState
      [user "hello"; assistant "Hello."; assistant "How can I help?"]
      [user "hello"; assistant "Hello."; assistant "How can I help?"]
      None None.
Proof.
  rewrite (respond_plain_answer (env := scripted no_page) "hello"
             (start no_page plain_answer)
             [TextBlock "Hello."; TextBlock "How can I help?"] (Script [] [] []));
    reflexivity.
Defined.

Lemma respond_model_failure_witness :
  api_key (session (respond (env := scripted no_page) "hello"
                      (@State (scripted no_page) bad_key [] keyed_session [])).2)
  = None
  /\ messages (session (respond (env := scripted no_page) "hello"
                          (@State (scripted no_page) bad_key [] keyed_session [])).2)
     = [user "hello"].
Proof.
  rewrite (respond_model_failure (env := scripted no_page) "hello"
             (@State (scripted no_page) bad_key [] keyed_session [])
             (Exception "Error code: 401 - Invalid_API_Key") (Script [] [] []));
    [|reflexivity|reflexivity].
  split; vm_compute; reflexivity.
Defined.

(** ** The dispatch of [read_webpage] and of [execute_code] *)

Section Dispatch.
Context {env : Env}.

(** X17.  The dispatch of [read_webpage] never raises: whatever the request
    gives, the model is told the whole of what [read_webpage] returned and
    the transcript gets its first 500 characters, followed by three dots. *)
Theorem read_webpage_tool_always_reports
    (input : gmap string value) (msgs : list message) (s : state) :
  exists content w,
    (read_webpage (input !! "url") s).1 = Ok content
    /\ handle_content_item (ToolUse "read_webpage" input) msgs s
       = (Ok (msgs ++ [user ("Content from " +:+ str_of_value (input !! "url")
                             +:+ ": " +:+ content)]),
          State w
            (trace s ++ [ HttpGet (str_of_value (input !! "url"));
                          Markdown (join nl [ "📄 **Webpage Content**";
                                              "Reading: " +:+ str_of_value (input !! "url");
                                              "Extracted content:";
                                              slice content None (Some 500) +:+ "..." ]) ])
            (SessionState (messages (session s))
               (display_messages (session s)
                ++ [assistant (join nl [ "📄 **Webpage Content**";
                                         "Reading: " +:+ str_of_value (input !! "url");
                                         "Extracted content:";
                                         slice content None (Some 500) +:+ "..." ])])
               (last_executed_code (session s)) (api_key (session s)))
            (logs s))
    /\ len (slice content None (Some 500) +:+ "...") <= 503.
Proof.
  unfold handle_content_item. name_tests. unfold dispatch_read_webpage. cbv zeta.
  unfold bind at 1.
  destruct (requests_get (str_of_value (input !! "url")) (world s)) as [[e|body] w] eqn:H.
  - rewrite (read_webpage_failed _ _ _ _ H).
    rewrite st_markdown_bind, display_messages_append_bind.
    eexists _, w. split; [reflexivity|]. split.
    + unfold ret. cbn [world trace session logs messages display_messages
                         last_executed_code api_key].
      rewrite <- !app_assoc. reflexivity.
    + rewrite len_append. pose proof (len_slice_upto
        ("Error reading webpage: " +:+ str_of_exn e) 500 ltac:(lia)).
      change (len "...") with 3. lia.
  - rewrite (read_webpage_fetched _ _ _ _ H).
    rewrite st_markdown_bind, display_messages_append_bind.
    eexists _, w. split; [reflexivity|]. split.
    + unfold ret. cbn [world trace session logs messages display_messages
                         last_executed_code api_key].
      rewrite <- !app_assoc. reflexivity.
    + rewrite len_append. pose proof (len_slice_upto
        (page_text (html_parser body)) 500 ltac:(lia)).
      change (len "...") with 3. lia.
Qed.

Lemma execute_code_returns (code : value) (s : state) :
  exists text s', execute_code code s = (Ok text, s') /\ session s' = session s.
Proof.
  destruct (execute_code_shape code s) as (text & new & E & _).
  eexists _, _. split; [exact E | reflexivity].
Qed.

(** A code that passes the guard is run and marked, whatever became of the
    run. *)
Lemma run_code_marks (code : value) (msgs : list message) (s : state) :
  exists msgs' s',
    run_code code msgs s = (Ok msgs', s')
    /\ last_executed_code (session s') = Some code.
Proof.
  unfold run_code. rewrite st_markdown_bind, display_messages_append_bind.
  unfold bind at 1.
  match goal with
  | |- context [execute_code code ?s0] =>
      destruct (execute_code_returns code s0) as (text & s1 & E & Hs); rewrite E
  end.
  cbv zeta. rewrite st_markdown_bind, display_messages_append_bind.
  eexists _, _. split; reflexivity.
Qed.

(** X18.  After the dispatch of a non-empty code, that code is the marker,
    whether it was run now or before and whether the run succeeded; the
    same request made again is answered with the refusal and changes
    nothing. *)
Theorem execute_code_tool_marks_the_code
    (input : gmap string value) (msgs : list message) (s : state) code :
  input !! "code" = Some code -> value_truthy code = true ->
  exists msgs1 s1,
    handle_content_item (ToolUse "execute_code" input) msgs s = (Ok msgs1, s1)
    /\ last_executed_code (session s1) = Some code
    /\ forall msgs2,
         handle_content_item (ToolUse "execute_code" input) msgs2 s1
         = (Ok (msgs2 ++ [user "The specified code has already been executed."]), s1).
Proof.
  intros H Ht. rewrite (dispatch_execute_code_guard _ _ _ _ H Ht).
  assert (Hagain : forall s1, last_executed_code (session s1) = Some code ->
            forall msgs2,
              handle_content_item (ToolUse "execute_code" input) msgs2 s1
              = (Ok (msgs2 ++ [user "The specified code has already been executed."]),
                 s1)).
  { intros s1 Hs1 msgs2. rewrite (dispatch_execute_code_guard _ _ _ _ H Ht).
    now rewrite decide_True. }
  destruct (decide (last_executed_code (session s) = Some code)) as [Hs|Hs].
  - eexists _, _. split; [reflexivity|]. split; [exact Hs | now apply Hagain].
  - destruct (run_code_marks code msgs s) as (msgs1 & s1 & E & Hm).
    exists msgs1, s1. split; [exact E|]. split; [exact Hm | now apply Hagain].
Qed.

End Dispatch.

Lemma execute_code_tool_marks_the_code_witness :
  last_executed_code
    (session (handle_content_item (env := scripted no_page)
                (ToolUse "execute_code" {[ "code" := VStr "print(" ]}) []
                (start no_page syntax_error)).2)
  = Some (VStr "print(").
Proof.
  destruct (execute_code_tool_marks_the_code (env := scripted no_page)
              {[ "code" := VStr "print(" ]} [] (start no_page syntax_error)
              (VStr "print(")) as (msgs1 & s1 & E & Hm & _).
  - vm_compute. reflexivity.
  - reflexivity.
  - rewrite E. exact Hm.
Defined.

(** ** Sample runs of the guarded statements *)

Lemma canonical_url_redirect_witness :
  canonical_url (redirect destination_with_space "abc123") = destination_with_space.
Proof.
  apply (canonical_url_redirect destination_with_space "abc123"); vm_compute; reflexivity.
Defined.

Lemma extract_missing_module_first_quotes_witness :
  extract_missing_module
    ("ModuleNotFoundError: No module named " +:+ String "'" ("numpy" +:+ String "'" nl))
  = Some "numpy".
Proof.
  apply (extract_missing_module_first_quotes
           "ModuleNotFoundError: No module named " "numpy" nl);
    vm_compute; reflexivity.
Defined.

Lemma respond_keeps_marker_truthy_witness :
  last_executed_code
    (session (respond (env := scripted no_page) "hello" (start no_page always_tools)).2)
  = Some (VStr "import foo")
  /\ value_truthy (VStr "import foo") = true.
Proof.
  pose proof (respond_keeps_marker_truthy (env := scripted no_page) "hello"
                (start no_page always_tools)
                (marker_truthy_unset (env := scripted no_page)
                   (start no_page always_tools) eq_refl)) as H.
  assert (E : last_executed_code
                (session (respond (env := scripted no_page) "hello"
                            (start no_page always_tools)).2)
              = Some (VStr "import foo")) by (vm_compute; reflexivity).
  split; [exact E | exact (H _ E)].
Defined.

(** ** The dispatch of [web_search] *)

Section DispatchWebSearch.
Context {env : Env}.

(** X26.  The dispatch of [web_search], with a query and at most the default
    of five results: when the request succeeds, the model and the
    transcript get the same text, the one as a message of the user and the
    other as an entry of the assistant; when the request fails, the
    exception leaves the dispatch with nothing appended. *)
Theorem web_search_tool_reports
    (input : gmap string value) (msgs : list message) (s : state) query n :
  input !! "query" = Some (VStr query) ->
  default (VInt 5) (input !! "num_results") = VInt n ->
  handle_content_item (ToolUse "web_search" input) msgs s
  = match requests_get (search_url query) (world s) with
    | (inr body, w) =>
        let text := search_results_text query (parse_results (html_parser body) n) in
        (Ok (msgs ++ [user text]),
         State w (trace s ++ [HttpGet (search_url query); Markdown text])
           (SessionState (messages (session s))
              (display_messages (session s) ++ [assistant text])
              (last_executed_code (session s)) (api_key (session s)))
           (logs s))
    | (inl e, w) =>
        (Raise e, State w (trace s ++ [HttpGet (search_url query)]) (session s) (logs s))
    end.
Proof.
  intros Hq Hn. unfold handle_content_item. name_tests.
  unfold dispatch_web_search. rewrite Hq, Hn. cbv zeta.
  unfold bind at 1. unfold search_duckduckgo, bind at 1, http_get.
  fold (search_url query).
  destruct (requests_get (search_url query) (world s)) as [[e|body] w];
    cbn [outcome]; [reflexivity|].
  unfold ret at 1. rewrite st_markdown_bind, display_messages_append_bind.
  unfold ret, search_results_text.
  cbn [world trace session logs messages display_messages last_executed_code api_key
         str_of_value].
  rewrite <- !app_assoc. reflexivity.
Qed.

End DispatchWebSearch.

Lemma web_search_tool_reports_witness :
  (handle_content_item (env := scripted (fun _ => page_results))
     (ToolUse "web_search" {[ "query" := VStr "rocq prover" ]}) []
     (start (fun _ => page_results) results_answer)).1
  = Ok [user (search_results_text "rocq prover"
                [ SearchResult "Rocq" "https://rocq-prover.org/" None;
                  SearchResult "Example" "https://example.com/" None ])].
Proof.
  rewrite (web_search_tool_reports (env := scripted (fun _ => page_results))
             {[ "query" := VStr "rocq prover" ]} []
             (start (fun _ => page_results) results_answer) "rocq prover" 5);
    vm_compute; reflexivity.
Defined.

(** The text of the sample search: a missing description is rendered as
    [None]. *)
Lemma search_results_text_sample :
  search_results_text "rocq" [SearchResult "Rocq" "https://rocq-prover.org/" None]
  = join nl [ "🔍 **Search Results**"; "Query: rocq"; "1. **Rocq**";
              "   URL: https://rocq-prover.org/"; "   None" ].
Proof. vm_compute. reflexivity. Qed.
